(** * Linguist-Vision: the audio decode pipeline and the AI service calls

    A shallow embedding of [src/services/gemini.ts] and of the submit
    handler of [src/App.tsx].

    - The pure part (base64 decoding, the [Int16Array] view, the
      de-interleaving loop of [decodeAudioData]) is embedded as total
      functions that return a [Completion]: a value or a thrown error.
    - The asynchronous part (the calls to the generative service, the
      video poller, the submit handler) is embedded as interaction trees
      over the events the code performs; an awaited promise is an event
      whose answer is the settled promise. *)

From Stdlib Require Import String Ascii ZArith QArith Qround Qabs List Lia Bool.
From Stdlib Require Strings.Byte.
From ITree Require Import ITree.
Import ListNotations.

Local Open Scope string_scope.
Local Open Scope Z_scope.

Set Implicit Arguments.

(** ** JavaScript values used by the code *)

(** An [Error] object: its constructor name and its message. *)
Record JsError : Type := mkError { err_name : string; err_message : string }.

(** A completion is normal or abrupt; a settled promise is fulfilled or
    rejected. Both read the same way here. *)
Inductive Completion (A : Type) : Type :=
| Done (a : A)
| Thrown (e : JsError).
Arguments Done {A} a.
Arguments Thrown {A} e.

Definition cbind {A B} (c : Completion A) (k : A -> Completion B) : Completion B :=
  match c with
  | Done a => k a
  | Thrown e => Thrown e
  end.

Notation "'let!' x ':=' c 'in' k" := (cbind c (fun x => k))
  (at level 10, x name, c at level 100, k at level 200).

(** A JavaScript number, as far as this code needs it: a finite value
    (kept exact as a rational), the infinities and NaN. Every value the
    audio pipeline stores is [k / 32768] with [|k| <= 32768], which is
    exact both as a double and as a [Float32Array] element, so no rounding
    is lost by keeping the rational. *)
Inductive number : Type :=
| Finite (q : Q)
| PosInf
| NegInf
| NaN.

(** [a / b] on finite operands (signed zeros are not distinguished). The
    quotient is kept exact, where JavaScript rounds it to a double. The
    code divides a sample count by a channel count and uses the result
    as a loop bound and as a length to truncate: for counts below 2^53
    the rounding moves the quotient across no integer, so neither use
    sees it. The other division, of a sample by 32768, is exact. *)
Definition js_div (a b : Q) : number :=
  if Qeq_bool b 0 then
    if Qeq_bool a 0 then NaN
    else if Qle_bool 0 a then PosInf else NegInf
  else Finite (a / b)%Q.

(** [i < x] for an integer [i]. *)
Definition js_lt_int (i : Z) (x : number) : bool :=
  match x with
  | Finite q => negb (Qle_bool q (inject_Z i))
  | PosInf => true
  | NegInf | NaN => false
  end.

(** Truncation toward zero. *)
Definition Qtruncate (q : Q) : Z := Z.quot (Qnum q) (Zpos (Qden q)).

(** WebIDL conversion of a number to [unsigned long]: NaN and the
    infinities become 0, other values are truncated toward zero and taken
    modulo 2^32. *)
Definition to_unsigned_long (x : number) : Z :=
  match x with
  | Finite q => (Qtruncate q) mod 2 ^ 32
  | _ => 0
  end.

(** ** Lists indexed by JavaScript indices *)

Definition Zlength' {A} (l : list A) : Z := Z.of_nat (List.length l).

(** [l[i]]: [None] stands for [undefined], out of range. *)
Definition Zget {A} (l : list A) (i : Z) : option A :=
  if i <? 0 then None else nth_error l (Z.to_nat i).

Fixpoint list_set {A} (l : list A) (n : nat) (v : A) : list A :=
  match l, n with
  | [], _ => []
  | _ :: tl, O => v :: tl
  | x :: tl, S n' => x :: list_set tl n' v
  end.

(** [l[i] = v] on a typed array: a write out of range is ignored. *)
Definition Zset {A} (l : list A) (i : Z) (v : A) : list A :=
  if i <? 0 then l else list_set l (Z.to_nat i) v.

(** [for (let i = 0; i < bound; i++) body(i)]: the indices visited are
    the integers [0 <= i < bound], in order. A bound that is NaN or
    negative gives no iteration. An infinite bound never stops in
    JavaScript; it gets no iteration here, and [decodeAudioData] does not
    reach its loops with such a bound (see [createBuffer_length]). *)
Definition loop_indices (bound : number) : list Z :=
  match bound with
  | Finite q => map Z.of_nat (seq 0 (Z.to_nat (Qceiling q)))
  | _ => []
  end.

Definition for_lt {S} (bound : number) (body : Z -> S -> S) (s : S) : S :=
  fold_left (fun acc i => body i acc) (loop_indices bound) s.

(** The same loop with a body that may throw: the first throw ends it. *)
Definition for_lt_throwing {S} (bound : number) (body : Z -> S -> Completion S) (s : S)
  : Completion S :=
  fold_left (fun acc i => let! a := acc in body i a) (loop_indices bound) (Done s).

(** ** Bytes and typed arrays *)

Definition byte_to_Z (b : Byte.byte) : Z := Z.of_N (Byte.to_N b).

(** Storing into a [Uint8Array] element: the value modulo 256. *)
Definition ToUint8 (z : Z) : Byte.byte :=
  match Byte.of_N (Z.to_N (z mod 256)) with
  | Some b => b
  | None => Byte.x00
  end.

Definition ArrayBuffer : Type := list Byte.byte.

(** A [Uint8Array] is a window of [length] bytes at [byteOffset] of its
    underlying buffer. *)
Record Uint8Array : Type := mkUint8Array {
  buffer : ArrayBuffer;
  byteOffset : Z;
  u8_length : Z
}.

(** [new Uint8Array(len)]: a fresh zero-filled buffer of [len] bytes. *)
Definition new_Uint8Array (len : Z) : Uint8Array :=
  {| buffer := repeat Byte.x00 (Z.to_nat len); byteOffset := 0; u8_length := len |}.

(** [bytes[i] = v] *)
Definition Uint8Array_set (a : Uint8Array) (i : Z) (v : Z) : Uint8Array :=
  if (0 <=? i) && (i <? u8_length a)
  then {| buffer := Zset (buffer a) (byteOffset a + i) (ToUint8 v);
          byteOffset := byteOffset a; u8_length := u8_length a |}
  else a.

(** A 16-bit pattern read as a signed integer. *)
Definition to_int16 (u : Z) : Z :=
  let m := u mod 65536 in
  if m <? 32768 then m else m - 65536.

(** The elements of an [Int16Array] over a buffer: consecutive byte
    pairs, low byte first (typed arrays use the platform byte order,
    little-endian on every platform a browser runs on). *)
Fixpoint int16_elements (bs : list Byte.byte) : list Z :=
  match bs with
  | lo :: hi :: rest => to_int16 (byte_to_Z lo + 256 * byte_to_Z hi) :: int16_elements rest
  | _ => []
  end.

Definition RangeError_Int16Array : JsError :=
  mkError "RangeError" "byte length of Int16Array should be a multiple of 2".

(** [new Int16Array(buffer)]: a view over the whole buffer; the
    constructor throws a RangeError when the byte length is not a
    multiple of the element size. *)
Definition new_Int16Array (b : ArrayBuffer) : Completion (list Z) :=
  if Zlength' b mod 2 =? 0 then Done (int16_elements b)
  else Thrown RangeError_Int16Array.

(** ** The Web Audio buffer *)

(** What an audio context supports (Web Audio API, [createBuffer]): at
    most [maxChannels] channels (at least 32 in any implementation) and
    sample rates in a range (at least 8000 to 96000). *)
Record AudioContext : Type := mkAudioContext {
  maxChannels : Z;
  minSampleRate : Z;
  maxSampleRate : Z
}.

Record AudioBuffer : Type := mkAudioBuffer {
  numberOfChannels : Z;
  ab_length : Z;
  ab_sampleRate : Z;
  channels : list (list number)
}.

Definition NotSupportedError : JsError :=
  mkError "NotSupportedError" "createBuffer: argument outside its nominal range".

(** [ctx.createBuffer(numberOfChannels, length, sampleRate)] (Web Audio
    API, BaseAudioContext): the first two arguments are converted to
    [unsigned long]; the call throws NotSupportedError when an argument
    is zero or outside its nominal range, that is for a channel count of
    0 or above the maximum, a length of 0, or an unsupported sample rate;
    otherwise the buffer is zero-filled. *)
Definition createBuffer (ctx : AudioContext) (nChannels : Z) (len : number) (rate : Z)
  : Completion AudioBuffer :=
  let nc := nChannels mod 2 ^ 32 in
  let n := to_unsigned_long len in
  if (1 <=? nc) && (nc <=? maxChannels ctx) && (1 <=? n)
     && (minSampleRate ctx <=? rate) && (rate <=? maxSampleRate ctx)
  then Done {| numberOfChannels := nc; ab_length := n; ab_sampleRate := rate;
               channels := repeat (repeat (Finite 0) (Z.to_nat n)) (Z.to_nat nc) |}
  else Thrown NotSupportedError.

Definition IndexSizeError : JsError :=
  mkError "IndexSizeError" "getChannelData: channel index outside the buffer".

(** [buffer.getChannelData(channel)]: the samples of a channel of the
    buffer; an index that is not below [numberOfChannels] throws
    IndexSizeError. The array returned is the storage of the channel:
    what is written to it is written to the buffer, which the model does
    by putting the array back. *)
Definition getChannelData (chans : list (list number)) (channel : Z)
  : Completion (list number) :=
  match Zget chans channel with
  | Some c => Done c
  | None => Thrown IndexSizeError
  end.

(** ** [decodeAudioData] (gemini.ts, lines 165-182) *)

(** [dataInt16[idx] / 32768.0]; reading out of range gives [undefined],
    which divides to NaN. *)
Definition sample_div (dataInt16 : list Z) (idx : Z) : number :=
  match Zget dataInt16 idx with
  | Some s => js_div (inject_Z s) (inject_Z 32768)
  | None => NaN
  end.

Definition decodeAudioData (data : Uint8Array) (ctx : AudioContext)
           (sampleRate : Z) (numChannels : Z) : Completion AudioBuffer :=
  let! dataInt16 := new_Int16Array (buffer data) in
  let frameCount := js_div (inject_Z (Zlength' dataInt16)) (inject_Z numChannels) in
  let! buf := createBuffer ctx numChannels frameCount sampleRate in
  let! chans :=
    for_lt_throwing (Finite (inject_Z numChannels))
      (fun channel chans =>
         let! channelData := getChannelData chans channel in
         let channelData' :=
           for_lt frameCount
             (fun i cd => Zset cd i (sample_div dataInt16 (i * numChannels + channel)))
             channelData in
         Done (Zset chans channel channelData'))
      (channels buf) in
  Done {| numberOfChannels := numberOfChannels buf; ab_length := ab_length buf;
          ab_sampleRate := ab_sampleRate buf; channels := chans |}.


(** ** PCM16 data *)

(** The range of a signed 16-bit sample. *)
Definition int16 (s : Z) : Prop := -32768 <= s <= 32767.

(** The two bytes of a sample, low byte first (two's complement). *)
Definition int16_bytes (s : Z) : list Byte.byte :=
  let u := s mod 65536 in
  [ToUint8 u; ToUint8 (u / 256)].

(** The byte array that represents a sequence of samples. *)
Definition pcm16le (samples : list Z) : ArrayBuffer := flat_map int16_bytes samples.

(** A byte array as [decodeBase64] returns it: a view over a buffer of
    its own. *)
Definition Uint8Array_of (bs : list Byte.byte) : Uint8Array :=
  {| buffer := bs; byteOffset := 0; u8_length := Zlength' bs |}.

(** The context accepts this channel count and sample rate. *)
Definition supports (ctx : AudioContext) (nChannels rate : Z) : Prop :=
  1 <= nChannels <= maxChannels ctx /\ maxChannels ctx < 2 ^ 32 /\
  minSampleRate ctx <= rate <= maxSampleRate ctx.

(** The limits every implementation of the Web Audio API must accept. *)
Definition baselineContext : AudioContext :=
  {| maxChannels := 32; minSampleRate := 8000; maxSampleRate := 96000 |}.

(** Frame [i] of channel [c]. *)
Definition frame (buf : AudioBuffer) (c i : Z) : option number :=
  match Zget (channels buf) c with
  | Some ch => Zget ch i
  | None => None
  end.

(** ** [atob] and [decodeBase64] (gemini.ts, lines 155-163) *)

(** A JavaScript string is kept as a Rocq [string]: a sequence of code
    units below 256. That covers every base64 text and every binary
    string; a code unit of 256 or more in the input of [atob] would be
    rejected like any other character outside the alphabet. *)

Definition charCode (c : ascii) : Z := Z.of_N (N_of_ascii c).
Definition fromCharCode (z : Z) : ascii := ascii_of_N (Z.to_N z).

Definition chars (s : string) : list ascii := list_ascii_of_string s.

(** The base64 alphabet, in table order. *)
Definition base64_alphabet : list ascii :=
  chars "ABCDEFGHIJKLMNOPQRSTUVWXYZabcdefghijklmnopqrstuvwxyz0123456789+/".

Definition char_of_sextet (n : Z) : ascii :=
  nth (Z.to_nat n) base64_alphabet "A"%char.

Fixpoint index_of (c : ascii) (l : list ascii) (i : Z) : option Z :=
  match l with
  | [] => None
  | x :: tl => if Ascii.eqb c x then Some i else index_of c tl (i + 1)
  end.

Definition sextet_of_char (c : ascii) : option Z := index_of c base64_alphabet 0.

Definition is_byte (z : Z) : Prop := 0 <= z < 256.
Definition is_sextet (z : Z) : Prop := 0 <= z < 64.

(** ASCII whitespace: TAB, LF, FF, CR and SPACE. *)
Definition is_ascii_whitespace (c : ascii) : bool :=
  let n := charCode c in
  (n =? 9) || (n =? 10) || (n =? 12) || (n =? 13) || (n =? 32).

Definition pad_char : ascii := "="%char.

(** When the length is a multiple of 4, one or two trailing [=] are
    removed. *)
Definition strip_padding (l : list ascii) : list ascii :=
  if Zlength' l mod 4 =? 0 then
    match rev l with
    | p1 :: p2 :: r =>
        if Ascii.eqb p1 pad_char then
          if Ascii.eqb p2 pad_char then rev r else rev (p2 :: r)
        else l
    | _ => l
    end
  else l.

Fixpoint sextets_of_chars (l : list ascii) : option (list Z) :=
  match l with
  | [] => Some []
  | c :: tl =>
      match sextet_of_char c, sextets_of_chars tl with
      | Some s, Some r => Some (s :: r)
      | _, _ => None
      end
  end.

(** Four sextets give three bytes; two left over give one byte and
    three give two, the spare low bits being discarded. *)
Fixpoint bytes_of_sextets (l : list Z) : list Z :=
  match l with
  | s1 :: s2 :: s3 :: s4 :: rest =>
      let n := ((s1 * 64 + s2) * 64 + s3) * 64 + s4 in
      n / 65536 :: (n / 256) mod 256 :: n mod 256 :: bytes_of_sextets rest
  | [s1; s2; s3] =>
      let n := (s1 * 64 + s2) * 64 + s3 in
      [n / 1024; (n / 4) mod 256]
  | [s1; s2] => [(s1 * 64 + s2) / 16]
  | _ => []
  end.

Definition InvalidCharacterError : JsError :=
  mkError "InvalidCharacterError" "The string to be decoded is not correctly encoded.".

(** [atob]: the forgiving base64 decoding of the HTML standard. It throws
    when a length of 1 modulo 4 remains after stripping, or on a
    character outside the alphabet. The result is a binary string. *)
Definition atob (base64 : string) : Completion string :=
  let data := filter (fun c => negb (is_ascii_whitespace c)) (chars base64) in
  let data := strip_padding data in
  if Zlength' data mod 4 =? 1 then Thrown InvalidCharacterError
  else
    match sextets_of_chars data with
    | None => Thrown InvalidCharacterError
    | Some ss => Done (string_of_list_ascii (map fromCharCode (bytes_of_sextets ss)))
    end.

(** [s.charCodeAt(i)]; out of range it is NaN, which a [Uint8Array]
    element stores as 0. *)
Definition charCodeAt (s : string) (i : Z) : Z :=
  match Zget (chars s) i with
  | Some c => charCode c
  | None => 0
  end.

Definition decodeBase64 (base64 : string) : Completion Uint8Array :=
  let! binaryString := atob base64 in
  let len := Zlength' (chars binaryString) in
  let bytes := new_Uint8Array len in
  Done (for_lt (Finite (inject_Z len))
          (fun i bytes => Uint8Array_set bytes i (charCodeAt binaryString i))
          bytes).

(** ** Encoding, the inverse direction of the pipeline *)

(** [btoa]: three bytes give four characters, with [=] padding. *)
Fixpoint sextets_of_bytes (l : list Z) : list Z :=
  match l with
  | a :: b :: c :: rest =>
      a / 4 :: (a mod 4) * 16 + b / 16 :: (b mod 16) * 4 + c / 64 :: c mod 64
        :: sextets_of_bytes rest
  | [a; b] => [a / 4; (a mod 4) * 16 + b / 16; (b mod 16) * 4]
  | [a] => [a / 4; (a mod 4) * 16]
  | [] => []
  end.

Definition padding_for (n : nat) : list ascii :=
  match (n mod 3)%nat with
  | 1%nat => [pad_char; pad_char]
  | 2%nat => [pad_char]
  | _ => []
  end.

Definition btoa_bytes (bs : list Byte.byte) : string :=
  string_of_list_ascii
    (map char_of_sextet (sextets_of_bytes (map byte_to_Z bs)) ++ padding_for (length bs)).

(** Modelled from the spec: the encoder of the round-trip property
    ("encoding N known float samples to 16-bit PCM") is not part of the
    sources. A sample [x] is quantized to a 16-bit integer by [quantize],
    written as two little-endian bytes, and the byte stream is base64
    text, the form [decodeBase64] takes. *)
Definition encodePCM16 (quantize : Q -> Z) (xs : list Q) : string :=
  btoa_bytes (pcm16le (map quantize xs)).

(** What a quantizer has to satisfy: on [-1, 1) it stays in the 16-bit
    range and is off by at most one step of 1/32768. *)
Definition pcm16_quantizer (quantize : Q -> Z) : Prop :=
  forall x : Q, (-1 <= x)%Q -> (x < 1)%Q ->
    int16 (quantize x) /\
    (Qabs (inject_Z (quantize x) / inject_Z 32768 - x) <= 1 # 32768)%Q.

(** Two usual quantizers: rounding down, and what storing [x * 32768]
    into an [Int16Array] element does, truncation toward zero. *)
Definition quantize_floor (x : Q) : Z := Qfloor (x * inject_Z 32768).
Definition quantize_trunc (x : Q) : Z := to_int16 (Qtruncate (x * inject_Z 32768)).

(** ** JSON values and [JSON.parse] *)

(** A JavaScript string as the sequence of its UTF-16 code units. The
    texts of this model hold code units below 256; a string parsed from
    JSON can hold any code unit. *)
Definition units (s : string) : list Z := map charCode (chars s).

(** A Number value as [JSON.parse] can give it: a finite double, kept
    as the fraction in lowest terms (with [+0] as [0]); [-0]; or an
    infinity. *)
Inductive double : Type :=
| Dbl (q : Q)
| DblNegZero
| DblInfinity (negative : bool).

(** A parsed JSON value. The members of an object are its own
    properties in the order in which JavaScript lists them. *)
#[warnings="-register-all"] Inductive json : Type :=
| JNull
| JBool (b : bool)
| JNumber (d : double)
| JString (s : list Z)
| JArray (items : list json)
| JObject (members : list (list Z * json)).

(** *** Number values (ECMA-262, 6.1.6.1) *)

(** The integer nearest to [n / d], the even one of two that are
    equally near; for [0 <= n] and [0 < d]. *)
Definition round_half_even (n d : Z) : Z :=
  let f := n / d in
  match 2 * (n mod d) ?= d with
  | Lt => f
  | Gt => f + 1
  | Eq => if Z.even f then f else f + 1
  end.

(** [2 ^ e <= n / d], for an exponent of any sign. *)
Definition pow2_le (e n d : Z) : bool :=
  if 0 <=? e then 2 ^ e * d <=? n else d <=? n * 2 ^ (- e).

(** The [e] with [2 ^ e <= n / d < 2 ^ (e + 1)], for [0 < n] and
    [0 < d]. *)
Definition binary_exponent (n d : Z) : Z :=
  let e := Z.log2 n - Z.log2 d in
  if pow2_le e n d then e else e - 1.

(** The fraction [m * 2 ^ e], negated when [negative]. *)
Definition scaled (negative : bool) (m e : Z) : Q :=
  let s := if negative then - m else m in
  Qred (if 0 <=? e then Qmake (s * 2 ^ e) 1 else Qmake s (Z.to_pos (2 ^ (- e)))).

(** The Number value for [n / d] with [0 <= n] and [0 < d], negated
    when [negative]: the nearest double, the one with an even
    significand of two that are equally near. A double is [m * 2 ^ e]
    with [m < 2 ^ 53] and [-1074 <= e]; from [2 ^ 1024] on the result is
    an infinity, and what rounds to nothing is a zero of the sign. *)
Definition round_to_double (negative : bool) (n d : Z) : double :=
  if n =? 0 then (if negative then DblNegZero else Dbl 0)
  else
    let e := Z.max (binary_exponent n d - 52) (- 1074) in
    let m := if 0 <=? e then round_half_even n (d * 2 ^ e)
             else round_half_even (n * 2 ^ (- e)) d in
    if m =? 0 then (if negative then DblNegZero else Dbl 0)
    else if (0 <=? e) && (2 ^ 1024 <=? m * 2 ^ e) then DblInfinity negative
    else Dbl (scaled negative m e).

(** The Number value for [m * 10 ^ k], with [0 <= m]: the exact value
    is rounded, as the engines do (the standard would let them drop the
    digits after the twentieth). *)
Definition decimal_to_double (negative : bool) (m k : Z) : double :=
  if 0 <=? k then round_to_double negative (m * 10 ^ k) 1
  else round_to_double negative m (10 ^ (- k)).

(** The rational a Number value stands for, when it is finite. *)
Definition double_value (d : double) : option Q :=
  match d with
  | Dbl q => Some q
  | DblNegZero => Some 0%Q
  | DblInfinity _ => None
  end.

(** *** Objects *)

Definition is_digit (c : Z) : bool := (48 <=? c) && (c <=? 57).

(** The number a run of decimal digits writes. *)
Definition digits_value (ds : list Z) : Z :=
  fold_left (fun acc c => acc * 10 + (c - 48)) ds 0.

(** An array index (ECMA-262, 6.1.7): the key is the decimal writing,
    without leading zeros, of an integer up to [2 ^ 32 - 2]. *)
Definition array_index (key : list Z) : option Z :=
  match key with
  | [] => None
  | c :: more =>
      if forallb is_digit key
         && (negb (c =? 48) || match more with [] => true | _ :: _ => false end)
         && (digits_value key <=? 4294967294)
      then Some (digits_value key)
      else None
  end.

Definition key_eqb (a b : list Z) : bool :=
  if list_eq_dec Z.eq_dec a b then true else false.

(** Whether a new key [key] is listed before the key [k] that is
    already there: array indices come first, in ascending order, then
    the other keys in the order of their creation. *)
Definition listed_before (key k : list Z) : bool :=
  match array_index key, array_index k with
  | Some n, Some m => n <? m
  | Some _, None => true
  | None, _ => false
  end.

(** [CreateDataProperty(object, key, v)] on the members of an object: an
    existing property takes the new value where it is; a new one goes to
    its place in the listing. *)
Fixpoint define_property (key : list Z) (v : json) (members : list (list Z * json))
  : list (list Z * json) :=
  match members with
  | [] => [(key, v)]
  | (k, x) :: rest =>
      if key_eqb k key then (k, v) :: rest
      else if listed_before key k then (key, v) :: members
      else (k, x) :: define_property key v rest
  end.

(** The object of the members of a JSON text, defined in the order of
    the text: of two members with one key the later one wins. *)
Definition make_object (members : list (list Z * json)) : json :=
  JObject (fold_left (fun o m => define_property (fst m) (snd m) o) members []).

(** [v.key] for a key such as the fields of a feedback, which no array,
    string, number or boolean has of its own: the property of an object,
    [None] for [undefined]. ([null] has no property either; reading one
    throws, which is not told apart here.) *)
Fixpoint lookup_member (key : list Z) (members : list (list Z * json)) : option json :=
  match members with
  | [] => None
  | (k, v) :: rest => if key_eqb k key then Some v else lookup_member key rest
  end.

Definition property (v : json) (key : string) : option json :=
  match v with
  | JObject members => lookup_member (units key) members
  | _ => None
  end.

(** *** The parser *)

(** The error of [JSON.parse]; its message differs between engines. *)
Definition SyntaxError : JsError :=
  mkError "SyntaxError" "Unexpected token in JSON".

(** The double quote and the backslash, named to keep them out of
    string literals. *)
Definition dquote : ascii := ascii_of_nat 34.
Definition backslash : ascii := ascii_of_nat 92.
Definition dq : string := String dquote EmptyString.

(** Space, tab, line feed, carriage return. *)
Definition is_json_ws (c : Z) : bool :=
  (c =? 32) || (c =? 9) || (c =? 10) || (c =? 13).

Fixpoint skip_ws (s : list Z) : list Z :=
  match s with
  | c :: r => if is_json_ws c then skip_ws r else s
  | [] => []
  end.

(** [0-9], [A-F], [a-f] *)
Definition hex_value (c : Z) : option Z :=
  if (48 <=? c) && (c <=? 57) then Some (c - 48)
  else if (65 <=? c) && (c <=? 70) then Some (c - 55)
  else if (97 <=? c) && (c <=? 102) then Some (c - 87)
  else None.

(** The code unit of a one-letter escape: the quote, the backslash, the
    slash, and [b f n r t]. *)
Definition escape_value (e : Z) : option Z :=
  if e =? 34 then Some 34
  else if e =? 92 then Some 92
  else if e =? 47 then Some 47
  else if e =? 98 then Some 8
  else if e =? 102 then Some 12
  else if e =? 110 then Some 10
  else if e =? 114 then Some 13
  else if e =? 116 then Some 9
  else None.

(** A run of digits: its value continued from [acc], how many digits
    were read, and the rest of the text. *)
Fixpoint read_digits (s : list Z) (acc : Z) (count : Z) : Z * Z * list Z :=
  match s with
  | c :: r =>
      if is_digit c then read_digits r (acc * 10 + (c - 48)) (count + 1)
      else (acc, count, s)
  | [] => (acc, count, [])
  end.

(** The text after the opening quote of a string, up to its closing
    quote: the code units it stands for, and the rest of the text. A
    code unit below 32 must be escaped; [\uXXXX] stands for the code
    unit of the four hexadecimal digits. *)
Fixpoint read_string (s : list Z) : option (list Z * list Z) :=
  match s with
  | [] => None
  | c :: r =>
      if c =? 34 then Some ([], r)
      else if c =? 92 then
        match r with
        | [] => None
        | e :: r' =>
            if e =? 117 then
              match r' with
              | h1 :: h2 :: h3 :: h4 :: r'' =>
                  match hex_value h1, hex_value h2, hex_value h3, hex_value h4 with
                  | Some a, Some b, Some c', Some d =>
                      match read_string r'' with
                      | Some (str, rest) =>
                          Some (((a * 16 + b) * 16 + c') * 16 + d :: str, rest)
                      | None => None
                      end
                  | _, _, _, _ => None
                  end
              | _ => None
              end
            else
              match escape_value e with
              | Some u =>
                  match read_string r' with
                  | Some (str, rest) => Some (u :: str, rest)
                  | None => None
                  end
              | None => None
              end
        end
      else if c <? 32 then None
      else
        match read_string r with
        | Some (str, rest) => Some (c :: str, rest)
        | None => None
        end
  end.

(** The parts of a number: an optional minus; an integer part without
    a leading zero; an optional fraction, whose digits continue the
    digits of the integer part; an optional exponent. *)
Definition read_minus (s : list Z) : bool * list Z :=
  match s with
  | c :: r => if c =? 45 then (true, r) else (false, s)
  | [] => (false, s)
  end.

Definition read_int (s : list Z) : option (Z * list Z) :=
  let '(int, n_int, rest) := read_digits s 0 0 in
  let leading_zero := match s with
                      | c :: _ => (c =? 48) && (1 <? n_int)
                      | [] => false
                      end in
  if (n_int =? 0) || leading_zero then None else Some (int, rest).

Definition read_fraction (int : Z) (s : list Z) : option (Z * Z * list Z) :=
  match s with
  | c :: r =>
      if c =? 46 then
        let '(m, n_frac, rest) := read_digits r int 0 in
        if n_frac =? 0 then None else Some (m, n_frac, rest)
      else Some (int, 0, s)
  | [] => Some (int, 0, s)
  end.

Definition read_exponent (s : list Z) : option (Z * list Z) :=
  match s with
  | c :: r =>
      if (c =? 101) || (c =? 69) then
        let '(sign, r1) :=
          match r with
          | x :: r' => if x =? 45 then (-1, r')
                       else if x =? 43 then (1, r')
                       else (1, r)
          | [] => (1, r)
          end in
        let '(e, n_e, rest) := read_digits r1 0 0 in
        if n_e =? 0 then None else Some (sign * e, rest)
      else Some (0, s)
  | [] => Some (0, s)
  end.

(** A number. With [m] what the digits of the integer part and of the
    fraction write, its value is the Number value for
    [m * 10 ^ (e - number of fraction digits)]. *)
Definition read_number (s : list Z) : option (double * list Z) :=
  let '(negative, s1) := read_minus s in
  match read_int s1 with
  | None => None
  | Some (int, s2) =>
      match read_fraction int s2 with
      | None => None
      | Some (m, n_frac, s3) =>
          match read_exponent s3 with
          | None => None
          | Some (e, s4) => Some (decimal_to_double negative m (e - n_frac), s4)
          end
      end
  end.

Fixpoint starts_with (p s : list Z) : option (list Z) :=
  match p, s with
  | [], _ => Some s
  | a :: p', b :: s' => if a =? b then starts_with p' s' else None
  | _ :: _, [] => None
  end.

(** The two loops of the parser, over a parser [parse] of values. *)
Section Loops.

Variable parse : list Z -> option (json * list Z).

(** The elements of an array that is not empty, through its closing
    bracket. *)
Fixpoint parse_elements (n : nat) (s : list Z) : option (list json * list Z) :=
  match n with
  | O => None
  | S n' =>
      match parse s with
      | None => None
      | Some (v, r) =>
          match skip_ws r with
          | c :: r' =>
              if c =? 44 then
                match parse_elements n' r' with
                | Some (vs, rest) => Some (v :: vs, rest)
                | None => None
                end
              else if c =? 93 then Some ([v], r')
              else None
          | [] => None
          end
      end
  end.

(** The members of an object that is not empty, through its closing
    brace. *)
Fixpoint parse_members (n : nat) (s : list Z)
  : option (list (list Z * json) * list Z) :=
  match n with
  | O => None
  | S n' =>
      match skip_ws s with
      | q :: r0 =>
          if q =? 34 then
            match read_string r0 with
            | None => None
            | Some (k, r1) =>
                match skip_ws r1 with
                | colon :: r2 =>
                    if colon =? 58 then
                      match parse r2 with
                      | None => None
                      | Some (v, r3) =>
                          match skip_ws r3 with
                          | c :: r4 =>
                              if c =? 44 then
                                match parse_members n' r4 with
                                | Some (ms, rest) => Some ((k, v) :: ms, rest)
                                | None => None
                                end
                              else if c =? 125 then Some ([(k, v)], r4)
                              else None
                          | [] => None
                          end
                      end
                    else None
                | [] => None
                end
            end
          else None
      | [] => None
      end
  end.

End Loops.

(** Recursive descent: white space, then one value; what is returned
    with the value is the text after it. Every call consumes at least
    one code unit, so a budget of one more than the length of the text
    is never exhausted. *)
Fixpoint parse_value (budget : nat) (s : list Z) : option (json * list Z) :=
  match budget with
  | O => None
  | S budget' =>
      match skip_ws s with
      | [] => None
      | c :: r =>
          if c =? 123 then
            match skip_ws r with
            | c' :: r' =>
                if c' =? 125 then Some (JObject [], r')
                else
                  match parse_members (parse_value budget') budget' r with
                  | Some (ms, rest) => Some (make_object ms, rest)
                  | None => None
                  end
            | [] => None
            end
          else if c =? 91 then
            match skip_ws r with
            | c' :: r' =>
                if c' =? 93 then Some (JArray [], r')
                else
                  match parse_elements (parse_value budget') budget' r with
                  | Some (vs, rest) => Some (JArray vs, rest)
                  | None => None
                  end
            | [] => None
            end
          else if c =? 34 then
            match read_string r with
            | Some (str, rest) => Some (JString str, rest)
            | None => None
            end
          else if c =? 116 then
            match starts_with (units "true") (c :: r) with
            | Some rest => Some (JBool true, rest)
            | None => None
            end
          else if c =? 102 then
            match starts_with (units "false") (c :: r) with
            | Some rest => Some (JBool false, rest)
            | None => None
            end
          else if c =? 110 then
            match starts_with (units "null") (c :: r) with
            | Some rest => Some (JNull, rest)
            | None => None
            end
          else
            match read_number (c :: r) with
            | Some (d, rest) => Some (JNumber d, rest)
            | None => None
            end
      end
  end.

(** [JSON.parse(text)]: one value, with nothing but white space around
    it; anything else throws a SyntaxError. *)
Definition JSON_parse (text : list Z) : Completion json :=
  match parse_value (S (length text)) text with
  | Some (v, rest) =>
      match skip_ws rest with
      | [] => Done v
      | _ :: _ => Thrown SyntaxError
      end
  | None => Thrown SyntaxError
  end.

(** *** The grammar of JSON texts (ECMA-404)

    What [JSON.parse] accepts and what each text stands for, written
    after the grammar of the standard and apart from the parser above;
    the two are proved to agree. *)

(** White space: space, horizontal tab, line feed, carriage return. *)
Definition ws_unit (c : Z) : Prop := c = 32 \/ c = 9 \/ c = 10 \/ c = 13.
Definition json_ws (w : list Z) : Prop := Forall ws_unit w.

(** A hexadecimal digit and its value. *)
Inductive json_hex : Z -> Z -> Prop :=
| hex_decimal c : 48 <= c <= 57 -> json_hex c (c - 48)
| hex_upper c : 65 <= c <= 70 -> json_hex c (c - 55)
| hex_lower c : 97 <= c <= 102 -> json_hex c (c - 87).

(** The letter of an escape and the code unit it stands for. *)
Inductive json_escape : Z -> Z -> Prop :=
| escape_quote : json_escape 34 34
| escape_backslash : json_escape 92 92
| escape_slash : json_escape 47 47
| escape_b : json_escape 98 8
| escape_f : json_escape 102 12
| escape_n : json_escape 110 10
| escape_r : json_escape 114 13
| escape_t : json_escape 116 9.

(** The characters between the quotes of a string, and the code units
    they stand for. *)
Inductive json_characters : list Z -> list Z -> Prop :=
| characters_none : json_characters [] []
| characters_plain c text s :
    32 <= c -> c <> 34 -> c <> 92 ->
    json_characters text s ->
    json_characters (c :: text) (c :: s)
| characters_escape e u text s :
    json_escape e u ->
    json_characters text s ->
    json_characters (92 :: e :: text) (u :: s)
| characters_unicode h1 h2 h3 h4 a b c d text s :
    json_hex h1 a -> json_hex h2 b -> json_hex h3 c -> json_hex h4 d ->
    json_characters text s ->
    json_characters (92 :: 117 :: h1 :: h2 :: h3 :: h4 :: text)
                    (4096 * a + 256 * b + 16 * c + d :: s).

(** One or more decimal digits, and the number they write. *)
Inductive json_digits : list Z -> Z -> Prop :=
| digits_one c : 48 <= c <= 57 -> json_digits [c] (c - 48)
| digits_more ds n c :
    json_digits ds n -> 48 <= c <= 57 ->
    json_digits (ds ++ [c])%list (10 * n + (c - 48)).

(** The fraction of a number, and its digits. *)
Inductive json_fraction : list Z -> list Z -> Prop :=
| fraction_none : json_fraction [] []
| fraction_digits ds n : json_digits ds n -> json_fraction (46 :: ds) ds.

(** The exponent of a number, and its value. *)
Inductive json_exponent : list Z -> Z -> Prop :=
| exponent_none : json_exponent [] 0
| exponent_unsigned e ds n :
    e = 101 \/ e = 69 -> json_digits ds n -> json_exponent (e :: ds) n
| exponent_plus e ds n :
    e = 101 \/ e = 69 -> json_digits ds n -> json_exponent (e :: 43 :: ds) n
| exponent_minus e ds n :
    e = 101 \/ e = 69 -> json_digits ds n -> json_exponent (e :: 45 :: ds) (- n).

(** A number: minus, integer part, fraction, exponent. With [m] what
    the digits of the integer part and of the fraction write, the
    mathematical value is [m * 10 ^ (e - number of fraction digits)], and
    the number stands for its Number value. *)
Inductive json_number : list Z -> double -> Prop :=
| number_literal minus negative int i frac fd m exp e :
    (minus = [] /\ negative = false) \/ (minus = [45] /\ negative = true) ->
    json_digits int i ->
    int = [48] \/ hd 0 int <> 48 ->
    json_fraction frac fd ->
    json_digits (int ++ fd)%list m ->
    json_exponent exp e ->
    json_number (minus ++ int ++ frac ++ exp)%list
                (decimal_to_double negative m (e - Z.of_nat (length fd))).

(** A value, without white space around it; the elements of an array
    and the members of an object, with theirs. *)
Inductive json_value : list Z -> json -> Prop :=
| value_null : json_value (units "null") JNull
| value_true : json_value (units "true") (JBool true)
| value_false : json_value (units "false") (JBool false)
| value_number text d : json_number text d -> json_value text (JNumber d)
| value_string text s :
    json_characters text s -> json_value (34 :: text ++ [34])%list (JString s)
| value_empty_array w : json_ws w -> json_value (91 :: w ++ [93])%list (JArray [])
| value_array text vs :
    json_elements text vs -> json_value (91 :: text ++ [93])%list (JArray vs)
| value_empty_object w : json_ws w -> json_value (123 :: w ++ [125])%list (JObject [])
| value_object text ms :
    json_members text ms -> json_value (123 :: text ++ [125])%list (make_object ms)
with json_elements : list Z -> list json -> Prop :=
| elements_last w1 text v w2 :
    json_ws w1 -> json_value text v -> json_ws w2 ->
    json_elements (w1 ++ text ++ w2)%list [v]
| elements_more w1 text v w2 rest vs :
    json_ws w1 -> json_value text v -> json_ws w2 ->
    json_elements rest vs ->
    json_elements (w1 ++ text ++ w2 ++ 44 :: rest)%list (v :: vs)
with json_members : list Z -> list (list Z * json) -> Prop :=
| members_last w1 key k w2 w3 text v w4 :
    json_ws w1 -> json_characters key k -> json_ws w2 ->
    json_ws w3 -> json_value text v -> json_ws w4 ->
    json_members (w1 ++ 34 :: key ++ 34 :: w2 ++ 58 :: w3 ++ text ++ w4)%list [(k, v)]
| members_more w1 key k w2 w3 text v w4 rest ms :
    json_ws w1 -> json_characters key k -> json_ws w2 ->
    json_ws w3 -> json_value text v -> json_ws w4 ->
    json_members rest ms ->
    json_members (w1 ++ 34 :: key ++ 34 :: w2 ++ 58 :: w3 ++ text ++ w4 ++ 44 :: rest)%list
                 ((k, v) :: ms).

(** A JSON text: one value with white space around it. *)
Definition json_text (text : list Z) (v : json) : Prop :=
  exists w1 body w2,
    json_ws w1 /\ json_value body v /\ json_ws w2 /\ text = (w1 ++ body ++ w2)%list.

(** What may follow a run of digits, and what may follow a number,
    without being read as part of it. *)
Definition stops_digits (rest : list Z) : Prop :=
  match rest with
  | [] => True
  | c :: _ => is_digit c = false
  end.

Definition number_stops (rest : list Z) : Prop :=
  match rest with
  | [] => True
  | c :: _ => is_digit c = false /\ c <> 46 /\ c <> 101 /\ c <> 69
  end.

(** ** The generative service: data of [types.ts] and of the SDK *)

Inductive Difficulty : Type := Beginner | Intermediate | Advanced.
Inductive MediaType : Type := image | video.

Definition Difficulty_to_string (d : Difficulty) : string :=
  match d with
  | Beginner => "Beginner"
  | Intermediate => "Intermediate"
  | Advanced => "Advanced"
  end.

Definition Difficulty_eqb (a b : Difficulty) : bool :=
  match a, b with
  | Beginner, Beginner | Intermediate, Intermediate | Advanced, Advanced => true
  | _, _ => false
  end.

(** A value in a template literal: [undefined] prints as the word. *)
Definition template (o : option string) : string :=
  match o with
  | Some s => s
  | None => "undefined"
  end.

(** [a || b] on an optional string: [undefined] and the empty string are
    falsy. *)
Definition or_else (a : option string) (b : string) : string :=
  match a with
  | Some (String c s) => String c s
  | Some EmptyString | None => b
  end.

(** The parts of a response this code reads. Every field is optional in
    the SDK. *)
Record InlineData : Type := mkInlineData {
  data : option string;
  mimeType : option string
}.

Record Part : Type := mkPart {
  part_text : option string;
  inlineData : option InlineData
}.

Record Content : Type := mkContent { parts : option (list Part) }.

Record Candidate : Type := mkCandidate { content : option Content }.

Record GenerateContentResponse : Type := mkResponse {
  text : option string;
  candidates : option (list Candidate)
}.

Record Video : Type := mkVideo { uri : option string }.
Record GeneratedVideo : Type := mkGeneratedVideo { video_of : option Video }.
Record GenerateVideosResponse : Type := mkVideosResponse {
  generatedVideos : option (list GeneratedVideo)
}.

(** A long-running video operation, the job handle. *)
Record Operation : Type := mkOperation {
  op_name : string;
  done : option bool;
  response : option GenerateVideosResponse
}.

(** The schema sent with the evaluation request. *)
#[warnings="-register-all"] Inductive Schema : Type :=
| SchemaNumber
| SchemaString (description : option string)
| SchemaArray (items : Schema) (description : option string)
| SchemaObject (properties : list (string * Schema)) (required : list string).

Inductive Contents : Type :=
| ContentsText (s : string)
| ContentsParts (ps : list string)
| ContentsList (cs : list (list string)).

Inductive Config : Type :=
| NoConfig
| ImageConfig (aspectRatio : string)
| JsonConfig (responseMimeType : string) (responseSchema : Schema)
| SpeechConfig (responseModalities : list string) (voiceName : string).

Record GenerateContentParameters : Type := mkContentParams {
  model : string;
  contents : Contents;
  config : Config
}.

Record GenerateVideosParameters : Type := mkVideosParams {
  v_model : string;
  prompt : string;
  numberOfVideos : Z;
  resolution : string;
  v_aspectRatio : string
}.

(** [new GoogleGenAI({ apiKey })] *)
Record GoogleGenAI : Type := mkGoogleGenAI { apiKey : string }.

(** [process.env] *)
Record ProcessEnv : Type := mkProcessEnv { API_KEY : option string }.

Definition getAI (env : ProcessEnv) : GoogleGenAI :=
  {| apiKey := or_else (API_KEY env) EmptyString |}.

Record FetchResponse : Type := mkFetchResponse { fetched_from : string; body : string }.
Record Blob : Type := mkBlob { blob_bytes : string }.

(** ** What the code asks of the outside world *)

(** Each awaited promise and each call into the browser is an event; the
    answer to an awaited promise is how it settled. *)
Variant browserE : Type -> Type :=
| GenerateContent (ai : GoogleGenAI) (p : GenerateContentParameters)
  : browserE (Completion GenerateContentResponse)
| GenerateVideos (ai : GoogleGenAI) (p : GenerateVideosParameters)
  : browserE (Completion Operation)
| GetVideosOperation (ai : GoogleGenAI) (operation : Operation)
  : browserE (Completion Operation)
| SetTimeout (ms : Z) : browserE unit
| Fetch (url : string) : browserE (Completion FetchResponse)
| ResponseBlob (r : FetchResponse) : browserE (Completion Blob)
| CreateObjectURL (b : Blob) : browserE string
| RandomId : browserE string
| DateNow : browserE Z
| ConsoleError (e : JsError) : browserE unit
| Alert (message : string) : browserE unit
| RecognitionStop : browserE unit.

(** The same, first order: a call as it appears in a log, and a reply as
    it appears in a script of what the outside world answers. *)
Inductive call : Type :=
| CallGenerateContent (ai : GoogleGenAI) (p : GenerateContentParameters)
| CallGenerateVideos (ai : GoogleGenAI) (p : GenerateVideosParameters)
| CallGetVideosOperation (ai : GoogleGenAI) (operation : Operation)
| CallSetTimeout (ms : Z)
| CallFetch (url : string)
| CallResponseBlob (r : FetchResponse)
| CallCreateObjectURL (b : Blob)
| CallRandomId
| CallDateNow
| CallConsoleError (e : JsError)
| CallAlert (message : string)
| CallRecognitionStop.

Inductive reply : Type :=
| ReplyContent (c : Completion GenerateContentResponse)
| ReplyOperation (c : Completion Operation)
| ReplyFetch (c : Completion FetchResponse)
| ReplyBlob (c : Completion Blob)
| ReplyString (s : string)
| ReplyNumber (z : Z)
| ReplyVoid.

Definition call_of {X} (e : browserE X) : call :=
  match e with
  | GenerateContent ai p => CallGenerateContent ai p
  | GenerateVideos ai p => CallGenerateVideos ai p
  | GetVideosOperation ai op => CallGetVideosOperation ai op
  | SetTimeout ms => CallSetTimeout ms
  | Fetch url => CallFetch url
  | ResponseBlob r => CallResponseBlob r
  | CreateObjectURL b => CallCreateObjectURL b
  | RandomId => CallRandomId
  | DateNow => CallDateNow
  | ConsoleError e => CallConsoleError e
  | Alert m => CallAlert m
  | RecognitionStop => CallRecognitionStop
  end.

(** The answer a reply gives to an event, when it has the right shape. *)
Definition answer {X} (e : browserE X) (r : reply) : option X :=
  match e in browserE X return option X with
  | GenerateContent _ _ => match r with ReplyContent c => Some c | _ => None end
  | GenerateVideos _ _ => match r with ReplyOperation c => Some c | _ => None end
  | GetVideosOperation _ _ => match r with ReplyOperation c => Some c | _ => None end
  | SetTimeout _ => match r with ReplyVoid => Some tt | _ => None end
  | Fetch _ => match r with ReplyFetch c => Some c | _ => None end
  | ResponseBlob _ => match r with ReplyBlob c => Some c | _ => None end
  | CreateObjectURL _ => match r with ReplyString s => Some s | _ => None end
  | RandomId => match r with ReplyString s => Some s | _ => None end
  | DateNow => match r with ReplyNumber z => Some z | _ => None end
  | ConsoleError _ => match r with ReplyVoid => Some tt | _ => None end
  | Alert _ => match r with ReplyVoid => Some tt | _ => None end
  | RecognitionStop => match r with ReplyVoid => Some tt | _ => None end
  end.

(** How a run against a script ends. *)
Inductive Outcome (R : Type) : Type :=
| Returned (log : list call) (r : R) (unread : list reply)
  (** the program returned [r] after the calls of [log] *)
| Pending (log : list call) (next : call)
  (** the script is used up and the program is waiting on [next] *)
| Mismatch (log : list call) (next : call)
  (** the next reply of the script does not answer the call [next] *)
| OutOfFuel.
Arguments Returned {R} log r unread.
Arguments Pending {R} log next.
Arguments Mismatch {R} log next.
Arguments OutOfFuel {R}.

Definition logged {R} (c : call) (o : Outcome R) : Outcome R :=
  match o with
  | Returned log r unread => Returned (c :: log) r unread
  | Pending log next => Pending (c :: log) next
  | Mismatch log next => Mismatch (c :: log) next
  | OutOfFuel => OutOfFuel
  end.

(** Running a program against a script: each call takes the next reply.
    Fuel bounds the number of steps, silent ones included. *)
Fixpoint run {R} (fuel : nat) (t : itree browserE R) (script : list reply) : Outcome R :=
  match fuel with
  | O => OutOfFuel
  | S fuel' =>
      match observe t with
      | RetF r => Returned [] r script
      | TauF t' => run fuel' t' script
      | VisF e k =>
          match script with
          | [] => Pending [] (call_of e)
          | r :: script' =>
              match answer e r with
              | Some x => logged (call_of e) (run fuel' (k x) script')
              | None => Mismatch [] (call_of e)
              end
          end
      end
  end.

(** The program, run against the script, ends as [o]. *)
Definition exec {R} (t : itree browserE R) (script : list reply) (o : Outcome R) : Prop :=
  exists fuel, run fuel t script = o /\ o <> OutOfFuel.

(** An async function: its run settles with a value or a rejection. *)
Definition Async (R : Type) : Type := itree browserE (Completion R).

(** [const x = await e; k x]: a rejection leaves the function. *)
Definition await {X R} (e : browserE (Completion X)) (k : X -> Async R) : Async R :=
  ITree.bind (ITree.trigger e)
             (fun c => match c with
                       | Done x => k x
                       | Thrown err => Ret (Thrown err)
                       end).

(** [const x = await f(...); k x] for an async function of this model. *)
Definition await_call {X R} (t : Async X) (k : X -> Async R) : Async R :=
  ITree.bind t (fun c => match c with
                         | Done x => k x
                         | Thrown err => Ret (Thrown err)
                         end).

(** The outcome [o] of a continuation, after the calls of [log]. *)
Definition after {R} (log : list call) (o : Outcome R) : Outcome R :=
  fold_right logged o log.

(** ** [generateLessonPrompt] (gemini.ts, lines 7-70) *)

Definition businessAnalysisContext : string :=
  "Focus on professional Business Analyst activities: 
    1. Requirement Elicitation & Management (Backlog, User Stories, DEEP, MoSCoW, Traceability Matrix).
    2. Stakeholder Management (RACI Model, Onion Diagrams, Matrix).
    3. Process Flow Modeling (BPMN, Value Stream Mapping, Swim lanes).
    4. Solution & Evaluation Management (KPIs, Cost-Benefit Analysis, ROI, Feasibility, Acceptance Criteria).
    Describe a vivid workspace scene where a BA is presenting or analyzing one of these artifacts.".

Definition lessonPromptRequest (difficulty : Difficulty) (topic specificContext : string) : string :=
  "Generate a detailed, single-sentence visual prompt for an English learner at " ++ Difficulty_to_string difficulty ++ " level. 
               The topic is " ++ dq ++ topic ++ dq ++ ". " ++ specificContext ++ "
               Make it vivid, full of details, and suitable for a long description (up to 500 words). 
               Do not include any other text, just the prompt.".

Definition evaluationRequest (originalPrompt userDescription levelContext : string) : string :=
  "Evaluate the following English description of a visual prompt.
               Visual Context: " ++ originalPrompt ++ "
               User Description: " ++ userDescription ++ "
               Target Level: " ++ levelContext ++ "
               
               If the context is Business Analysis, check for correct usage of professional terms: 
               - Requirement Management: Backlog, Elicitation, Traceability, MoSCoW, Baseline.
               - Stakeholder Management: RACI, Onion Diagram, Power/Interest Grid, Engagement.
               - Process Flow: BPMN, Sequence Diagram, Value Stream, Handoffs.
               - Evaluation: KPIs, ROI, NPV, Feasibility, Cost-Benefit, Acceptance Criteria.
               
               The goal is to help the user reach a mastery of up to 500 words.
               
               Provide a " ++ dq ++ "Model Sample Description" ++ dq ++ " that is a polished, native-level version using rich Business Analysis terminology.
               
               Provide feedback strictly in JSON format.".

Definition fallbackPrompt : string :=
  "A professional office scene showing a business analyst working on project requirements.".

Record LessonMedia : Type := mkLessonMedia { url : string; promptText : string }.

(** [response.candidates?.[0]?.content?.parts] *)
Definition first_candidate_parts (r : GenerateContentResponse) : option (list Part) :=
  match candidates r with
  | Some (c :: _) =>
      match content c with
      | Some ct => parts ct
      | None => None
      end
  | Some [] | None => None
  end.

(** The loop of lines 42-47: the first part with inline data gives the
    URL and ends the loop. *)
Fixpoint firstInlineImage (ps : list Part) (imageUrl : string) : string :=
  match ps with
  | [] => imageUrl
  | part :: rest =>
      match inlineData part with
      | Some d => "data:image/png;base64," ++ template (data d)
      | None => firstInlineImage rest imageUrl
      end
  end.

(** [!operation.done] *)
Definition not_done (operation : Operation) : bool :=
  match done operation with
  | Some true => false
  | Some false | None => true
  end.

(** The loop of lines 60-63: while the operation is not done, wait ten
    seconds and ask again. A rejected status request leaves the
    function. *)
Definition pollUntilDone (ai : GoogleGenAI) (operation : Operation) : Async Operation :=
  ITree.iter
    (fun operation : Operation =>
       if not_done operation then
         ITree.bind (ITree.trigger (SetTimeout 10000)) (fun _ =>
         ITree.bind (ITree.trigger (GetVideosOperation ai operation)) (fun c =>
         match c with
         | Done operation' => Ret (inl operation')
         | Thrown err => Ret (inr (Thrown err))
         end))
       else Ret (inr (Done operation)))
    operation.

(** [operation.response?.generatedVideos?.[0]?.video?.uri] *)
Definition downloadLink (operation : Operation) : option string :=
  match response operation with
  | Some r =>
      match generatedVideos r with
      | Some (g :: _) =>
          match video_of g with
          | Some v => uri v
          | None => None
          end
      | Some [] | None => None
      end
  | None => None
  end.

(** The three requests of [generateLessonPrompt], as the object
    literals of lines 24-30, 35-39 and 50-58. *)
Definition descriptionRequest (topic : string) (difficulty : Difficulty)
  : GenerateContentParameters :=
  let specificContext :=
    if String.eqb topic "Business Analysis" then businessAnalysisContext
    else EmptyString in
  {| model := "gemini-3-flash-preview";
     contents := ContentsText (lessonPromptRequest difficulty topic specificContext);
     config := NoConfig |}.

Definition imageRequest (visualPrompt : string) : GenerateContentParameters :=
  {| model := "gemini-2.5-flash-image";
     contents := ContentsParts [visualPrompt];
     config := ImageConfig "16:9" |}.

Definition videoRequest (visualPrompt : string) : GenerateVideosParameters :=
  {| v_model := "veo-3.1-fast-generate-preview";
     prompt := visualPrompt;
     numberOfVideos := 1;
     resolution := "720p";
     v_aspectRatio := "16:9" |}.

Definition generateLessonPrompt (env : ProcessEnv)
           (topic : string) (difficulty : Difficulty) (type : MediaType)
  : Async LessonMedia :=
  let ai := getAI env in
  await (GenerateContent ai (descriptionRequest topic difficulty))
    (fun promptRequest =>
  let visualPrompt := or_else (text promptRequest) fallbackPrompt in
  match type with
  | image =>
      await (GenerateContent ai (imageRequest visualPrompt))
        (fun response =>
      let imageUrl :=
        firstInlineImage
          (match first_candidate_parts response with Some ps => ps | None => [] end)
          EmptyString in
      Ret (Done {| url := imageUrl; promptText := visualPrompt |}))
  | video =>
      await (GenerateVideos ai (videoRequest visualPrompt))
        (fun operation =>
      await_call (pollUntilDone ai operation)
        (fun operation =>
      let downloadLink := downloadLink operation in
      await (Fetch (template downloadLink ++ "&key=" ++ template (API_KEY env)))
        (fun response =>
      await (ResponseBlob response)
        (fun blob =>
      ITree.bind (ITree.trigger (CreateObjectURL blob))
        (fun objectUrl =>
      Ret (Done {| url := objectUrl; promptText := visualPrompt |}))))))
  end).

(** ** [evaluateDescription] (gemini.ts, lines 72-133) *)

Definition feedbackSchema : Schema :=
  SchemaObject
    [ ("score", SchemaNumber);
      ("corrections",
       SchemaArray
         (SchemaObject
            [ ("original", SchemaString None);
              ("correction", SchemaString None);
              ("explanation", SchemaString None) ]
            ["original"; "correction"; "explanation"])
         None);
      ("vocabularySuggestions",
       SchemaArray (SchemaString None)
         (Some "Provide at least 5 relevant Business Analysis or professional vocabulary words."));
      ("overallComment", SchemaString None);
      ("modelSampleDescription",
       SchemaString
         (Some "A high-quality, 150-300 word version of the description using advanced BA terminology.")) ]
    ["score"; "corrections"; "vocabularySuggestions"; "overallComment";
     "modelSampleDescription"].

(** What the function returns is whatever [JSON.parse] gives; the type
    [Feedback] of [types.ts] is not checked at run time. *)
Definition Feedback : Type := json.

(** The request of lines 83-130. *)
Definition evaluationParameters (userDescription originalPrompt : string)
           (difficulty : Difficulty) : GenerateContentParameters :=
  let levelContext :=
    if Difficulty_eqb difficulty Intermediate
    then "B1 level (CEFR). Focus on phrasal verbs and descriptive adjectives."
    else Difficulty_to_string difficulty ++ " level." in
  {| model := "gemini-3-flash-preview";
     contents :=
       ContentsText (evaluationRequest originalPrompt userDescription levelContext);
     config := JsonConfig "application/json" feedbackSchema |}.

Definition evaluateDescription (env : ProcessEnv)
           (userDescription originalPrompt : string) (difficulty : Difficulty)
  : Async Feedback :=
  let ai := getAI env in
  await (GenerateContent ai
           (evaluationParameters userDescription originalPrompt difficulty))
    (fun response =>
  Ret (JSON_parse (units (or_else (text response) "{}")))).

(** ** [generateSpeech] (gemini.ts, lines 135-153) *)

Definition NoAudioData : JsError := mkError "Error" "No audio data received".

(** [response.candidates?.[0]?.content?.parts?.[0]?.inlineData?.data] *)
Definition firstPartInlineData (r : GenerateContentResponse) : option string :=
  match first_candidate_parts r with
  | Some (part :: _) =>
      match inlineData part with
      | Some d => data d
      | None => None
      end
  | Some [] | None => None
  end.

(** The request of lines 137-148. *)
Definition speechParameters (text : string) : GenerateContentParameters :=
  {| model := "gemini-2.5-flash-preview-tts";
     contents := ContentsList [["Say professionally: " ++ text]];
     config := SpeechConfig ["AUDIO"] "Kore" |}.

Definition generateSpeech (env : ProcessEnv) (text : string) : Async string :=
  let ai := getAI env in
  await (GenerateContent ai (speechParameters text))
    (fun response =>
  let base64Audio := firstPartInlineData response in
  match base64Audio with
  | Some (String c s) => Ret (Done (String c s))
  | Some EmptyString | None => Ret (Thrown NoAudioData)
  end).

(** ** Scenarios for the poller *)

(** The statuses the poller sees, in order: [first], returned by the
    submission, then [rest], the answers to the status requests. The
    script of a status request is the delay and the answer. *)
Definition pollScript (rest : list Operation) : list reply :=
  flat_map (fun operation => [ReplyVoid; ReplyOperation (Done operation)]) rest.

(** The calls the poller makes through these statuses: a ten-second
    delay, then a status request on the operation it holds. *)
Fixpoint pollLog (ai : GoogleGenAI) (first : Operation) (rest : list Operation)
  : list call :=
  match rest with
  | [] => []
  | next :: rest' =>
      CallSetTimeout 10000 :: CallGetVideosOperation ai first :: pollLog ai next rest'
  end.

(** Every status but the last reads not done, and the last reads done. *)
Fixpoint pending_then_done (first : Operation) (rest : list Operation) : Prop :=
  match rest with
  | [] => not_done first = false
  | next :: rest' => not_done first = true /\ pending_then_done next rest'
  end.

(** Every status reads not done. *)
Definition all_pending (first : Operation) (rest : list Operation) : Prop :=
  Forall (fun operation => not_done operation = true) (first :: rest).

(** ** The submit handler of [App.tsx] (lines 195-220) *)

Record LessonPrompt : Type := mkLessonPrompt {
  lp_id : string;
  lp_type : MediaType;
  lp_url : string;
  lp_description : string;
  lp_topic : string;
  lp_difficulty : Difficulty
}.

Record HistoryItem : Type := mkHistoryItem {
  item_id : string;
  item_prompt : LessonPrompt;
  item_userDescription : string;
  item_feedback : Feedback;
  item_timestamp : Z
}.

(** The React state the handler reads and writes, and whether
    [recognitionRef.current] is set. *)
Record AppState : Type := mkAppState {
  st_difficulty : Difficulty;
  st_isLoading : bool;
  st_statusMessage : string;
  st_currentPrompt : option LessonPrompt;
  st_userText : string;
  st_feedback : option Feedback;
  st_history : list HistoryItem;
  st_isRecording : bool;
  st_hasRecognition : bool
}.

Definition setIsLoading (b : bool) (st : AppState) : AppState :=
  {| st_difficulty := st_difficulty st; st_isLoading := b;
     st_statusMessage := st_statusMessage st; st_currentPrompt := st_currentPrompt st;
     st_userText := st_userText st; st_feedback := st_feedback st;
     st_history := st_history st; st_isRecording := st_isRecording st;
     st_hasRecognition := st_hasRecognition st |}.

Definition setStatusMessage (m : string) (st : AppState) : AppState :=
  {| st_difficulty := st_difficulty st; st_isLoading := st_isLoading st;
     st_statusMessage := m; st_currentPrompt := st_currentPrompt st;
     st_userText := st_userText st; st_feedback := st_feedback st;
     st_history := st_history st; st_isRecording := st_isRecording st;
     st_hasRecognition := st_hasRecognition st |}.

Definition setFeedback (f : option Feedback) (st : AppState) : AppState :=
  {| st_difficulty := st_difficulty st; st_isLoading := st_isLoading st;
     st_statusMessage := st_statusMessage st; st_currentPrompt := st_currentPrompt st;
     st_userText := st_userText st; st_feedback := f;
     st_history := st_history st; st_isRecording := st_isRecording st;
     st_hasRecognition := st_hasRecognition st |}.

(** [setHistory(update)] with an updater function. *)
Definition setHistory (update : list HistoryItem -> list HistoryItem) (st : AppState)
  : AppState :=
  {| st_difficulty := st_difficulty st; st_isLoading := st_isLoading st;
     st_statusMessage := st_statusMessage st; st_currentPrompt := st_currentPrompt st;
     st_userText := st_userText st; st_feedback := st_feedback st;
     st_history := update (st_history st); st_isRecording := st_isRecording st;
     st_hasRecognition := st_hasRecognition st |}.

(** A value handed to [setFeedback]: the state is of type
    [Feedback | null], and a parsed [null] is the null of the state. *)
Definition nullable (v : json) : option Feedback :=
  match v with
  | JNull => None
  | _ => Some v
  end.

(** White space for [String.prototype.trim], among code units below
    256. *)
Definition is_js_whitespace (c : ascii) : bool :=
  let n := charCode c in
  ((9 <=? n) && (n <=? 13)) || (n =? 32) || (n =? 160).

(** [!userText.trim()]: nothing but white space. *)
Definition trims_to_empty (s : string) : bool := forallb is_js_whitespace (chars s).

(** The values [userText], [currentPrompt], [difficulty] and
    [isRecording] are those of the render the handler was created in;
    the setters act on the state as it is when they run. *)
Definition handleSubmitDescription (env : ProcessEnv) (st : AppState)
  : itree browserE AppState :=
  let userText := st_userText st in
  let difficulty := st_difficulty st in
  match st_currentPrompt st with
  | None => Ret st
  | Some currentPrompt =>
      if trims_to_empty userText then Ret st else
      ITree.bind
        (if st_isRecording st && st_hasRecognition st
         then ITree.trigger RecognitionStop else Ret tt)
        (fun _ =>
      let st := setIsLoading true st in
      let st :=
        setStatusMessage
          ("Analyzing your " ++ Difficulty_to_string difficulty ++ " English...") st in
      ITree.bind
        (evaluateDescription env userText (lp_description currentPrompt) difficulty)
        (fun settled =>
      ITree.bind
        (match settled with
         | Done result =>
             let st := setFeedback (nullable result) st in
             ITree.bind (ITree.trigger RandomId) (fun id =>
             ITree.bind (ITree.trigger DateNow) (fun now =>
             let newItem :=
               {| item_id := id; item_prompt := currentPrompt;
                  item_userDescription := userText; item_feedback := result;
                  item_timestamp := now |} in
             Ret (setHistory (fun prev => newItem :: prev) st)))
         | Thrown error =>
             ITree.bind (ITree.trigger (ConsoleError error)) (fun _ =>
             ITree.bind (ITree.trigger (Alert "Evaluation failed. Please try again."))
               (fun _ => Ret st))
         end)
        (fun st => Ret (setIsLoading false st))))
  end.

(** [feedback.score], when it is a number. *)
Definition score (f : Feedback) : option double :=
  match property f "score" with
  | Some (JNumber d) => Some d
  | _ => None
  end.

(** The bound the data model asks of a score. *)
Definition score_in_range (f : Feedback) : Prop :=
  exists d q,
    score f = Some d /\ double_value d = Some q /\ (0 <= q)%Q /\ (q <= 100)%Q.

(** What the handler leaves of the state. *)
Definition analyzingState (st : AppState) : AppState :=
  setStatusMessage
    ("Analyzing your " ++ Difficulty_to_string (st_difficulty st) ++ " English...")
    (setIsLoading true st).

Definition submittedState (st : AppState) (newItem : HistoryItem) : AppState :=
  setIsLoading false
    (setHistory (fun prev => newItem :: prev)
       (setFeedback (nullable (item_feedback newItem)) (analyzingState st))).

Definition failedState (st : AppState) : AppState :=
  setIsLoading false (analyzingState st).

(** The reply and the call for stopping the recognition, when the
    handler does that. *)
Definition recognitionReplies (st : AppState) : list reply :=
  if st_isRecording st && st_hasRecognition st then [ReplyVoid] else [].

Definition recognitionCalls (st : AppState) : list call :=
  if st_isRecording st && st_hasRecognition st then [CallRecognitionStop] else [].

(** ** Sample data *)

Definition sampleEnv : ProcessEnv := {| API_KEY := Some "KEY" |}.

Definition noText : GenerateContentResponse := {| text := None; candidates := None |}.

Definition textResponse (t : string) : GenerateContentResponse :=
  {| text := Some t; candidates := None |}.

Definition partsResponse (ps : list Part) : GenerateContentResponse :=
  {| text := None;
     candidates := Some [ {| content := Some {| parts := Some ps |} |} ] |}.

Definition textPart (t : string) : Part :=
  {| part_text := Some t; inlineData := None |}.

Definition inlinePart (payload mime : string) : Part :=
  {| part_text := None;
     inlineData := Some {| data := Some payload; mimeType := Some mime |} |}.

Definition pendingOperation (name : string) : Operation :=
  {| op_name := name; done := None; response := None |}.

Definition finishedOperation (name link : string) : Operation :=
  {| op_name := name; done := Some true;
     response :=
       Some {| generatedVideos := Some [ {| video_of := Some {| uri := Some link |} |} ] |} |}.

Definition samplePrompt : LessonPrompt :=
  {| lp_id := "k3j9x0q2a"; lp_type := image; lp_url := "data:image/png;base64,QUJD";
     lp_description := "A quiet office."; lp_topic := "Business Analysis";
     lp_difficulty := Intermediate |}.

Definition sampleState : AppState :=
  {| st_difficulty := Intermediate; st_isLoading := false;
     st_statusMessage := EmptyString; st_currentPrompt := Some samplePrompt;
     st_userText := "An analyst presents a backlog."; st_feedback := None;
     st_history := []; st_isRecording := false; st_hasRecognition := true |}.

(** A text with every single quote turned into a double quote, to write
    JSON texts in. *)
Definition dquoted (s : string) : string :=
  string_of_list_ascii
    (map (fun c => if Ascii.eqb c "'"%char then dquote else c) (chars s)).

(** The JSON text of an object with the single member [score]. *)
Definition scoreOnly (digits : string) : string :=
  "{" ++ dq ++ "score" ++ dq ++ ":" ++ digits ++ "}".

(** The JSON text of a complete feedback with the score [digits]. *)
Definition feedbackText (digits : string) : string :=
  dquoted ("{ 'score': " ++ digits ++ ",
  'corrections': [
    { 'original': 'a backlog', 'correction': 'the backlog',
      'explanation': 'Use \u0022the\u0022 for a known item.' } ],
  'vocabularySuggestions': ['elicitation', 'traceability'],
  'overallComment': 'Good \u2014 keep going',
  'modelSampleDescription': 'An analyst grooms the backlog.' }").

(** The feedback that text stands for. *)
Definition feedbackValue (score : double) : json :=
  JObject
    [ (units "score", JNumber score);
      (units "corrections",
       JArray
         [ JObject
             [ (units "original", JString (units "a backlog"));
               (units "correction", JString (units "the backlog"));
               (units "explanation",
                JString (units "Use " ++ 34 :: units "the" ++ 34 :: units " for a known item.")%list) ] ]);
      (units "vocabularySuggestions",
       JArray [JString (units "elicitation"); JString (units "traceability")]);
      (units "overallComment",
       JString (units "Good " ++ 8212 :: units " keep going")%list);
      (units "modelSampleDescription", JString (units "An analyst grooms the backlog.")) ].

(** ** More of [App.tsx]: the word count, dictation, the history panel *)

Definition setCurrentPrompt (p : option LessonPrompt) (st : AppState) : AppState :=
  {| st_difficulty := st_difficulty st; st_isLoading := st_isLoading st;
     st_statusMessage := st_statusMessage st; st_currentPrompt := p;
     st_userText := st_userText st; st_feedback := st_feedback st;
     st_history := st_history st; st_isRecording := st_isRecording st;
     st_hasRecognition := st_hasRecognition st |}.

(** [setUserText(update)] with an updater function. *)
Definition setUserText (update : string -> string) (st : AppState) : AppState :=
  {| st_difficulty := st_difficulty st; st_isLoading := st_isLoading st;
     st_statusMessage := st_statusMessage st; st_currentPrompt := st_currentPrompt st;
     st_userText := update (st_userText st); st_feedback := st_feedback st;
     st_history := st_history st; st_isRecording := st_isRecording st;
     st_hasRecognition := st_hasRecognition st |}.

(** [handleSelectHistoryItem] (App.tsx, lines 245-249) *)
Definition handleSelectHistoryItem (item : HistoryItem) (st : AppState) : AppState :=
  let st := setCurrentPrompt (Some (item_prompt item)) st in
  let st := setUserText (fun _ => item_userDescription item) st in
  setFeedback (nullable (item_feedback item)) st.

(** [s.trim()]: white space removed at both ends. *)
Fixpoint drop_whitespace (s : list ascii) : list ascii :=
  match s with
  | c :: r => if is_js_whitespace c then drop_whitespace r else s
  | [] => []
  end.

Definition trim (s : string) : string :=
  string_of_list_ascii (rev (drop_whitespace (rev (drop_whitespace (chars s))))).

(** [s.split(/\s+/)]: the pieces between the maximal runs of white
    space; a run at either end leaves an empty piece there. [cur] is the
    piece being read, backwards, and [in_run] tells that the last
    character was white space. *)
Fixpoint split_whitespace (s : list ascii) (cur : list ascii) (in_run : bool)
  : list string :=
  match s with
  | [] => [string_of_list_ascii (rev cur)]
  | c :: r =>
      if is_js_whitespace c then
        if in_run then split_whitespace r cur true
        else string_of_list_ascii (rev cur) :: split_whitespace r [] true
      else split_whitespace r (c :: cur) false
  end.

(** [wordCount] (App.tsx, line 89) *)
Definition wordCount (userText : string) : Z :=
  if String.eqb (trim userText) EmptyString then 0
  else Zlength' (split_whitespace (chars (trim userText)) [] false).

(** The number of words of a text: of the places where a character that
    is not white space starts the text or follows white space. *)
Fixpoint count_words (after_space : bool) (s : list ascii) : Z :=
  match s with
  | [] => 0
  | c :: r =>
      if is_js_whitespace c then count_words true r
      else (if after_space then 1 else 0) + count_words false r
  end.

(** One result of the speech recognition: [results[i].isFinal] and
    [results[i][0].transcript]. *)
Record SpeechResult : Type := mkSpeechResult {
  isFinal : bool;
  transcript : string
}.

Record SpeechEvent : Type := mkSpeechEvent {
  resultIndex : nat;
  results : list SpeechResult
}.

(** The loop of lines 114-120: the transcripts from [resultIndex] on,
    interim and final apart. *)
Fixpoint collectTranscripts (rs : list SpeechResult) (interimTranscript finalTranscript : string)
  : string * string :=
  match rs with
  | [] => (interimTranscript, finalTranscript)
  | r :: rest =>
      if isFinal r
      then collectTranscripts rest interimTranscript (finalTranscript ++ transcript r)
      else collectTranscripts rest (interimTranscript ++ transcript r) finalTranscript
  end.

(** [prev.endsWith(' ')] *)
Definition endsWithSpace (s : string) : bool :=
  match rev (chars s) with
  | c :: _ => Ascii.eqb c " "%char
  | [] => false
  end.

(** [recognition.onresult] (App.tsx, lines 111-124) *)
Definition onresult (event : SpeechEvent) (st : AppState) : AppState :=
  let '(interimTranscript, finalTranscript) :=
    collectTranscripts (skipn (resultIndex event) (results event))
                       EmptyString EmptyString in
  match finalTranscript with
  | EmptyString => st
  | String _ _ =>
      setUserText
        (fun prev =>
           prev ++ (if (0 <? Z.of_nat (String.length prev)) && negb (endsWithSpace prev)
                    then " " else EmptyString)
                ++ finalTranscript)
        st
  end.

(** Reading [s] from inside a word ([in_word]) or not, one ends inside
    a word. *)
Fixpoint ends_in_word (in_word : bool) (s : list ascii) : bool :=
  match s with
  | [] => in_word
  | c :: r => ends_in_word (negb (is_js_whitespace c)) r
  end.

(** ** The other handlers of [App.tsx] *)

(** What these handlers ask of the browser besides the events of the
    service: the key dialog of [window.aistudio], the speech recognition,
    the audio output, and [console.error] with a label. *)
Variant handlerE : Type -> Type :=
| HasSelectedApiKey : handlerE (Completion bool)
| OpenSelectKey : handlerE (Completion unit)
| RecognitionStart : handlerE (Completion unit)
| NewAudioContext (sampleRate : Z) : handlerE (Completion AudioContext)
| StartSource (ctx : AudioContext) (audioBuffer : AudioBuffer) : handlerE unit
| ConsoleErrorLabelled (label : string) (e : JsError) : handlerE unit
| ConsoleErrorCode (label : string) (code : string) : handlerE unit.

Inductive handlerCall : Type :=
| CallHasSelectedApiKey
| CallOpenSelectKey
| CallRecognitionStart
| CallNewAudioContext (sampleRate : Z)
| CallStartSource (ctx : AudioContext) (audioBuffer : AudioBuffer)
| CallConsoleErrorLabelled (label : string) (e : JsError)
| CallConsoleErrorCode (label : string) (code : string).

Inductive handlerReply : Type :=
| ReplySelected (c : Completion bool)
| ReplySettled (c : Completion unit)
| ReplyContext (c : Completion AudioContext)
| ReplyNothing.

Definition handlerCall_of {X} (e : handlerE X) : handlerCall :=
  match e with
  | HasSelectedApiKey => CallHasSelectedApiKey
  | OpenSelectKey => CallOpenSelectKey
  | RecognitionStart => CallRecognitionStart
  | NewAudioContext sampleRate => CallNewAudioContext sampleRate
  | StartSource ctx audioBuffer => CallStartSource ctx audioBuffer
  | ConsoleErrorLabelled label e => CallConsoleErrorLabelled label e
  | ConsoleErrorCode label code => CallConsoleErrorCode label code
  end.

Definition handlerAnswer {X} (e : handlerE X) (r : handlerReply) : option X :=
  match e in handlerE X return option X with
  | HasSelectedApiKey => match r with ReplySelected c => Some c | _ => None end
  | OpenSelectKey => match r with ReplySettled c => Some c | _ => None end
  | RecognitionStart => match r with ReplySettled c => Some c | _ => None end
  | NewAudioContext _ => match r with ReplyContext c => Some c | _ => None end
  | StartSource _ _ => match r with ReplyNothing => Some tt | _ => None end
  | ConsoleErrorLabelled _ _ => match r with ReplyNothing => Some tt | _ => None end
  | ConsoleErrorCode _ _ => match r with ReplyNothing => Some tt | _ => None end
  end.

(** The events of a handler: those of the service, or these. *)
Definition appE : Type -> Type := browserE +' handlerE.

Definition appCall : Type := (call + handlerCall)%type.
Definition appReply : Type := (reply + handlerReply)%type.

Definition appCall_of {X} (e : appE X) : appCall :=
  match e with
  | inl1 e => inl (call_of e)
  | inr1 e => inr (handlerCall_of e)
  end.

Definition appAnswer {X} (e : appE X) (r : appReply) : option X :=
  match e, r with
  | inl1 e, inl r => answer e r
  | inr1 e, inr r => handlerAnswer e r
  | _, _ => None
  end.

(** How the run of a handler against a script ends. *)
Inductive HandlerOutcome (R : Type) : Type :=
| Finished (log : list appCall) (r : R) (unread : list appReply)
| Waiting (log : list appCall) (next : appCall)
| Unanswered (log : list appCall) (next : appCall)
| NoFuel.
Arguments Finished {R} log r unread.
Arguments Waiting {R} log next.
Arguments Unanswered {R} log next.
Arguments NoFuel {R}.

Definition noted {R} (c : appCall) (o : HandlerOutcome R) : HandlerOutcome R :=
  match o with
  | Finished log r unread => Finished (c :: log) r unread
  | Waiting log next => Waiting (c :: log) next
  | Unanswered log next => Unanswered (c :: log) next
  | NoFuel => NoFuel
  end.

Fixpoint runHandler {R} (fuel : nat) (t : itree appE R) (script : list appReply)
  : HandlerOutcome R :=
  match fuel with
  | O => NoFuel
  | S fuel' =>
      match observe t with
      | RetF r => Finished [] r script
      | TauF t' => runHandler fuel' t' script
      | VisF e k =>
          match script with
          | [] => Waiting [] (appCall_of e)
          | r :: script' =>
              match appAnswer e r with
              | Some x => noted (appCall_of e) (runHandler fuel' (k x) script')
              | None => Unanswered [] (appCall_of e)
              end
          end
      end
  end.

Definition execHandler {R} (t : itree appE R) (script : list appReply)
           (o : HandlerOutcome R) : Prop :=
  exists fuel, runHandler fuel t script = o /\ o <> NoFuel.

(** A function of the service, called from a handler. *)
Definition service {R} (t : itree browserE R) : itree appE R :=
  translate (fun X (e : browserE X) => inl1 e) t.

Definition browser {X} (e : browserE X) : itree appE X := ITree.trigger (inl1 e : appE X).
Definition handler {X} (e : handlerE X) : itree appE X := ITree.trigger (inr1 e : appE X).

(** The state of the component: the part the submit handler works on,
    and the rest. [ss_aistudio] tells whether [window.aistudio] is
    there. *)
Record Session : Type := mkSession {
  ss_app : AppState;
  ss_topic : string;
  ss_mediaType : MediaType;
  ss_hasApiKey : bool;
  ss_isPlayingAudio : bool;
  ss_audioContext : option AudioContext;
  ss_aistudio : bool
}.

Definition onApp (f : AppState -> AppState) (ss : Session) : Session :=
  {| ss_app := f (ss_app ss); ss_topic := ss_topic ss; ss_mediaType := ss_mediaType ss;
     ss_hasApiKey := ss_hasApiKey ss; ss_isPlayingAudio := ss_isPlayingAudio ss;
     ss_audioContext := ss_audioContext ss; ss_aistudio := ss_aistudio ss |}.

Definition setHasApiKey (b : bool) (ss : Session) : Session :=
  {| ss_app := ss_app ss; ss_topic := ss_topic ss; ss_mediaType := ss_mediaType ss;
     ss_hasApiKey := b; ss_isPlayingAudio := ss_isPlayingAudio ss;
     ss_audioContext := ss_audioContext ss; ss_aistudio := ss_aistudio ss |}.

Definition setIsPlayingAudio (b : bool) (ss : Session) : Session :=
  {| ss_app := ss_app ss; ss_topic := ss_topic ss; ss_mediaType := ss_mediaType ss;
     ss_hasApiKey := ss_hasApiKey ss; ss_isPlayingAudio := b;
     ss_audioContext := ss_audioContext ss; ss_aistudio := ss_aistudio ss |}.

(** [audioContextRef.current = ctx] *)
Definition setAudioContext (ctx : AudioContext) (ss : Session) : Session :=
  {| ss_app := ss_app ss; ss_topic := ss_topic ss; ss_mediaType := ss_mediaType ss;
     ss_hasApiKey := ss_hasApiKey ss; ss_isPlayingAudio := ss_isPlayingAudio ss;
     ss_audioContext := Some ctx; ss_aistudio := ss_aistudio ss |}.

Definition setIsRecording (b : bool) (st : AppState) : AppState :=
  {| st_difficulty := st_difficulty st; st_isLoading := st_isLoading st;
     st_statusMessage := st_statusMessage st; st_currentPrompt := st_currentPrompt st;
     st_userText := st_userText st; st_feedback := st_feedback st;
     st_history := st_history st; st_isRecording := b;
     st_hasRecognition := st_hasRecognition st |}.

(** [checkKey] of the first effect (App.tsx, lines 93-101). A rejection
    of the promise is handled nowhere. *)
Definition checkKey (ss : Session) : itree appE Session :=
  if ss_aistudio ss then
    ITree.bind (handler HasSelectedApiKey) (fun settled =>
    match settled with
    | Done selected => Ret (setHasApiKey selected ss)
    | Thrown _ => Ret ss
    end)
  else Ret ss.

(** [handleSelectKey] (App.tsx, lines 139-144). None of its callers
    handles a rejection of the dialog. *)
Definition handleSelectKey (ss : Session) : itree appE Session :=
  if ss_aistudio ss then
    ITree.bind (handler OpenSelectKey) (fun settled =>
    match settled with
    | Done _ => Ret (setHasApiKey true ss)
    | Thrown _ => Ret ss
    end)
  else Ret ss.

(** [recognition.onerror] and [recognition.onend] (lines 126-133);
    [event.error] is the code of the error, a string. *)
Definition onerror (error : string) (ss : Session) : itree appE Session :=
  ITree.bind (handler (ConsoleErrorCode "Speech recognition error" error)) (fun _ =>
  Ret (onApp (setIsRecording false) ss)).

Definition onend (ss : Session) : Session := onApp (setIsRecording false) ss.

(** [toggleRecording] (App.tsx, lines 146-158). An exception of
    [start()] is caught nowhere: the handler ends there, and the state
    set before the call stays. *)
Definition toggleRecording (ss : Session) : itree appE Session :=
  if negb (st_hasRecognition (ss_app ss)) then
    ITree.bind (browser (Alert "Speech recognition is not supported in your browser."))
      (fun _ => Ret ss)
  else if st_isRecording (ss_app ss) then
    ITree.bind (browser RecognitionStop) (fun _ => Ret ss)
  else
    let ss := onApp (setIsRecording true) ss in
    ITree.bind (handler RecognitionStart) (fun _ => Ret ss).

(** [s.includes(sub)] *)
Fixpoint includes (s sub : string) : bool :=
  String.prefix sub s
  || match s with
     | EmptyString => false
     | String _ r => includes r sub
     end.

Definition startMessage (mediaType : MediaType) : string :=
  match mediaType with
  | image => "Crafting a vivid professional scenario..."
  | video => "Generating educational video..."
  end.

Definition is_video (mediaType : MediaType) : bool :=
  match mediaType with
  | video => true
  | image => false
  end.

(** [handleStartLesson] (App.tsx, lines 160-193). [topic], [difficulty],
    [mediaType] and [hasApiKey] are those of the render the handler was
    created in. *)
Definition handleStartLesson (env : ProcessEnv) (ss : Session) : itree appE Session :=
  let topic := ss_topic ss in
  let difficulty := st_difficulty (ss_app ss) in
  let mediaType := ss_mediaType ss in
  if is_video mediaType && negb (ss_hasApiKey ss) then handleSelectKey ss
  else
    let ss := onApp (setIsLoading true) ss in
    let ss := onApp (setFeedback None) ss in
    let ss := onApp (setUserText (fun _ => EmptyString)) ss in
    let ss := onApp (setStatusMessage (startMessage mediaType)) ss in
    ITree.bind (service (generateLessonPrompt env topic difficulty mediaType))
      (fun settled =>
    ITree.bind
      (match settled with
       | Done media =>
           ITree.bind (browser RandomId) (fun id =>
           let newPrompt :=
             {| lp_id := id; lp_type := mediaType; lp_url := url media;
                lp_description := promptText media; lp_topic := topic;
                lp_difficulty := difficulty |} in
           Ret (onApp (setCurrentPrompt (Some newPrompt)) ss))
       | Thrown error =>
           ITree.bind (browser (ConsoleError error)) (fun _ =>
           if includes (err_message error) "Requested entity was not found" then
             let ss := setHasApiKey false ss in
             ITree.bind (browser (Alert "Please re-select your API key to continue."))
               (fun _ => Ret ss)
           else
             ITree.bind
               (browser
                  (Alert "Failed to generate lesson. Please check your API key permissions."))
               (fun _ => Ret ss))
       end)
      (fun ss => Ret (onApp (setIsLoading false) ss))).

(** [source.onended] of [handlePlayAudio] *)
Definition onended (ss : Session) : Session := setIsPlayingAudio false ss.

(** The [catch] of [handlePlayAudio]. *)
Definition playbackFailed (error : JsError) (ss : Session) : itree appE Session :=
  ITree.bind (handler (ConsoleErrorLabelled "Audio playback failed" error)) (fun _ =>
  Ret (setIsPlayingAudio false ss)).

(** [handlePlayAudio] (App.tsx, lines 222-243). The context is made on
    the first use and kept in [audioContextRef]. *)
Definition handlePlayAudio (env : ProcessEnv) (text : string) (ss : Session)
  : itree appE Session :=
  if ss_isPlayingAudio ss then Ret ss else
  let ss := setIsPlayingAudio true ss in
  ITree.bind
    (match ss_audioContext ss with
     | Some ctx => Ret (Done ctx, ss)
     | None =>
         ITree.bind (handler (NewAudioContext 24000)) (fun made =>
         match made with
         | Done ctx => Ret (Done ctx, setAudioContext ctx ss)
         | Thrown error => Ret (Thrown error, ss)
         end)
     end)
    (fun '(made, ss) =>
  match made with
  | Thrown error => playbackFailed error ss
  | Done ctx =>
      ITree.bind (service (generateSpeech env text)) (fun settled =>
      match (let! base64Audio := settled in
             let! bytes := decodeBase64 base64Audio in
             decodeAudioData bytes ctx 24000 1) with
      | Done audioBuffer =>
          ITree.bind (handler (StartSource ctx audioBuffer)) (fun _ => Ret ss)
      | Thrown error => playbackFailed error ss
      end)
  end).

(** The reply and the call for making the audio context, when
    [audioContextRef] is empty, and the context in use after that. *)
Definition contextReplies (ss : Session) (made : AudioContext) : list appReply :=
  match ss_audioContext ss with
  | Some _ => []
  | None => [inr (ReplyContext (Done made))]
  end.

Definition contextCalls (ss : Session) : list appCall :=
  match ss_audioContext ss with
  | Some _ => []
  | None => [inr (CallNewAudioContext 24000)]
  end.

Definition contextOf (ss : Session) (made : AudioContext) : AudioContext :=
  match ss_audioContext ss with
  | Some ctx => ctx
  | None => made
  end.

(** What [generateSpeech] settles with, given how its request settled. *)
Definition speechOf (settled : Completion GenerateContentResponse) : Completion string :=
  let! response := settled in
  match firstPartInlineData response with
  | Some (String c s) => Done (String c s)
  | Some EmptyString | None => Thrown NoAudioData
  end.

(** The audio buffer [handlePlayAudio] gets from that, or the error. *)
Definition decodedSpeech (ctx : AudioContext) (settled : Completion GenerateContentResponse)
  : Completion AudioBuffer :=
  let! base64Audio := speechOf settled in
  let! bytes := decodeBase64 base64Audio in
  decodeAudioData bytes ctx 24000 1.

(** The alert of a failed start. *)
Definition startFailureAlert (error : JsError) : string :=
  if includes (err_message error) "Requested entity was not found"
  then "Please re-select your API key to continue."
  else "Failed to generate lesson. Please check your API key permissions.".

(** A response of the speech model with [payload] as its audio. *)
Definition speechResponse (payload : string) : GenerateContentResponse :=
  partsResponse [inlinePart payload "audio/pcm"].

(** A session to run the handlers on. *)
Definition sampleSession : Session :=
  {| ss_app := sampleState; ss_topic := "Business Analysis"; ss_mediaType := image;
     ss_hasApiKey := true; ss_isPlayingAudio := false; ss_audioContext := None;
     ss_aistudio := true |}.

(** * Properties *)

(** ** Lists and loops *)

Lemma list_set_length {A} (l : list A) n v : length (list_set l n v) = length l.
Proof.
  revert n; induction l as [|x l IH]; intros [|n]; simpl; auto.
Qed.

Lemma nth_error_list_set_eq {A} (l : list A) n v :
  (n < length l)%nat -> nth_error (list_set l n v) n = Some v.
Proof.
  revert n; induction l as [|x l IH]; intros [|n] H; simpl in *; try lia; auto.
  apply IH; lia.
Qed.

Lemma nth_error_list_set_neq {A} (l : list A) n m v :
  n <> m -> nth_error (list_set l n v) m = nth_error l m.
Proof.
  revert n m; induction l as [|x l IH]; intros [|n] [|m] H; simpl; auto; try congruence.
Qed.

Lemma Zget_of_nat {A} (l : list A) n : Zget l (Z.of_nat n) = nth_error l n.
Proof.
  unfold Zget. destruct (Z.ltb_spec (Z.of_nat n) 0); [lia|].
  now rewrite Nat2Z.id.
Qed.

Lemma Zset_of_nat {A} (l : list A) n v : Zset l (Z.of_nat n) v = list_set l n v.
Proof.
  unfold Zset. destruct (Z.ltb_spec (Z.of_nat n) 0); [lia|].
  now rewrite Nat2Z.id.
Qed.

Lemma Zget_nth_error {A} (l : list A) i :
  0 <= i -> Zget l i = nth_error l (Z.to_nat i).
Proof.
  intros H. unfold Zget. destruct (Z.ltb_spec i 0); [lia|reflexivity].
Qed.

(** A loop that rewrites element [i] at step [i]: after [K] steps the
    first [K] elements are rewritten, each from its original value, and
    the others are untouched. *)
Lemma fold_update_spec {A} (h : Z -> option A -> A) (K : nat) (l : list A) :
  let r := fold_left (fun acc i => Zset acc i (h i (Zget acc i)))
                     (map Z.of_nat (seq 0 K)) l in
  length r = length l /\
  forall n, nth_error r n =
            if (n <? K)%nat
            then option_map (fun x => h (Z.of_nat n) (Some x)) (nth_error l n)
            else nth_error l n.
Proof.
  cbv zeta. induction K as [|K IH].
  - simpl. split; auto.
  - rewrite seq_S, map_app, fold_left_app. simpl.
    destruct IH as [Hlen Hnth].
    set (r := fold_left _ _ l) in *.
    rewrite Zset_of_nat, Zget_of_nat, list_set_length.
    split; [exact Hlen|].
    intros n. destruct (Nat.eq_dec K n) as [<-|Hne].
    + replace (K <? S K)%nat with true by (symmetry; apply Nat.ltb_lt; lia).
      specialize (Hnth K). rewrite Nat.ltb_irrefl in Hnth.
      destruct (nth_error l K) as [x|] eqn:E.
      * rewrite Hnth. simpl. apply nth_error_list_set_eq.
        rewrite Hlen. apply nth_error_Some. congruence.
      * simpl. apply nth_error_None. rewrite list_set_length, Hlen.
        now apply nth_error_None.
    + rewrite nth_error_list_set_neq by assumption.
      rewrite Hnth.
      destruct (Nat.ltb_spec n K), (Nat.ltb_spec n (S K)); try lia; reflexivity.
Qed.

Lemma Zset_length {A} (l : list A) i v : length (Zset l i v) = length l.
Proof.
  unfold Zset. destruct (i <? 0); [reflexivity|apply list_set_length].
Qed.

(** A loop over the channels of a buffer, each within the buffer, never
    throws: it is the loop that rewrites channel [i] at step [i]. *)
Lemma fold_channels_no_throw {A} (g : Z -> list A -> list A) (idx : list Z) :
  forall chans : list (list A),
    Forall (fun i => 0 <= i < Zlength' chans) idx ->
    fold_left
      (fun acc i => let! a := acc in
                    let! channelData := match Zget a i with
                                        | Some c => Done c
                                        | None => Thrown IndexSizeError
                                        end in
                    Done (Zset a i (g i channelData)))
      idx (Done chans)
    = Done (fold_left
              (fun acc i =>
                 Zset acc i (g i (match Zget acc i with Some c => c | None => [] end)))
              idx chans).
Proof.
  set (F := fun (acc : Completion (list (list A))) (i : Z) =>
              let! a := acc in
              let! channelData := match Zget a i with
                                  | Some c => Done c
                                  | None => Thrown IndexSizeError
                                  end in
              Done (Zset a i (g i channelData))).
  induction idx as [|i idx IH]; intros chans Hidx; [reflexivity|].
  inversion Hidx as [|? ? Hi Hrest]; subst. cbn [fold_left].
  assert (Hget : exists c, Zget chans i = Some c).
  { unfold Zlength' in Hi. rewrite Zget_nth_error by lia.
    destruct (nth_error chans (Z.to_nat i)) as [c|] eqn:E; [eauto|].
    apply nth_error_None in E. lia. }
  destruct Hget as (c & Hc).
  assert (Hstep : F (Done chans) i = Done (Zset chans i (g i c))).
  { unfold F. simpl. rewrite Hc. reflexivity. }
  rewrite Hstep, Hc.
  apply IH. unfold Zlength' in *. rewrite Zset_length. exact Hrest.
Qed.

Lemma loop_indices_spec (q : Q) (i : Z) :
  In i (loop_indices (Finite q)) <-> 0 <= i /\ js_lt_int i (Finite q) = true.
Proof.
  unfold loop_indices, js_lt_int. rewrite in_map_iff. split.
  - intros (n & <- & Hin). apply in_seq in Hin. split; [lia|].
    apply negb_true_iff. destruct (Qle_bool q (inject_Z (Z.of_nat n))) eqn:E; auto.
    apply Qle_bool_iff in E.
    assert (Hc : (Qceiling q <= Z.of_nat n)%Z).
    { rewrite <- (Qceiling_Z (Z.of_nat n)). now apply Qceiling_resp_le. }
    lia.
  - intros [H0 Hlt]. exists (Z.to_nat i). split; [lia|].
    apply in_seq. split; [lia|]. simpl.
    apply negb_true_iff in Hlt.
    assert (Hc : (i < Qceiling q)%Z).
    { destruct (Z.lt_ge_cases i (Qceiling q)) as [|Hge]; auto.
      exfalso. assert (Qle_bool q (inject_Z i) = true); [|congruence].
      apply Qle_bool_iff. eapply Qle_trans; [apply Qle_ceiling|].
      rewrite <- Zle_Qle. exact Hge. }
    lia.
Qed.

(** ** Bytes and 16-bit samples *)

Lemma byte_to_Z_range (b : Byte.byte) : 0 <= byte_to_Z b < 256.
Proof.
  unfold byte_to_Z. pose proof (Byte.to_N_bounded b). lia.
Qed.

Lemma byte_to_Z_ToUint8 (z : Z) : byte_to_Z (ToUint8 z) = z mod 256.
Proof.
  unfold ToUint8, byte_to_Z.
  pose proof (Z.mod_pos_bound z 256 ltac:(lia)) as Hb.
  destruct (Byte.of_N (Z.to_N (z mod 256))) as [b|] eqn:E.
  - apply Byte.to_of_N in E. rewrite E. lia.
  - apply Byte.of_N_None_iff in E. lia.
Qed.

Lemma ToUint8_byte_to_Z (b : Byte.byte) : ToUint8 (byte_to_Z b) = b.
Proof.
  unfold ToUint8. pose proof (byte_to_Z_range b) as Hb.
  rewrite Z.mod_small by lia. unfold byte_to_Z.
  now rewrite N2Z.id, Byte.of_to_N.
Qed.

Lemma to_int16_bytes (s : Z) :
  int16 s ->
  to_int16 (byte_to_Z (ToUint8 (s mod 65536))
            + 256 * byte_to_Z (ToUint8 (s mod 65536 / 256))) = s.
Proof.
  unfold int16, to_int16. intros Hs.
  rewrite !byte_to_Z_ToUint8.
  pose proof (Z.mod_pos_bound s 65536 ltac:(lia)) as Hu.
  set (u := s mod 65536) in *.
  assert (Hhi : (u / 256) mod 256 = u / 256).
  { apply Z.mod_small. split; [apply Z.div_pos; lia|].
    apply Z.div_lt_upper_bound; lia. }
  rewrite Hhi.
  assert (Hsplit : u mod 256 + 256 * (u / 256) = u).
  { pose proof (Z.div_mod u 256 ltac:(lia)). lia. }
  rewrite Hsplit, Z.mod_small by lia.
  subst u.
  destruct (Z.ltb_spec (s mod 65536) 32768) as [Hlt|Hge].
  - destruct (Z.lt_ge_cases s 0) as [Hneg|Hpos].
    + assert (s mod 65536 = s + 65536).
      { symmetry. apply Z.mod_unique with (q := -1); lia. }
      lia.
    + apply Z.mod_small; lia.
  - destruct (Z.lt_ge_cases s 0) as [Hneg|Hpos].
    + assert (s mod 65536 = s + 65536).
      { symmetry. apply Z.mod_unique with (q := -1); lia. }
      lia.
    + rewrite Z.mod_small in Hge by lia. lia.
Qed.

Lemma int16_elements_pcm16le (samples : list Z) :
  Forall int16 samples -> int16_elements (pcm16le samples) = samples.
Proof.
  induction 1 as [|s l Hs _ IH]; simpl; auto.
  rewrite IH. f_equal. now apply to_int16_bytes.
Qed.

Lemma length_pcm16le (samples : list Z) :
  Zlength' (pcm16le samples) = 2 * Zlength' samples.
Proof.
  assert (H : length (pcm16le samples) = (2 * length samples)%nat).
  { induction samples as [|s l IH]; simpl; auto. simpl in IH. lia. }
  unfold Zlength'. rewrite H. lia.
Qed.

Lemma new_Int16Array_pcm16le (samples : list Z) :
  Forall int16 samples -> new_Int16Array (pcm16le samples) = Done samples.
Proof.
  intros H. unfold new_Int16Array.
  rewrite length_pcm16le.
  replace (2 * Zlength' samples) with (Zlength' samples * 2) by lia.
  rewrite Z.mod_mul by lia. simpl.
  now rewrite int16_elements_pcm16le.
Qed.

(** ** Numbers *)

Lemma js_div_pos (a b : Z) :
  0 < b -> js_div (inject_Z a) (inject_Z b) = Finite (inject_Z a / inject_Z b).
Proof.
  intros Hb. unfold js_div.
  destruct (Qeq_bool (inject_Z b) 0) eqn:E; auto.
  apply Qeq_bool_iff in E. unfold Qeq in E. simpl in E. lia.
Qed.

Lemma Qtruncate_nonneg (q : Q) : 0 <= Qnum q -> Qtruncate q = Qfloor q.
Proof.
  destruct q as [n d]. simpl. intros Hn.
  unfold Qtruncate. simpl. apply Z.quot_div_nonneg; lia.
Qed.

Lemma Qnum_div_nonneg (a b : Z) :
  0 <= a -> 0 < b -> 0 <= Qnum (inject_Z a / inject_Z b).
Proof.
  intros Ha Hb. destruct b as [|p|p]; try lia.
  unfold Qdiv, Qinv, Qmult. simpl. lia.
Qed.

Lemma to_unsigned_long_div (a b : Z) :
  0 <= a -> 0 < b -> a / b < 2 ^ 32 ->
  to_unsigned_long (Finite (inject_Z a / inject_Z b)) = a / b.
Proof.
  intros Ha Hb Hlt. unfold to_unsigned_long.
  rewrite Qtruncate_nonneg by now apply Qnum_div_nonneg.
  rewrite <- Zdiv_Qdiv.
  apply Z.mod_small. split; [apply Z.div_pos; lia|assumption].
Qed.

Lemma Qceiling_div_ge (a b : Z) : a / b <= Qceiling (inject_Z a / inject_Z b).
Proof.
  rewrite (Zdiv_Qdiv a b), Zle_Qle. apply Qle_floor_ceiling.
Qed.

Lemma sample_div_Some (l : list Z) (i s : Z) :
  Zget l i = Some s ->
  sample_div l i = Finite (inject_Z s / inject_Z 32768).
Proof.
  intros H. unfold sample_div. rewrite H. now apply js_div_pos.
Qed.

(** ** [decodeAudioData] *)

Lemma createBuffer_ok ctx C rate (len : number) (L : Z) :
  supports ctx C rate -> to_unsigned_long len = L -> 1 <= L ->
  createBuffer ctx C len rate =
  Done {| numberOfChannels := C; ab_length := L; ab_sampleRate := rate;
          channels := repeat (repeat (Finite 0) (Z.to_nat L)) (Z.to_nat C) |}.
Proof.
  intros (HC & Hmax & Hrate) HL H1. unfold createBuffer.
  rewrite HL, (Z.mod_small C) by lia.
  replace (1 <=? C) with true by (symmetry; apply Z.leb_le; lia).
  replace (C <=? maxChannels ctx) with true by (symmetry; apply Z.leb_le; lia).
  replace (1 <=? L) with true by (symmetry; apply Z.leb_le; lia).
  replace (minSampleRate ctx <=? rate) with true by (symmetry; apply Z.leb_le; lia).
  replace (rate <=? maxSampleRate ctx) with true by (symmetry; apply Z.leb_le; lia).
  reflexivity.
Qed.

(** A buffer is only created with at least one frame: the loops of
    [decodeAudioData] never run with a bound that is not finite. *)
Lemma createBuffer_length ctx C rate (len : number) buf :
  createBuffer ctx C len rate = Done buf ->
  exists q, len = Finite q /\ 1 <= ab_length buf.
Proof.
  unfold createBuffer. intros H.
  destruct (1 <=? to_unsigned_long len) eqn:E.
  - destruct len as [q| | |]; try (simpl in E; discriminate).
    exists q. split; auto.
    destruct (_ && _) in H; inversion H; subst; simpl.
    now apply Z.leb_le.
  - destruct (1 <=? C mod 2 ^ 32), (C mod 2 ^ 32 <=? maxChannels ctx);
      simpl in H; discriminate.
Qed.

Lemma decodeAudioData_spec ctx rate C (data : Uint8Array) (samples : list Z) :
  new_Int16Array (buffer data) = Done samples ->
  supports ctx C rate ->
  1 <= Zlength' samples / C < 2 ^ 32 ->
  exists chans,
    decodeAudioData data ctx rate C =
    Done {| numberOfChannels := C; ab_length := Zlength' samples / C;
            ab_sampleRate := rate; channels := chans |} /\
    length chans = Z.to_nat C /\
    forall c, (c < Z.to_nat C)%nat ->
      exists ch, nth_error chans c = Some ch /\
        length ch = Z.to_nat (Zlength' samples / C) /\
        forall i, (i < Z.to_nat (Zlength' samples / C))%nat ->
          nth_error ch i = Some (sample_div samples (Z.of_nat i * C + Z.of_nat c)).
Proof.
  intros Hview Hsup HL.
  set (N := Zlength' samples) in *. set (L := N / C) in *.
  assert (HC : 1 <= C) by (destruct Hsup; lia).
  assert (HN : 0 <= N) by (unfold N, Zlength'; lia).
  unfold decodeAudioData. rewrite Hview. simpl cbind. fold N.
  rewrite js_div_pos by lia.
  rewrite (@createBuffer_ok ctx C rate _ L Hsup) by
    (try apply to_unsigned_long_div; lia).
  simpl cbind. cbn [numberOfChannels ab_length ab_sampleRate channels].
  unfold for_lt_throwing, getChannelData. cbn [loop_indices]. rewrite Qceiling_Z.
  rewrite (fold_channels_no_throw
             (fun channel cd =>
                for_lt (Finite (inject_Z N / inject_Z C))
                  (fun i cd0 => Zset cd0 i (sample_div samples (i * C + channel))) cd)).
  2:{ apply Forall_forall. intros i Hin. apply in_map_iff in Hin.
      destruct Hin as (n & <- & Hin). apply in_seq in Hin.
      unfold Zlength'. rewrite repeat_length. lia. }
  simpl cbind.
  set (inner := fun (channel : Z) (cd : list number) =>
                  for_lt (Finite (inject_Z N / inject_Z C))
                    (fun i cd0 => Zset cd0 i (sample_div samples (i * C + channel))) cd).
  set (h := fun (channel : Z) (o : option (list number)) =>
              inner channel (match o with Some c => c | None => [] end)).
  destruct (fold_update_spec h (Z.to_nat C)
              (repeat (repeat (Finite 0) (Z.to_nat L)) (Z.to_nat C)))
    as [Hlen Hnth].
  eexists. split; [reflexivity|]. split.
  - etransitivity; [exact Hlen|]. apply repeat_length.
  - intros c Hc.
    eexists. split.
    + etransitivity; [apply Hnth|].
      replace (c <? Z.to_nat C)%nat with true by (symmetry; apply Nat.ltb_lt; lia).
      rewrite (nth_error_repeat _ Hc). simpl. reflexivity.
    + unfold h, inner, for_lt. cbn [loop_indices].
      destruct (fold_update_spec
                  (fun i (_ : option number) => sample_div samples (i * C + Z.of_nat c))
                  (Z.to_nat (Qceiling (inject_Z N / inject_Z C)))
                  (repeat (Finite 0) (Z.to_nat L))) as [Hlen' Hnth'].
      split.
      * etransitivity; [exact Hlen'|]. apply repeat_length.
      * intros i Hi. etransitivity; [apply Hnth'|].
        pose proof (Qceiling_div_ge N C) as Hceil. fold L in Hceil.
        replace (i <? Z.to_nat (Qceiling (inject_Z N / inject_Z C)))%nat
          with true by (symmetry; apply Nat.ltb_lt; lia).
        rewrite (nth_error_repeat _ Hi). reflexivity.
Qed.

(** ** Base64 *)

Lemma sextet_of_char_of_sextet (z : Z) :
  0 <= z < 64 -> sextet_of_char (char_of_sextet z) = Some z.
Proof.
  intros Hz. unfold char_of_sextet.
  rewrite <- (Z2Nat.id z) at 2 by lia.
  assert (Hn : (Z.to_nat z < 64)%nat) by lia.
  generalize dependent (Z.to_nat z). clear z Hz. intros n Hn.
  do 64 (destruct n as [|n]; [reflexivity|]). lia.
Qed.

Lemma sextet_of_char_not_pad (c : ascii) (z : Z) :
  sextet_of_char c = Some z -> Ascii.eqb c pad_char = false.
Proof.
  intros H. destruct (Ascii.eqb_spec c pad_char) as [->|]; auto.
  vm_compute in H. discriminate.
Qed.

Lemma sextet_of_char_not_whitespace (c : ascii) (z : Z) :
  sextet_of_char c = Some z -> is_ascii_whitespace c = false.
Proof.
  intros H. destruct (is_ascii_whitespace c) eqn:E; auto.
  unfold is_ascii_whitespace in E.
  assert (Hc : c = fromCharCode (charCode c)).
  { unfold fromCharCode, charCode. now rewrite N2Z.id, ascii_N_embedding. }
  repeat (apply orb_true_iff in E; destruct E as [E|E]);
    apply Z.eqb_eq in E; rewrite E in Hc; subst c;
    vm_compute in H; discriminate.
Qed.

Lemma sextets_of_bytes_range (bs : list Z) :
  Forall is_byte bs -> Forall is_sextet (sextets_of_bytes bs).
Proof.
  assert (H : forall n bs, (length bs <= n)%nat -> Forall is_byte bs ->
                           Forall is_sextet (sextets_of_bytes bs)).
  { clear bs. induction n as [|n IH]; intros bs Hlen Hb.
    - destruct bs; [constructor|simpl in Hlen; lia].
    - destruct bs as [|a [|b [|c rest]]]; simpl.
      + constructor.
      + inversion Hb; subst. unfold is_byte, is_sextet in *.
        repeat constructor; Z.div_mod_to_equations; lia.
      + inversion Hb as [|? ? Ha Hb']; subst. inversion Hb'; subst.
        unfold is_byte, is_sextet in *.
        repeat constructor; Z.div_mod_to_equations; lia.
      + inversion Hb as [|? ? Ha Hb1]; subst.
        inversion Hb1 as [|? ? Hb2 Hb3]; subst.
        inversion Hb3 as [|? ? Hc Hrest]; subst.
        unfold is_byte, is_sextet in *.
        repeat (constructor; [Z.div_mod_to_equations; lia|]).
        apply IH; [simpl in Hlen; lia|assumption]. }
  apply (H (length bs)). lia.
Qed.

Lemma bytes_of_sextets_of_bytes (bs : list Z) :
  Forall is_byte bs -> bytes_of_sextets (sextets_of_bytes bs) = bs.
Proof.
  assert (H : forall n bs, (length bs <= n)%nat -> Forall is_byte bs ->
                           bytes_of_sextets (sextets_of_bytes bs) = bs).
  { clear bs. induction n as [|n IH]; intros bs Hlen Hb.
    - destruct bs; [reflexivity|simpl in Hlen; lia].
    - destruct bs as [|a [|b [|c rest]]].
      + reflexivity.
      + inversion Hb; subst. unfold is_byte in *. cbn [sextets_of_bytes bytes_of_sextets].
        f_equal. Z.div_mod_to_equations; lia.
      + inversion Hb as [|? ? Ha Hb']; subst. inversion Hb'; subst.
        unfold is_byte in *. cbn [sextets_of_bytes bytes_of_sextets].
        assert (E : (a / 4 * 64 + (a mod 4 * 16 + b / 16)) * 64 + b mod 16 * 4
                    = a * 1024 + b * 4) by (Z.div_mod_to_equations; lia).
        cbv zeta. rewrite E.
        f_equal; [|f_equal]; Z.div_mod_to_equations; lia.
      + inversion Hb as [|? ? Ha Hb1]; subst.
        inversion Hb1 as [|? ? Hb2 Hb3]; subst.
        inversion Hb3 as [|? ? Hc Hrest]; subst.
        unfold is_byte in *. cbn [sextets_of_bytes bytes_of_sextets].
        assert (E : ((a / 4 * 64 + (a mod 4 * 16 + b / 16)) * 64
                     + (b mod 16 * 4 + c / 64)) * 64 + c mod 64
                    = a * 65536 + b * 256 + c) by (Z.div_mod_to_equations; lia).
        cbv zeta. rewrite E.
        f_equal; [|f_equal; [|f_equal]].
        * Z.div_mod_to_equations; lia.
        * Z.div_mod_to_equations; lia.
        * Z.div_mod_to_equations; lia.
        * apply IH; [simpl in Hlen; lia|assumption]. }
  apply (H (length bs)). lia.
Qed.

Lemma sextets_of_chars_of_sextets (ss : list Z) :
  Forall is_sextet ss -> sextets_of_chars (map char_of_sextet ss) = Some ss.
Proof.
  induction 1 as [|s l Hs _ IH]; simpl; auto.
  now rewrite sextet_of_char_of_sextet, IH.
Qed.

Lemma filter_whitespace_sextets (ss : list Z) (pad : list ascii) :
  Forall is_sextet ss -> Forall (fun c => c = pad_char) pad ->
  filter (fun c => negb (is_ascii_whitespace c)) (map char_of_sextet ss ++ pad)%list
  = (map char_of_sextet ss ++ pad)%list.
Proof.
  intros Hs Hp. rewrite filter_app. f_equal.
  - induction Hs as [|s l Hs _ IH]; simpl; auto.
    rewrite (sextet_of_char_not_whitespace _ (sextet_of_char_of_sextet Hs)).
    simpl. now rewrite IH.
  - induction Hp as [|c l Hc _ IH]; simpl; auto.
    subst c. simpl. now rewrite IH.
Qed.

(** Sizes: [n] bytes give [4 * (n / 3)] characters, plus 2 or 3 for a
    remainder of 1 or 2 bytes. *)
Lemma length_sextets_of_bytes (bs : list Z) :
  length (sextets_of_bytes bs)
  = (4 * (length bs / 3) + match length bs mod 3 with
                           | 0 => 0 | 1 => 2 | _ => 3 end)%nat.
Proof.
  assert (H : forall n bs, (length bs <= n)%nat ->
    length (sextets_of_bytes bs)
    = (4 * (length bs / 3) + match length bs mod 3 with
                             | 0 => 0 | 1 => 2 | _ => 3 end)%nat).
  { clear bs. induction n as [|n IH]; intros bs Hlen.
    - destruct bs; [reflexivity|simpl in Hlen; lia].
    - destruct bs as [|a [|b [|c rest]]]; try reflexivity.
      cbn [sextets_of_bytes length].
      rewrite IH by (simpl in Hlen; lia).
      replace (S (S (S (length rest)))) with (length rest + 1 * 3)%nat by lia.
      rewrite Nat.div_add, Nat.Div0.mod_add by lia. lia. }
  apply (H (length bs)). lia.
Qed.

Lemma strip_padding_encoded (ss : list Z) (n : nat) :
  Forall is_sextet ss ->
  length ss = (4 * (n / 3) + match n mod 3 with 0 => 0 | 1 => 2 | _ => 3 end)%nat ->
  strip_padding (map char_of_sextet ss ++ padding_for n)%list = map char_of_sextet ss.
Proof.
  intros Hs Hlen. unfold strip_padding, padding_for, Zlength'.
  rewrite length_app, length_map, Hlen.
  assert (Hlast : forall c r, rev (map char_of_sextet ss) = c :: r ->
                              Ascii.eqb c pad_char = false).
  { intros c r Hr.
    assert (Hin : In c (map char_of_sextet ss)).
    { apply in_rev. rewrite Hr. now left. }
    apply in_map_iff in Hin. destruct Hin as (s & <- & Hin).
    rewrite Forall_forall in Hs.
    exact (sextet_of_char_not_pad _ (sextet_of_char_of_sextet (Hs s Hin))). }
  pose proof (Nat.mod_upper_bound n 3 ltac:(lia)) as Hm.
  destruct (n mod 3)%nat as [|[|[|k]]] eqn:Em; [| | |lia]; cbn [length].
  - rewrite app_nil_r.
    replace (Z.of_nat (4 * (n / 3) + 0 + 0) mod 4 =? 0) with true.
    2:{ symmetry. apply Z.eqb_eq.
        replace (Z.of_nat (4 * (n / 3) + 0 + 0)) with (Z.of_nat (n / 3) * 4) by lia.
        apply Z.mod_mul. lia. }
    destruct (rev (map char_of_sextet ss)) as [|p1 [|p2 r]] eqn:Er; auto.
    now rewrite (Hlast _ _ eq_refl).
  - replace (Z.of_nat (4 * (n / 3) + 2 + 2) mod 4 =? 0) with true.
    2:{ symmetry. apply Z.eqb_eq.
        replace (Z.of_nat (4 * (n / 3) + 2 + 2)) with ((Z.of_nat (n / 3) + 1) * 4) by lia.
        apply Z.mod_mul. lia. }
    rewrite rev_app_distr.
    change (rev [pad_char; pad_char]) with [pad_char; pad_char]. cbn [app].
    rewrite !Ascii.eqb_refl.
    apply rev_involutive.
  - replace (Z.of_nat (4 * (n / 3) + 3 + 1) mod 4 =? 0) with true.
    2:{ symmetry. apply Z.eqb_eq.
        replace (Z.of_nat (4 * (n / 3) + 3 + 1)) with ((Z.of_nat (n / 3) + 1) * 4) by lia.
        apply Z.mod_mul. lia. }
    rewrite rev_app_distr.
    change (rev [pad_char]) with [pad_char]. cbn [app].
    destruct (rev (map char_of_sextet ss)) as [|p2 r] eqn:Er.
    + apply (f_equal (@length _)) in Er.
      rewrite length_rev, length_map, Hlen in Er. simpl in Er. lia.
    + rewrite Ascii.eqb_refl, (Hlast _ _ eq_refl).
      rewrite <- Er. apply rev_involutive.
Qed.

Lemma length_mod4_encoded (n k : nat) :
  Z.of_nat (4 * k + match n mod 3 with 0 => 0 | 1 => 2 | _ => 3 end)%nat mod 4 <> 1.
Proof.
  destruct (n mod 3)%nat as [|[|m]].
  - replace (Z.of_nat (4 * k + 0)) with (0 + Z.of_nat k * 4) by lia.
    rewrite Z.mod_add by lia. discriminate.
  - replace (Z.of_nat (4 * k + 2)) with (2 + Z.of_nat k * 4) by lia.
    rewrite Z.mod_add by lia. discriminate.
  - replace (Z.of_nat (4 * k + 3)) with (3 + Z.of_nat k * 4) by lia.
    rewrite Z.mod_add by lia. discriminate.
Qed.

Lemma Forall_is_byte_map (bs : list Byte.byte) : Forall is_byte (map byte_to_Z bs).
Proof.
  apply Forall_forall. intros z Hin. apply in_map_iff in Hin.
  destruct Hin as (b & <- & _). apply byte_to_Z_range.
Qed.

(** [atob] undoes [btoa]. *)
Lemma atob_btoa_bytes (bs : list Byte.byte) :
  atob (btoa_bytes bs)
  = Done (string_of_list_ascii (map fromCharCode (map byte_to_Z bs))).
Proof.
  unfold atob, btoa_bytes, chars.
  rewrite list_ascii_of_string_of_list_ascii.
  pose proof (sextets_of_bytes_range (Forall_is_byte_map bs)) as Hs.
  pose proof (length_sextets_of_bytes (map byte_to_Z bs)) as Hlen.
  rewrite length_map in Hlen.
  assert (Hp : Forall (fun c => c = pad_char) (padding_for (length bs))).
  { unfold padding_for.
    destruct (length bs mod 3)%nat as [|[|[|k]]]; repeat constructor. }
  rewrite (filter_whitespace_sextets Hs Hp).
  rewrite (strip_padding_encoded (length bs) Hs Hlen).
  unfold Zlength'. rewrite length_map, Hlen.
  match goal with
  | |- context [?x mod 4 =? 1] => destruct (Z.eqb_spec (x mod 4) 1) as [E|_]
  end.
  - exfalso. exact (length_mod4_encoded _ _ E).
  - rewrite sextets_of_chars_of_sextets by assumption.
    rewrite bytes_of_sextets_of_bytes by apply Forall_is_byte_map.
    reflexivity.
Qed.

Lemma charCode_fromCharCode (z : Z) : is_byte z -> charCode (fromCharCode z) = z.
Proof.
  unfold is_byte, charCode, fromCharCode. intros Hz.
  rewrite N_ascii_embedding by lia. lia.
Qed.

Lemma fold_Uint8Array_set (f : Z -> Z) (idx : list Z) (a : Uint8Array) :
  byteOffset a = 0 ->
  Forall (fun i => 0 <= i < u8_length a) idx ->
  fold_left (fun acc i => Uint8Array_set acc i (f i)) idx a
  = {| buffer := fold_left (fun b i => Zset b i (ToUint8 (f i))) idx (buffer a);
       byteOffset := 0; u8_length := u8_length a |}.
Proof.
  revert a. induction idx as [|i l IH]; intros a Hoff Hidx.
  - simpl. destruct a; simpl in *; now subst.
  - inversion Hidx as [|? ? Hi Hl]; subst. cbn [fold_left].
    assert (Hset : Uint8Array_set a i (f i)
                   = {| buffer := Zset (buffer a) i (ToUint8 (f i));
                        byteOffset := 0; u8_length := u8_length a |}).
    { unfold Uint8Array_set.
      replace (0 <=? i) with true by (symmetry; apply Z.leb_le; lia).
      replace (i <? u8_length a) with true by (symmetry; apply Z.ltb_lt; lia).
      simpl. rewrite Hoff. reflexivity. }
    rewrite Hset. rewrite IH; [reflexivity|reflexivity|exact Hl].
Qed.

(** [decodeBase64] returns the bytes that were encoded, in a buffer of
    its own. *)
Lemma decodeBase64_btoa_bytes (bs : list Byte.byte) :
  decodeBase64 (btoa_bytes bs) = Done (Uint8Array_of bs).
Proof.
  unfold decodeBase64. rewrite atob_btoa_bytes. simpl cbind.
  set (s := string_of_list_ascii (map fromCharCode (map byte_to_Z bs))).
  assert (Hchars : chars s = map fromCharCode (map byte_to_Z bs))
    by apply list_ascii_of_string_of_list_ascii.
  assert (HL : Zlength' (chars s) = Z.of_nat (length bs))
    by (unfold Zlength'; now rewrite Hchars, !length_map).
  rewrite HL.
  unfold for_lt, loop_indices. rewrite Qceiling_Z, Nat2Z.id.
  rewrite fold_Uint8Array_set.
  - unfold new_Uint8Array, Uint8Array_of, Zlength'.
    cbn [buffer u8_length]. do 2 f_equal. rewrite Nat2Z.id.
    destruct (fold_update_spec (fun i (_ : option Byte.byte) => ToUint8 (charCodeAt s i))
                (length bs) (repeat Byte.x00 (length bs))) as [Hlen Hnth].
    apply nth_error_ext. intros n.
    etransitivity; [apply Hnth|].
    destruct (Nat.ltb_spec n (length bs)) as [Hlt|Hge].
    + rewrite (nth_error_repeat _ Hlt). simpl.
      unfold charCodeAt. rewrite Hchars, Zget_of_nat.
      rewrite !nth_error_map.
      destruct (nth_error bs n) as [b|] eqn:E.
      * simpl. rewrite charCode_fromCharCode by apply byte_to_Z_range.
        now rewrite ToUint8_byte_to_Z.
      * apply nth_error_None in E. lia.
    + transitivity (@None Byte.byte).
      * apply nth_error_None. rewrite repeat_length. lia.
      * symmetry. now apply nth_error_None.
  - reflexivity.
  - apply Forall_forall. intros i Hin. apply in_map_iff in Hin.
    destruct Hin as (n & <- & Hin). apply in_seq in Hin.
    unfold new_Uint8Array. cbn [u8_length]. lia.
Qed.

(** ** Quantizers *)

(** Scaling by 32768 and rounding to an integer at distance at most 1,
    within the 16-bit range, is a quantizer. *)
Lemma quantizer_of_rounding (r : Q -> Z) :
  (forall y : Q, (inject_Z (-32768) <= y)%Q -> (y < inject_Z 32768)%Q ->
     (-32768 <= r y <= 32767) /\
     (y - 1 <= inject_Z (r y))%Q /\ (inject_Z (r y) <= y + 1)%Q) ->
  pcm16_quantizer (fun x => r (x * inject_Z 32768)%Q).
Proof.
  intros Hr x Hlo Hhi.
  set (y := (x * inject_Z 32768)%Q).
  assert (Hy1 : (inject_Z (-32768) <= y)%Q).
  { unfold y. setoid_replace (inject_Z (-32768)) with ((-1) * inject_Z 32768)%Q
      by reflexivity.
    apply Qmult_le_compat_r; [exact Hlo|discriminate]. }
  assert (Hy2 : (y < inject_Z 32768)%Q).
  { unfold y. setoid_replace (inject_Z 32768) with (1 * inject_Z 32768)%Q at 2
      by reflexivity.
    apply Qmult_lt_compat_r; [reflexivity|exact Hhi]. }
  destruct (Hr y Hy1 Hy2) as (Hrange & Hlow & Hup).
  split; [exact Hrange|].
  assert (Hx : (x == y / inject_Z 32768)%Q) by (unfold y; field).
  rewrite Hx.
  setoid_replace (inject_Z (r y) / inject_Z 32768 - y / inject_Z 32768)%Q
    with ((inject_Z (r y) - y) / inject_Z 32768)%Q by field.
  apply Qabs_Qle_condition. split.
  - apply Qle_shift_div_l; [reflexivity|].
    setoid_replace (- (1 # 32768) * inject_Z 32768)%Q with (-1)%Q by reflexivity.
    apply Qplus_le_l with (z := y). ring_simplify.
    exact Hlow.
  - apply Qle_shift_div_r; [reflexivity|].
    setoid_replace ((1 # 32768) * inject_Z 32768)%Q with 1%Q by reflexivity.
    apply Qplus_le_l with (z := y). ring_simplify.
    exact Hup.
Qed.

Lemma Qtruncate_nonpos (q : Q) : Qnum q <= 0 -> Qtruncate q = Qceiling q.
Proof.
  destruct q as [n d]. simpl. intros Hn.
  unfold Qtruncate, Qceiling, Qfloor, Qopp. simpl.
  rewrite <- (Z.opp_involutive n) at 1.
  rewrite Z.quot_opp_l by lia.
  f_equal. apply Z.quot_div_nonneg; lia.
Qed.

Lemma Qfloor_bounds (y : Q) :
  (inject_Z (-32768) <= y)%Q -> (y < inject_Z 32768)%Q ->
  -32768 <= Qfloor y <= 32767.
Proof.
  intros Hy1 Hy2. split.
  - rewrite <- (Qfloor_Z (-32768)). now apply Qfloor_resp_le.
  - enough (Qfloor y < 32768) by lia.
    rewrite Zlt_Qlt. eapply Qle_lt_trans; [apply Qfloor_le|exact Hy2].
Qed.

Lemma quantize_floor_ok : pcm16_quantizer quantize_floor.
Proof.
  apply (quantizer_of_rounding Qfloor). intros y Hy1 Hy2.
  split; [now apply Qfloor_bounds|]. split.
  - pose proof (Qlt_floor y) as Hlt. rewrite inject_Z_plus in Hlt.
    apply Qlt_le_weak. apply Qplus_lt_l with (z := 1%Q). ring_simplify.
    setoid_replace (inject_Z (Qfloor y) + 1)%Q
      with (inject_Z (Qfloor y) + inject_Z 1)%Q by reflexivity.
    exact Hlt.
  - apply Qle_trans with (y := y); [apply Qfloor_le|].
    apply Qplus_le_l with (z := (- y)%Q). ring_simplify. discriminate.
Qed.

Lemma quantize_trunc_ok : pcm16_quantizer quantize_trunc.
Proof.
  apply (quantizer_of_rounding (fun y => to_int16 (Qtruncate y))).
  intros y Hy1 Hy2.
  assert (Hid : forall z, -32768 <= z <= 32767 -> to_int16 z = z).
  { intros z Hz. unfold to_int16.
    destruct (Z.lt_ge_cases z 0) as [Hneg|Hpos].
    - assert (E : z mod 65536 = z + 65536)
        by (symmetry; apply Z.mod_unique with (q := -1); lia).
      rewrite E. destruct (Z.ltb_spec (z + 65536) 32768); lia.
    - rewrite Z.mod_small by lia. destruct (Z.ltb_spec z 32768); lia. }
  destruct (Z.le_ge_cases 0 (Qnum y)) as [Hpos|Hneg].
  - rewrite Qtruncate_nonneg by assumption.
    pose proof (Qfloor_bounds Hy1 Hy2) as Hb. rewrite Hid by assumption.
    split; [assumption|]. split.
    + pose proof (Qlt_floor y) as Hlt. rewrite inject_Z_plus in Hlt.
      apply Qlt_le_weak. apply Qplus_lt_l with (z := 1%Q). ring_simplify.
      setoid_replace (inject_Z (Qfloor y) + 1)%Q
        with (inject_Z (Qfloor y) + inject_Z 1)%Q by reflexivity.
      exact Hlt.
    + apply Qle_trans with (y := y); [apply Qfloor_le|].
      apply Qplus_le_l with (z := (- y)%Q). ring_simplify. discriminate.
  - rewrite Qtruncate_nonpos by assumption.
    assert (Hc1 : -32768 <= Qceiling y).
    { rewrite Zle_Qle. eapply Qle_trans; [exact Hy1|apply Qle_ceiling]. }
    assert (Hc2 : Qceiling y <= 0).
    { rewrite <- (Qceiling_Z 0). apply Qceiling_resp_le.
      unfold Qle. simpl. lia. }
    rewrite Hid by lia.
    split; [lia|]. split.
    + apply Qle_trans with (y := y); [|apply Qle_ceiling].
      apply Qplus_le_l with (z := (1 - y)%Q). ring_simplify. discriminate.
    + pose proof (Qceiling_lt y) as Hlt.
      unfold Z.sub in Hlt. rewrite inject_Z_plus in Hlt.
      apply Qlt_le_weak. apply Qplus_lt_l with (z := inject_Z (-1)).
      setoid_replace (y + 1 + inject_Z (-1))%Q with y by (simpl; ring).
      exact Hlt.
Qed.

(** ** Running programs against scripts *)

Unset Implicit Arguments.

Lemma observe_bind {R S} (t : itree browserE R) (k : R -> itree browserE S) :
  observe (ITree.bind t k)
  = observe (match observe t with
             | RetF r => k r
             | TauF t' => Tau (ITree.bind t' k)
             | VisF e h => Vis e (fun x => ITree.bind (h x) k)
             end).
Proof. reflexivity. Qed.

Lemma run_observe {R} (t u : itree browserE R) fuel script :
  observe t = observe u -> run fuel t script = run fuel u script.
Proof.
  intros H. destruct fuel; simpl; [reflexivity|]. now rewrite H.
Qed.

Lemma logged_OutOfFuel {R} (c : call) (o : Outcome R) :
  logged c o = OutOfFuel -> o = OutOfFuel.
Proof. destruct o; simpl; congruence. Qed.

Lemma after_OutOfFuel {R} (log : list call) (o : Outcome R) :
  after log o = OutOfFuel -> o = OutOfFuel.
Proof.
  induction log as [|c log IH]; simpl; auto.
  intros H. apply logged_OutOfFuel in H. auto.
Qed.

Lemma after_Returned {R} (l1 l2 : list call) (r : R) rest :
  after l1 (Returned l2 r rest) = Returned (l1 ++ l2) r rest.
Proof. induction l1 as [|c l1 IH]; simpl; [reflexivity|]. now rewrite IH. Qed.

Lemma after_Pending {R} (l1 l2 : list call) next :
  after l1 (@Pending R l2 next) = Pending (l1 ++ l2) next.
Proof. induction l1 as [|c l1 IH]; simpl; [reflexivity|]. now rewrite IH. Qed.

(** More fuel does not change an outcome. *)
Lemma run_mono {R} fuel :
  forall (t : itree browserE R) script o,
    run fuel t script = o -> o <> OutOfFuel ->
    forall fuel', (fuel <= fuel')%nat -> run fuel' t script = o.
Proof.
  induction fuel as [|fuel IH]; intros t script o Hrun Ho fuel' Hle.
  - simpl in Hrun. congruence.
  - destruct fuel' as [|fuel']; [lia|]. simpl in *.
    destruct (observe t) as [r|t'|X e k]; auto.
    + apply (IH _ _ _ Hrun Ho). lia.
    + destruct script as [|rp script']; auto.
      destruct (answer e rp) as [x|]; auto.
      subst o. f_equal. apply (IH _ _ _ eq_refl); [|lia].
      intros Hf. apply Ho. now rewrite Hf.
Qed.

(** A program has one outcome against a script. *)
Lemma exec_functional {R} (t : itree browserE R) script o1 o2 :
  exec t script o1 -> exec t script o2 -> o1 = o2.
Proof.
  intros (f1 & H1 & Hn1) (f2 & H2 & Hn2).
  rewrite <- (run_mono _ _ _ _ H1 Hn1 (Nat.max f1 f2)) by lia.
  apply (run_mono _ _ _ _ H2 Hn2). lia.
Qed.

Lemma exec_observe {R} (t u : itree browserE R) script o :
  observe t = observe u -> exec u script o -> exec t script o.
Proof.
  intros H (f & Hr & Hn). exists f. split; auto.
  now rewrite (run_observe t u f script H).
Qed.

Lemma exec_Ret {R} (r : R) script : exec (Ret r : itree browserE R) script (Returned [] r script).
Proof. exists 1%nat. split; [reflexivity|discriminate]. Qed.

Lemma exec_Tau {R} (t : itree browserE R) script o :
  exec t script o -> exec (Tau t) script o.
Proof.
  intros (f & Hr & Hn). exists (S f). split; auto.
Qed.

Lemma exec_Vis {R X} (e : browserE X) (k : X -> itree browserE R) rp x script o :
  answer e rp = Some x -> exec (k x) script o ->
  exec (Vis e k) (rp :: script) (logged (call_of e) o).
Proof.
  intros Ha (f & Hr & Hn). exists (S f). split.
  - simpl. now rewrite Ha, Hr.
  - intros H. apply logged_OutOfFuel in H. contradiction.
Qed.

Lemma exec_Vis_pending {R X} (e : browserE X) (k : X -> itree browserE R) :
  exec (Vis e k) [] (Pending [] (call_of e)).
Proof. exists 1%nat. split; [reflexivity|discriminate]. Qed.

Lemma run_bind {R S} (k : R -> itree browserE S) f1 :
  forall (t : itree browserE R) script log x rest f2,
    run f1 t script = Returned log x rest ->
    run f2 (k x) rest <> OutOfFuel ->
    run (f1 + f2) (ITree.bind t k) script = after log (run f2 (k x) rest).
Proof.
  induction f1 as [|f1 IH]; intros t script log x rest f2 Ht Ho.
  - simpl in Ht. discriminate.
  - simpl in Ht.
    destruct (observe t) as [r|t'|X e h] eqn:Eo.
    + inversion Ht; subst. simpl after.
      rewrite (run_observe (ITree.bind t k) (k x)).
      * apply (run_mono _ _ _ _ eq_refl Ho). lia.
      * rewrite observe_bind, Eo. reflexivity.
    + rewrite (run_observe (ITree.bind t k) (Tau (ITree.bind t' k)))
        by (rewrite observe_bind, Eo; reflexivity).
      simpl. apply (IH _ _ _ _ _ _ Ht Ho).
    + rewrite (run_observe (ITree.bind t k) (Vis e (fun y => ITree.bind (h y) k)))
        by (rewrite observe_bind, Eo; reflexivity).
      simpl. destruct script as [|rp script']; [discriminate|].
      destruct (answer e rp) as [y|]; [|discriminate].
      destruct (run f1 (h y) script') as [log' r' rest'| | |] eqn:Eh;
        simpl in Ht; try discriminate.
      inversion Ht; subst.
      rewrite (IH _ _ _ _ _ _ Eh Ho). reflexivity.
Qed.

(** Sequencing: the continuation runs on what the first part left of
    the script. *)
Lemma exec_bind {R S} (t : itree browserE R) (k : R -> itree browserE S)
      script log x rest o :
  exec t script (Returned log x rest) -> exec (k x) rest o ->
  exec (ITree.bind t k) script (after log o).
Proof.
  intros (f1 & H1 & _) (f2 & H2 & Hn). exists (f1 + f2)%nat. subst o. split.
  - apply (run_bind k f1 t script log x rest f2 H1 Hn).
  - intros H. apply after_OutOfFuel in H. contradiction.
Qed.

Lemma exec_bind_returned {R S} (t : itree browserE R) (k : R -> itree browserE S)
      script log1 x rest1 log2 r rest2 :
  exec t script (Returned log1 x rest1) ->
  exec (k x) rest1 (Returned log2 r rest2) ->
  exec (ITree.bind t k) script (Returned (log1 ++ log2) r rest2).
Proof.
  intros Ht Hk. pose proof (exec_bind t k _ _ _ _ _ Ht Hk) as H.
  now rewrite after_Returned in H.
Qed.

Lemma exec_trigger {X} (e : browserE X) rp x script :
  answer e rp = Some x ->
  exec (ITree.trigger e) (rp :: script) (Returned [call_of e] x script).
Proof.
  intros Ha. apply (exec_Vis e (fun y => Ret y) rp x script _ Ha (exec_Ret x script)).
Qed.

(** A call whose reply is there: the program goes on with the answer. *)
Lemma exec_bind_trigger {X S} (e : browserE X) (k : X -> itree browserE S)
      rp x script o :
  answer e rp = Some x -> exec (k x) script o ->
  exec (ITree.bind (ITree.trigger e) k) (rp :: script) (logged (call_of e) o).
Proof.
  intros Ha Hk.
  apply (exec_bind (ITree.trigger e) k _ _ _ _ _ (exec_trigger e rp x script Ha) Hk).
Qed.

Lemma exec_bind_trigger_returned {X S} (e : browserE X) (k : X -> itree browserE S)
      rp x script log r rest :
  answer e rp = Some x -> exec (k x) script (Returned log r rest) ->
  exec (ITree.bind (ITree.trigger e) k) (rp :: script)
       (Returned (call_of e :: log) r rest).
Proof. intros Ha Hk. exact (exec_bind_trigger e k rp x script _ Ha Hk). Qed.

Lemma exec_bind_trigger_then_pending {X S} (e : browserE X) (k : X -> itree browserE S)
      rp x script log next :
  answer e rp = Some x -> exec (k x) script (Pending log next) ->
  exec (ITree.bind (ITree.trigger e) k) (rp :: script)
       (Pending (call_of e :: log) next).
Proof. intros Ha Hk. exact (exec_bind_trigger e k rp x script _ Ha Hk). Qed.

(** A call with no reply left: the program is waiting on it. *)
Lemma exec_bind_trigger_pending {X S} (e : browserE X) (k : X -> itree browserE S) :
  exec (ITree.bind (ITree.trigger e) k) [] (Pending [] (call_of e)).
Proof. exists 1%nat. split; [reflexivity|discriminate]. Qed.

(** One turn of a loop. *)
Lemma exec_iter_again {I R} (body : I -> itree browserE (I + R)) i i' script log rest o :
  exec (body i) script (Returned log (inl i') rest) ->
  exec (ITree.iter body i') rest o ->
  exec (ITree.iter body i) script (after log o).
Proof.
  intros Hb Hi.
  apply (exec_observe _
           (ITree.bind (body i)
              (fun lr => match lr with
                         | inl l => Tau (ITree.iter body l)
                         | inr r => Ret r
                         end))); [reflexivity|].
  apply (exec_bind _ _ _ _ _ _ _ Hb). now apply exec_Tau.
Qed.

Lemma exec_iter_stop {I R} (body : I -> itree browserE (I + R)) i r script log rest :
  exec (body i) script (Returned log (inr r) rest) ->
  exec (ITree.iter body i) script (Returned log r rest).
Proof.
  intros Hb.
  apply (exec_observe _
           (ITree.bind (body i)
              (fun lr => match lr with
                         | inl l => Tau (ITree.iter body l)
                         | inr r => Ret r
                         end))); [reflexivity|].
  pose proof (exec_bind (body i)
                (fun lr => match lr with
                           | inl l => Tau (ITree.iter body l)
                           | inr r => Ret r
                           end) _ _ _ _ _ Hb (exec_Ret r rest)) as H.
  rewrite after_Returned, app_nil_r in H. exact H.
Qed.

(** If the first part does not return, neither does the whole. *)
Lemma exec_bind_pending {R S} (t : itree browserE R) (k : R -> itree browserE S)
      script log next :
  exec t script (Pending log next) ->
  exec (ITree.bind t k) script (Pending log next).
Proof.
  intros (f & Hr & _). exists f. split; [|discriminate].
  revert t script log next Hr. induction f as [|f IH]; intros t script log next Hr.
  - discriminate.
  - simpl in Hr. destruct (observe t) as [r|t'|X e h] eqn:Eo.
    + discriminate.
    + rewrite (run_observe (ITree.bind t k) (Tau (ITree.bind t' k)))
        by (rewrite observe_bind, Eo; reflexivity).
      simpl. now apply IH.
    + rewrite (run_observe (ITree.bind t k) (Vis e (fun y => ITree.bind (h y) k)))
        by (rewrite observe_bind, Eo; reflexivity).
      simpl. destruct script as [|rp script'].
      * inversion Hr; subst. reflexivity.
      * destruct (answer e rp) as [y|]; [|discriminate].
        destruct (run f (h y) script') as [| log' next' | |] eqn:Eh;
          simpl in Hr; try discriminate.
        inversion Hr; subst. now rewrite (IH _ _ _ _ Eh).
Qed.

(** ** Awaiting, and the poller *)

Lemma last_cons {A} (x d : A) (l : list A) : last (x :: l) d = last l x.
Proof.
  revert x d. induction l as [|y l IH]; intros x d; [reflexivity|].
  change (last (x :: y :: l) d) with (last (y :: l) d).
  now rewrite (IH y d), (IH y x).
Qed.

Lemma exec_await_done {X R} (e : browserE (Completion X)) (k : X -> Async R)
      rp x script o :
  answer e rp = Some (Done x) -> exec (k x) script o ->
  exec (await e k) (rp :: script) (logged (call_of e) o).
Proof.
  intros Ha Hk. unfold await.
  exact (exec_bind_trigger e _ rp (Done x) script o Ha Hk).
Qed.

Lemma exec_await_done_returned {X R} (e : browserE (Completion X)) (k : X -> Async R)
      rp x script log r rest :
  answer e rp = Some (Done x) -> exec (k x) script (Returned log r rest) ->
  exec (await e k) (rp :: script) (Returned (call_of e :: log) r rest).
Proof. intros Ha Hk. exact (exec_await_done e k rp x script _ Ha Hk). Qed.

Lemma exec_await_done_pending {X R} (e : browserE (Completion X)) (k : X -> Async R)
      rp x script log next :
  answer e rp = Some (Done x) -> exec (k x) script (Pending log next) ->
  exec (await e k) (rp :: script) (Pending (call_of e :: log) next).
Proof. intros Ha Hk. exact (exec_await_done e k rp x script _ Ha Hk). Qed.

Lemma exec_await_thrown {X R} (e : browserE (Completion X)) (k : X -> Async R)
      rp err script :
  answer e rp = Some (Thrown err) ->
  exec (await e k) (rp :: script) (Returned [call_of e] (Thrown err) script).
Proof.
  intros Ha. unfold await.
  exact (exec_bind_trigger_returned e _ rp (Thrown err) script _ _ _ Ha
           (exec_Ret _ script)).
Qed.

Lemma exec_await_pending {X R} (e : browserE (Completion X)) (k : X -> Async R) :
  exec (await e k) [] (Pending [] (call_of e)).
Proof. apply exec_bind_trigger_pending. Qed.

Lemma exec_await_call {X R} (t : Async X) (k : X -> Async R) script log x rest o :
  exec t script (Returned log (Done x) rest) -> exec (k x) rest o ->
  exec (await_call t k) script (after log o).
Proof.
  intros Ht Hk. unfold await_call.
  exact (exec_bind t _ script log (Done x) rest o Ht Hk).
Qed.

Lemma exec_await_call_thrown {X R} (t : Async X) (k : X -> Async R)
      script log err rest :
  exec t script (Returned log (Thrown err) rest) ->
  exec (await_call t k) script (Returned log (Thrown err) rest).
Proof.
  intros Ht. unfold await_call.
  pose proof (exec_bind t
                (fun c => match c with
                          | Done x => k x
                          | Thrown err => Ret (Thrown err)
                          end)
                script log (Thrown err) rest _ Ht (exec_Ret _ rest)) as H.
  rewrite after_Returned, app_nil_r in H. exact H.
Qed.

Lemma exec_await_call_pending {X R} (t : Async X) (k : X -> Async R) script log next :
  exec t script (Pending log next) ->
  exec (await_call t k) script (Pending log next).
Proof. apply exec_bind_pending. Qed.

(** The poller on a finished operation returns it without a call. *)
Lemma pollUntilDone_done ai operation script :
  not_done operation = false ->
  exec (pollUntilDone ai operation) script (Returned [] (Done operation) script).
Proof.
  intros Hd. unfold pollUntilDone.
  apply exec_iter_stop. rewrite Hd. apply exec_Ret.
Qed.

(** On a pending operation it waits, asks, and goes on with the answer. *)
Lemma pollUntilDone_again ai operation operation' script o :
  not_done operation = true ->
  exec (pollUntilDone ai operation') script o ->
  exec (pollUntilDone ai operation)
       (ReplyVoid :: ReplyOperation (Done operation') :: script)
       (after [CallSetTimeout 10000; CallGetVideosOperation ai operation] o).
Proof.
  intros Hd Hnext. unfold pollUntilDone.
  eapply exec_iter_again; [|exact Hnext].
  rewrite Hd.
  apply (exec_bind_trigger_returned (SetTimeout 10000) _ ReplyVoid tt _ _ _ _ eq_refl).
  apply (exec_bind_trigger_returned (GetVideosOperation ai operation) _
           (ReplyOperation (Done operation')) (Done operation') _ _ _ _ eq_refl).
  apply exec_Ret.
Qed.

(** A rejected status request ends the poller with the rejection. *)
Lemma pollUntilDone_rejected ai operation err script :
  not_done operation = true ->
  exec (pollUntilDone ai operation)
       (ReplyVoid :: ReplyOperation (Thrown err) :: script)
       (Returned [CallSetTimeout 10000; CallGetVideosOperation ai operation]
                 (Thrown err) script).
Proof.
  intros Hd. unfold pollUntilDone.
  apply exec_iter_stop. rewrite Hd.
  apply (exec_bind_trigger_returned (SetTimeout 10000) _ ReplyVoid tt _ _ _ _ eq_refl).
  apply (exec_bind_trigger_returned (GetVideosOperation ai operation) _
           (ReplyOperation (Thrown err)) (Thrown err) _ _ _ _ eq_refl).
  apply exec_Ret.
Qed.

Lemma pollUntilDone_waits ai operation :
  not_done operation = true ->
  exec (pollUntilDone ai operation) [] (Pending [] (CallSetTimeout 10000)).
Proof.
  intros Hd. exists 1%nat. split; [|discriminate].
  unfold pollUntilDone. simpl. rewrite Hd. reflexivity.
Qed.

(** Through any number of pending statuses, up to the one that reads
    done. *)
Lemma pollUntilDone_chain ai (rest : list Operation) :
  forall first script,
    pending_then_done first rest ->
    exec (pollUntilDone ai first) (pollScript rest ++ script)
         (Returned (pollLog ai first rest) (Done (last rest first)) script).
Proof.
  induction rest as [|next rest IH]; intros first script Hp.
  - simpl in *. now apply pollUntilDone_done.
  - destruct Hp as [Hd Hp].
    pose proof (pollUntilDone_again ai first next _ _ Hd (IH next script Hp)) as H.
    rewrite after_Returned in H.
    rewrite last_cons. exact H.
Qed.

(** Through any number of pending statuses, the poller goes on: with a
    further answer [o] describes what follows. *)
Lemma pollUntilDone_pending_chain {ai} (rest : list Operation) :
  forall first script o,
    all_pending first rest ->
    exec (pollUntilDone ai (last rest first)) script o ->
    exec (pollUntilDone ai first) (pollScript rest ++ script)
         (after (pollLog ai first rest) o).
Proof.
  induction rest as [|next rest IH]; intros first script o Hp Hlast.
  - simpl in *. exact Hlast.
  - unfold all_pending in Hp. inversion Hp as [|? ? Hd Hrest]; subst.
    rewrite last_cons in Hlast.
    exact (pollUntilDone_again ai first next _ _ Hd (IH next script o Hrest Hlast)).
Qed.

Lemma all_pending_last first rest :
  all_pending first rest -> not_done (last rest first) = true.
Proof.
  revert first. induction rest as [|x rest IH]; intros first Hp.
  - now inversion Hp.
  - rewrite last_cons. apply IH. now inversion Hp.
Qed.

(** ** The service functions against a script *)

Ltac await_returned := eapply exec_await_done_returned; [reflexivity|].
Ltac await_pending := eapply exec_await_done_pending; [reflexivity|].
Ltac trigger_returned := eapply exec_bind_trigger_returned; [reflexivity|].

Lemma or_else_nonempty (a : option string) (b : string) :
  b <> EmptyString -> or_else a b <> EmptyString.
Proof.
  intros Hb. destruct a as [[|c s]|]; simpl; auto. discriminate.
Qed.

Lemma or_else_empty (a : option string) (b : string) :
  a = None \/ a = Some EmptyString -> or_else a b = b.
Proof. intros [-> | ->]; reflexivity. Qed.

Lemma or_else_Some (s b : string) : s <> EmptyString -> or_else (Some s) b = s.
Proof. destruct s; [congruence|reflexivity]. Qed.

(** The image branch: two requests, then the result. *)
Lemma generateLessonPrompt_image_run env topic difficulty r1 r2 script :
  exec (generateLessonPrompt env topic difficulty image)
       (ReplyContent (Done r1) :: ReplyContent (Done r2) :: script)
       (Returned
          [CallGenerateContent (getAI env) (descriptionRequest topic difficulty);
           CallGenerateContent (getAI env)
             (imageRequest (or_else (text r1) fallbackPrompt))]
          (Done {| url := firstInlineImage
                            (match first_candidate_parts r2 with
                             | Some ps => ps
                             | None => []
                             end) EmptyString;
                   promptText := or_else (text r1) fallbackPrompt |})
          script).
Proof.
  unfold generateLessonPrompt.
  await_returned.
  await_returned.
  apply exec_Ret.
Qed.

(** After the description, the function is waiting on the media
    request. *)
Lemma generateLessonPrompt_image_waits env topic difficulty r1 :
  exec (generateLessonPrompt env topic difficulty image)
       [ReplyContent (Done r1)]
       (Pending [CallGenerateContent (getAI env) (descriptionRequest topic difficulty)]
                (CallGenerateContent (getAI env)
                   (imageRequest (or_else (text r1) fallbackPrompt)))).
Proof.
  unfold generateLessonPrompt.
  await_pending.
  apply exec_await_pending.
Qed.

Lemma generateLessonPrompt_video_waits env topic difficulty r1 :
  exec (generateLessonPrompt env topic difficulty video)
       [ReplyContent (Done r1)]
       (Pending [CallGenerateContent (getAI env) (descriptionRequest topic difficulty)]
                (CallGenerateVideos (getAI env)
                   (videoRequest (or_else (text r1) fallbackPrompt)))).
Proof.
  unfold generateLessonPrompt.
  await_pending.
  apply exec_await_pending.
Qed.

(** The video branch through a job that is pending, then done. *)
Lemma generateLessonPrompt_video_run env topic difficulty r1 first rest
      fetched blob objectUrl script :
  pending_then_done first rest ->
  exec (generateLessonPrompt env topic difficulty video)
       (ReplyContent (Done r1) :: ReplyOperation (Done first)
          :: pollScript rest
          ++ ReplyFetch (Done fetched) :: ReplyBlob (Done blob)
          :: ReplyString objectUrl :: script)
       (Returned
          (CallGenerateContent (getAI env) (descriptionRequest topic difficulty)
             :: CallGenerateVideos (getAI env)
                  (videoRequest (or_else (text r1) fallbackPrompt))
             :: pollLog (getAI env) first rest
             ++ [CallFetch (template (downloadLink (last rest first)) ++ "&key="
                            ++ template (API_KEY env));
                 CallResponseBlob fetched;
                 CallCreateObjectURL blob])
          (Done {| url := objectUrl;
                   promptText := or_else (text r1) fallbackPrompt |})
          script).
Proof.
  intros Hp. unfold generateLessonPrompt.
  await_returned.
  await_returned.
  pose proof (pollUntilDone_chain (getAI env) rest first
                (ReplyFetch (Done fetched) :: ReplyBlob (Done blob)
                   :: ReplyString objectUrl :: script) Hp) as Hpoll.
  match goal with
  | |- exec (await_call _ ?k) _ _ =>
      pose proof (exec_await_call _ k _ _ _ _
                    (Returned
                       [CallFetch (template (downloadLink (last rest first)) ++ "&key="
                                   ++ template (API_KEY env));
                        CallResponseBlob fetched; CallCreateObjectURL blob]
                       (Done {| url := objectUrl;
                                promptText := or_else (text r1) fallbackPrompt |})
                       script)
                    Hpoll) as H
  end.
  rewrite after_Returned in H. apply H. clear H Hpoll.
  await_returned.
  await_returned.
  trigger_returned.
  apply exec_Ret.
Qed.

(** A status request that is rejected, after any number of pending
    statuses, rejects the function on the spot. *)
Lemma generateLessonPrompt_video_rejected env topic difficulty r1 first rest err script :
  all_pending first rest ->
  exec (generateLessonPrompt env topic difficulty video)
       (ReplyContent (Done r1) :: ReplyOperation (Done first)
          :: pollScript rest ++ ReplyVoid :: ReplyOperation (Thrown err) :: script)
       (Returned
          (CallGenerateContent (getAI env) (descriptionRequest topic difficulty)
             :: CallGenerateVideos (getAI env)
                  (videoRequest (or_else (text r1) fallbackPrompt))
             :: pollLog (getAI env) first rest
             ++ [CallSetTimeout 10000;
                 CallGetVideosOperation (getAI env) (last rest first)])
          (Thrown err) script).
Proof.
  intros Hp. unfold generateLessonPrompt.
  await_returned.
  await_returned.
  apply exec_await_call_thrown.
  pose proof (all_pending_last first rest Hp) as Hlast.
  pose proof (@pollUntilDone_pending_chain (getAI env) rest first _ _ Hp
                (pollUntilDone_rejected (getAI env) (last rest first) err script Hlast))
    as H.
  rewrite after_Returned in H. exact H.
Qed.

(** While every status reads pending, the function is in the delay
    before the next status request. *)
Lemma generateLessonPrompt_video_stalled env topic difficulty r1 first rest :
  all_pending first rest ->
  exec (generateLessonPrompt env topic difficulty video)
       (ReplyContent (Done r1) :: ReplyOperation (Done first) :: pollScript rest)
       (Pending
          (CallGenerateContent (getAI env) (descriptionRequest topic difficulty)
             :: CallGenerateVideos (getAI env)
                  (videoRequest (or_else (text r1) fallbackPrompt))
             :: pollLog (getAI env) first rest)
          (CallSetTimeout 10000)).
Proof.
  intros Hp. unfold generateLessonPrompt.
  await_pending.
  await_pending.
  apply exec_await_call_pending.
  pose proof (all_pending_last first rest Hp) as Hlast.
  pose proof (@pollUntilDone_pending_chain (getAI env) rest first [] _ Hp
                (pollUntilDone_waits (getAI env) (last rest first) Hlast)) as H.
  rewrite after_Pending, !app_nil_r in H. exact H.
Qed.

(** ** The evaluation, the speech request and the submit handler *)

Lemma evaluateDescription_run env userDescription originalPrompt difficulty resp script :
  exec (evaluateDescription env userDescription originalPrompt difficulty)
       (ReplyContent (Done resp) :: script)
       (Returned
          [CallGenerateContent (getAI env)
             (evaluationParameters userDescription originalPrompt difficulty)]
          (JSON_parse (units (or_else (text resp) "{}"))) script).
Proof.
  unfold evaluateDescription. await_returned. apply exec_Ret.
Qed.

Lemma evaluateDescription_rejected env userDescription originalPrompt difficulty
      err script :
  exec (evaluateDescription env userDescription originalPrompt difficulty)
       (ReplyContent (Thrown err) :: script)
       (Returned
          [CallGenerateContent (getAI env)
             (evaluationParameters userDescription originalPrompt difficulty)]
          (Thrown err) script).
Proof.
  unfold evaluateDescription. eapply exec_await_thrown. reflexivity.
Qed.

(** However its request settles, [evaluateDescription] returns: with the
    rejection, or with what [JSON.parse] makes of the text. *)
Lemma evaluateDescription_settles env userDescription originalPrompt difficulty
      settled script :
  exec (evaluateDescription env userDescription originalPrompt difficulty)
       (ReplyContent settled :: script)
       (Returned
          [CallGenerateContent (getAI env)
             (evaluationParameters userDescription originalPrompt difficulty)]
          (let! resp := settled in JSON_parse (units (or_else (text resp) "{}")))
          script).
Proof.
  destruct settled as [resp|err].
  - apply evaluateDescription_run.
  - apply evaluateDescription_rejected.
Qed.

(** The evaluation request: the model, the JSON configuration, and a
    text that gives the description of the prompt as the visual context,
    then the text of the user, then the level. *)
Lemma evaluation_request_text userDescription originalPrompt difficulty :
  let line := String (ascii_of_nat 10) "               " in
  let level :=
    match difficulty with
    | Intermediate => "B1 level (CEFR). Focus on phrasal verbs and descriptive adjectives."
    | Beginner => "Beginner level."
    | Advanced => "Advanced level."
    end in
  exists rest,
    evaluationParameters userDescription originalPrompt difficulty
    = {| model := "gemini-3-flash-preview";
         contents :=
           ContentsText
             ("Evaluate the following English description of a visual prompt."
                ++ line ++ "Visual Context: " ++ originalPrompt
                ++ line ++ "User Description: " ++ userDescription
                ++ line ++ "Target Level: " ++ level ++ rest);
         config := JsonConfig "application/json" feedbackSchema |}.
Proof.
  cbv zeta. destruct difficulty; eexists; reflexivity.
Qed.

Lemma generateSpeech_run env txt resp script :
  exec (generateSpeech env txt) (ReplyContent (Done resp) :: script)
       (Returned [CallGenerateContent (getAI env) (speechParameters txt)]
          (match firstPartInlineData resp with
           | Some (String c s) => Done (String c s)
           | Some EmptyString | None => Thrown NoAudioData
           end) script).
Proof.
  unfold generateSpeech. await_returned.
  destruct (firstPartInlineData resp) as [[|c s]|]; apply exec_Ret.
Qed.

Lemma recognition_run st script :
  exec (if st_isRecording st && st_hasRecognition st
        then ITree.trigger RecognitionStop else Ret tt)
       (recognitionReplies st ++ script)
       (Returned (recognitionCalls st) tt script).
Proof.
  unfold recognitionReplies, recognitionCalls.
  destruct (st_isRecording st && st_hasRecognition st); simpl.
  - now apply exec_trigger.
  - apply exec_Ret.
Qed.

(** A submission whose evaluation parses: the new item is put in front
    of the history, with the parsed value as its feedback. *)
Lemma handleSubmitDescription_stores env st currentPrompt resp result id now :
  st_currentPrompt st = Some currentPrompt ->
  trims_to_empty (st_userText st) = false ->
  JSON_parse (units (or_else (text resp) "{}")) = Done result ->
  exec (handleSubmitDescription env st)
       (recognitionReplies st ++ [ReplyContent (Done resp); ReplyString id; ReplyNumber now])
       (Returned
          (recognitionCalls st ++
           [CallGenerateContent (getAI env)
              (evaluationParameters (st_userText st) (lp_description currentPrompt)
                 (st_difficulty st))] ++ [CallRandomId; CallDateNow] ++ [])
          (submittedState st
             {| item_id := id; item_prompt := currentPrompt;
                item_userDescription := st_userText st; item_feedback := result;
                item_timestamp := now |})
          []).
Proof.
  intros Hprompt Htrim Hparse.
  unfold handleSubmitDescription. rewrite Hprompt, Htrim.
  eapply exec_bind_returned; [apply recognition_run|].
  eapply exec_bind_returned; [apply evaluateDescription_run|].
  rewrite Hparse.
  eapply exec_bind_returned.
  - trigger_returned. trigger_returned. apply exec_Ret.
  - apply exec_Ret.
Qed.

(** A submission whose evaluation fails to parse, or is rejected: the
    error is reported and the history is as it was. *)
Lemma handleSubmitDescription_fails env st currentPrompt settled err :
  st_currentPrompt st = Some currentPrompt ->
  trims_to_empty (st_userText st) = false ->
  (settled = Thrown err \/
   exists resp, settled = Done resp /\
                JSON_parse (units (or_else (text resp) "{}")) = Thrown err) ->
  exec (handleSubmitDescription env st)
       (recognitionReplies st ++ [ReplyContent settled; ReplyVoid; ReplyVoid])
       (Returned
          (recognitionCalls st ++
           [CallGenerateContent (getAI env)
              (evaluationParameters (st_userText st) (lp_description currentPrompt)
                 (st_difficulty st))] ++
           [CallConsoleError err; CallAlert "Evaluation failed. Please try again."] ++ [])
          (failedState st) []).
Proof.
  intros Hprompt Htrim Hfail.
  unfold handleSubmitDescription. rewrite Hprompt, Htrim.
  eapply exec_bind_returned; [apply recognition_run|].
  assert (Heval : exec (evaluateDescription env (st_userText st)
                          (lp_description currentPrompt) (st_difficulty st))
                       [ReplyContent settled; ReplyVoid; ReplyVoid]
                       (Returned
                          [CallGenerateContent (getAI env)
                             (evaluationParameters (st_userText st)
                                (lp_description currentPrompt) (st_difficulty st))]
                          (Thrown err) [ReplyVoid; ReplyVoid])).
  { destruct Hfail as [-> | (resp & -> & Hparse)].
    - apply evaluateDescription_rejected.
    - pose proof (evaluateDescription_run env (st_userText st)
                    (lp_description currentPrompt) (st_difficulty st) resp
                    [ReplyVoid; ReplyVoid]) as H.
      rewrite Hparse in H. exact H. }
  eapply exec_bind_returned; [exact Heval|].
  eapply exec_bind_returned.
  - trigger_returned. trigger_returned. apply exec_Ret.
  - apply exec_Ret.
Qed.

(** Without a prompt, or with a blank text, the handler returns at once. *)
Lemma handleSubmitDescription_guard env st script :
  st_currentPrompt st = None \/ trims_to_empty (st_userText st) = true ->
  exec (handleSubmitDescription env st) script (Returned [] st script).
Proof.
  intros H. unfold handleSubmitDescription.
  destruct (st_currentPrompt st) as [p|]; [|apply exec_Ret].
  destruct H as [H|H]; [discriminate|]. rewrite H. apply exec_Ret.
Qed.

(** * [JSON.parse] and the grammar of JSON *)

(** Decide the comparisons of code units that a goal tests. *)
Ltac units_cases :=
  repeat match goal with
         | |- context [?a =? ?b] => destruct (Z.eqb_spec a b); try lia
         | |- context [?a <=? ?b] => destruct (Z.leb_spec a b); try lia
         | |- context [?a <? ?b] => destruct (Z.ltb_spec a b); try lia
         end.

(** Unfold the lengths of a hypothesis on a text put together. *)
Ltac lengths H :=
  repeat (progress (rewrite ?length_app in H; cbn [length] in H)).

(** ** White space *)

Lemma is_json_ws_spec (c : Z) : is_json_ws c = true <-> ws_unit c.
Proof.
  unfold is_json_ws, ws_unit. rewrite !orb_true_iff, !Z.eqb_eq. tauto.
Qed.

Lemma skip_ws_app (w s : list Z) : json_ws w -> skip_ws (w ++ s)%list = skip_ws s.
Proof.
  induction 1 as [|c w Hc _ IH]; [reflexivity|].
  simpl. apply is_json_ws_spec in Hc. now rewrite Hc.
Qed.

Lemma skip_ws_all (w : list Z) : json_ws w -> skip_ws w = [].
Proof.
  intros H. rewrite <- (app_nil_r w). now rewrite skip_ws_app.
Qed.

Lemma skip_ws_stop (c : Z) (r : list Z) :
  is_json_ws c = false -> skip_ws (c :: r) = c :: r.
Proof. intros H. simpl. now rewrite H. Qed.

Lemma skip_ws_spec (s : list Z) :
  exists w, json_ws w /\ s = (w ++ skip_ws s)%list.
Proof.
  induction s as [|c s (w & Hw & IH)]; [exists []; split; [constructor|reflexivity]|].
  simpl. destruct (is_json_ws c) eqn:E.
  - exists (c :: w). split; [constructor; [now apply is_json_ws_spec|exact Hw]|].
    simpl. now rewrite <- IH.
  - exists []. split; [constructor|reflexivity].
Qed.

Lemma skip_ws_nil_ws (s : list Z) : skip_ws s = [] -> json_ws s.
Proof.
  intros H. destruct (skip_ws_spec s) as (w & Hw & E).
  rewrite H, app_nil_r in E. now subst.
Qed.

(** ** Strings *)

Lemma hex_value_spec (c a : Z) : hex_value c = Some a <-> json_hex c a.
Proof.
  unfold hex_value. split.
  - intros H.
    repeat match type of H with
           | context [?x <=? ?y] => destruct (Z.leb_spec x y); simpl in H
           end;
      try discriminate; inversion H; subst; constructor; lia.
  - intros H. inversion H; subst; units_cases; reflexivity.
Qed.

Lemma escape_value_spec (e u : Z) : escape_value e = Some u <-> json_escape e u.
Proof.
  unfold escape_value. split.
  - repeat match goal with
           | |- context [e =? ?k] => destruct (Z.eqb_spec e k); [subst|]
           end;
      intros H; inversion H; constructor.
  - intros H. inversion H; reflexivity.
Qed.

Lemma json_escape_not_u (e u : Z) : json_escape e u -> e <> 117.
Proof. intros H. inversion H; lia. Qed.

(** The parser reads every string of the grammar. *)
Lemma read_string_complete (text s : list Z) :
  json_characters text s ->
  forall rest, read_string (text ++ 34 :: rest)%list = Some (s, rest).
Proof.
  induction 1 as [|c text s H32 H34 H92 _ IH|e u text s He _ IH
                  |h1 h2 h3 h4 a b c d text s H1 H2 H3 H4 _ IH]; intros rest.
  - reflexivity.
  - cbn [read_string app]. units_cases. now rewrite IH.
  - cbn [read_string app]. change (92 =? 34) with false. change (92 =? 92) with true.
    cbv iota. pose proof (json_escape_not_u _ _ He).
    apply escape_value_spec in He. units_cases. now rewrite He, IH.
  - cbn [read_string app]. change (92 =? 34) with false. change (92 =? 92) with true.
    change (117 =? 117) with true. cbv iota.
    apply hex_value_spec in H1, H2, H3, H4. rewrite H1, H2, H3, H4, IH.
    do 3 f_equal. lia.
Qed.

(** What the parser reads as a string is one of the grammar. *)
Lemma read_string_sound (n : nat) :
  forall x s rest,
    (length x <= n)%nat ->
    read_string x = Some (s, rest) ->
    exists text, json_characters text s /\ x = (text ++ 34 :: rest)%list.
Proof.
  induction n as [|n IH]; intros x s rest Hlen Hread.
  - destruct x; [discriminate|simpl in Hlen; lia].
  - destruct x as [|c r]; [discriminate|]. simpl in Hlen.
    cbn [read_string] in Hread.
    destruct (Z.eqb_spec c 34) as [->|H34].
    { inversion Hread; subst. exists []. split; [constructor|reflexivity]. }
    destruct (Z.eqb_spec c 92) as [->|H92].
    + destruct r as [|e r']; [discriminate|].
      destruct (Z.eqb_spec e 117) as [->|He].
      * destruct r' as [|h1 [|h2 [|h3 [|h4 r'']]]]; try discriminate.
        destruct (hex_value h1) as [a|] eqn:E1; [|discriminate].
        destruct (hex_value h2) as [b|] eqn:E2; [|discriminate].
        destruct (hex_value h3) as [c'|] eqn:E3; [|discriminate].
        destruct (hex_value h4) as [d|] eqn:E4; [|discriminate].
        destruct (read_string r'') as [[str rest']|] eqn:Er; [|discriminate].
        inversion Hread; subst.
        destruct (IH r'' str rest ltac:(simpl in Hlen; lia) Er) as (text & Ht & ->).
        exists (92 :: 117 :: h1 :: h2 :: h3 :: h4 :: text). split; [|reflexivity].
        replace (((a * 16 + b) * 16 + c') * 16 + d)
          with (4096 * a + 256 * b + 16 * c' + d) by lia.
        apply hex_value_spec in E1, E2, E3, E4. now constructor.
      * destruct (escape_value e) as [u|] eqn:Ee; [|discriminate].
        destruct (read_string r') as [[str rest']|] eqn:Er; [|discriminate].
        inversion Hread; subst.
        destruct (IH r' str rest ltac:(simpl in Hlen; lia) Er) as (text & Ht & ->).
        exists (92 :: e :: text). split; [|reflexivity].
        apply escape_value_spec in Ee. now constructor.
    + destruct (Z.ltb_spec c 32) as [|H32]; [discriminate|].
      destruct (read_string r) as [[str rest']|] eqn:Er; [|discriminate].
      inversion Hread; subst.
      destruct (IH r str rest ltac:(lia) Er) as (text & Ht & ->).
      exists (c :: text). split; [|reflexivity]. now constructor.
Qed.

(** ** Numbers *)

Lemma is_digit_spec (c : Z) : is_digit c = true <-> 48 <= c <= 57.
Proof. unfold is_digit. rewrite andb_true_iff, !Z.leb_le. tauto. Qed.

Lemma digits_value_snoc (ds : list Z) (c : Z) :
  digits_value (ds ++ [c]) = 10 * digits_value ds + (c - 48).
Proof. unfold digits_value. rewrite fold_left_app. cbn [fold_left]. lia. Qed.

(** The digits of the grammar are the runs of digits that are not
    empty, with the value they write. *)
Lemma json_digits_spec (ds : list Z) (n : Z) :
  json_digits ds n <->
  ds <> [] /\ Forall (fun c => is_digit c = true) ds /\ n = digits_value ds.
Proof.
  split.
  - induction 1 as [c Hc|ds n c _ (Hne & Hall & Hn) Hc].
    + split; [discriminate|]. split; [|reflexivity].
      constructor; [now apply is_digit_spec|constructor].
    + split; [now destruct ds|]. split.
      * apply Forall_app. split; [exact Hall|].
        constructor; [now apply is_digit_spec|constructor].
      * rewrite digits_value_snoc. now subst.
  - revert n. induction ds as [|c ds IH] using rev_ind; intros n (Hne & Hall & ->).
    + congruence.
    + apply Forall_app in Hall. destruct Hall as [Hds Hc].
      inversion Hc as [|? ? Hc' _]; subst. apply is_digit_spec in Hc'.
      rewrite digits_value_snoc. destruct ds as [|x ds'].
      * now constructor.
      * constructor; [|exact Hc']. apply IH. split; [discriminate|]. now split.
Qed.

Lemma read_digits_app (ds r : list Z) :
  Forall (fun c => is_digit c = true) ds ->
  stops_digits r ->
  forall acc count,
    read_digits (ds ++ r) acc count
    = (fold_left (fun acc c => acc * 10 + (c - 48)) ds acc,
       count + Z.of_nat (length ds), r).
Proof.
  intros Hds Hr. induction Hds as [|c ds Hc _ IH]; intros acc count.
  - simpl. rewrite Z.add_0_r. destruct r as [|x r]; [reflexivity|].
    simpl in *. now rewrite Hr.
  - cbn [app read_digits]. rewrite Hc, IH. cbn [fold_left length].
    do 2 f_equal. lia.
Qed.

Lemma read_digits_split (s : list Z) :
  forall acc count,
  exists ds r,
    s = (ds ++ r)%list /\
    Forall (fun c => is_digit c = true) ds /\
    stops_digits r /\
    read_digits s acc count
    = (fold_left (fun acc c => acc * 10 + (c - 48)) ds acc,
       count + Z.of_nat (length ds), r).
Proof.
  induction s as [|c s IH]; intros acc count.
  - exists [], []. simpl. rewrite Z.add_0_r. repeat split; constructor.
  - cbn [read_digits]. destruct (is_digit c) eqn:Ec.
    + destruct (IH (acc * 10 + (c - 48)) (count + 1)) as (ds & r & -> & Hds & Hr & E).
      exists (c :: ds), r. split; [reflexivity|]. split; [now constructor|].
      split; [exact Hr|]. rewrite E. cbn [fold_left length]. do 2 f_equal. lia.
    + exists [], (c :: s). simpl. rewrite Z.add_0_r. repeat split; auto.
Qed.

Lemma stops_digits_of_number_stops (rest : list Z) :
  number_stops rest -> stops_digits rest.
Proof. destruct rest; simpl; tauto. Qed.

(** The integer part. *)
Lemma read_int_complete (int r : list Z) (i : Z) :
  json_digits int i ->
  int = [48] \/ hd 0 int <> 48 ->
  stops_digits r ->
  read_int (int ++ r) = Some (i, r).
Proof.
  intros Hint Hzero Hr. apply json_digits_spec in Hint. destruct Hint as (Hne & Hds & ->).
  unfold read_int. rewrite (read_digits_app int r Hds Hr 0 0).
  destruct int as [|c more]; [congruence|].
  cbn [app length]. rewrite Z.add_0_l.
  destruct (Z.eqb_spec (Z.of_nat (S (length more))) 0) as [|_]; [lia|].
  cbn [orb].
  destruct Hzero as [E|Hhd].
  - inversion E; subst. reflexivity.
  - simpl in Hhd. destruct (Z.eqb_spec c 48); [contradiction|]. reflexivity.
Qed.

Lemma read_int_sound (s r : list Z) (i : Z) :
  read_int s = Some (i, r) ->
  exists int,
    s = (int ++ r)%list /\ json_digits int i /\
    (int = [48] \/ hd 0 int <> 48) /\ stops_digits r.
Proof.
  unfold read_int.
  destruct (read_digits_split s 0 0) as (ds & r' & -> & Hds & Hr & E).
  rewrite E. rewrite Z.add_0_l.
  destruct (Z.eqb_spec (Z.of_nat (length ds)) 0) as [|Hn]; [discriminate|].
  cbn [orb]. destruct ds as [|c more]; [simpl in Hn; lia|].
  cbn [app].
  destruct (Z.eqb_spec c 48) as [->|Hc]; cbn [andb].
  - destruct (Z.ltb_spec 1 (Z.of_nat (length (48 :: more)))) as [|Hone];
      [discriminate|].
    intros H. inversion H; subst.
    destruct more; [|simpl in Hone; lia].
    exists [48]. split; [reflexivity|]. split; [|split; [now left|exact Hr]].
    apply json_digits_spec. split; [discriminate|]. split; [exact Hds|reflexivity].
  - intros H. inversion H; subst.
    exists (c :: more). split; [reflexivity|]. split; [|split; [now right|exact Hr]].
    apply json_digits_spec. split; [discriminate|]. split; [exact Hds|reflexivity].
Qed.

(** The fraction. *)
Lemma read_fraction_complete (frac fd r : list Z) (i : Z) :
  json_fraction frac fd ->
  match frac, r with [], c :: _ => c <> 46 | _, _ => True end ->
  stops_digits r ->
  read_fraction i (frac ++ r)
  = Some (fold_left (fun acc c => acc * 10 + (c - 48)) fd i,
          Z.of_nat (length fd), r).
Proof.
  intros Hfrac Hnext Hr. destruct Hfrac as [|ds n Hds].
  - simpl. destruct r as [|c r']; [reflexivity|].
    simpl in Hnext.
    cbn [read_fraction]. destruct (Z.eqb_spec c 46); [contradiction|reflexivity].
  - apply json_digits_spec in Hds. destruct Hds as (Hne & Hall & _).
    cbn [app read_fraction]. change (46 =? 46) with true. cbv iota.
    rewrite (read_digits_app ds r Hall Hr i 0). rewrite Z.add_0_l.
    destruct (Z.eqb_spec (Z.of_nat (length ds)) 0) as [E|_]; [|reflexivity].
    destruct ds; [congruence|simpl in E; lia].
Qed.

Lemma read_fraction_sound (s r : list Z) (i m n_frac : Z) :
  read_fraction i s = Some (m, n_frac, r) ->
  exists frac fd,
    s = (frac ++ r)%list /\ json_fraction frac fd /\
    m = fold_left (fun acc c => acc * 10 + (c - 48)) fd i /\
    n_frac = Z.of_nat (length fd) /\
    Forall (fun c => is_digit c = true) fd.
Proof.
  unfold read_fraction. destruct s as [|c s'].
  - intros H. inversion H; subst. exists [], []. repeat split; constructor.
  - destruct (Z.eqb_spec c 46) as [->|Hc].
    + destruct (read_digits_split s' i 0) as (ds & r' & -> & Hds & Hr & E).
      rewrite E, Z.add_0_l.
      destruct (Z.eqb_spec (Z.of_nat (length ds)) 0) as [|Hn]; [discriminate|].
      intros H. inversion H; subst.
      exists (46 :: ds), ds. split; [reflexivity|]. split; [|auto].
      apply (@fraction_digits ds (digits_value ds)). apply json_digits_spec.
      split; [|auto]. destruct ds; [simpl in Hn; lia|discriminate].
    + intros H. inversion H; subst. exists [], []. repeat split; constructor.
Qed.

(** The exponent. *)
Lemma read_exponent_complete (exp r : list Z) (e : Z) :
  json_exponent exp e ->
  match exp, r with [], c :: _ => c <> 101 /\ c <> 69 | _, _ => True end ->
  stops_digits r ->
  read_exponent (exp ++ r) = Some (e, r).
Proof.
  intros Hexp Hnext Hr.
  assert (Hrun : forall ds n,
             json_digits ds n ->
             read_digits (ds ++ r) 0 0 = (n, Z.of_nat (length ds), r) /\
             (Z.of_nat (length ds) =? 0) = false /\
             exists c more, ds = c :: more /\ is_digit c = true).
  { intros ds n Hds. apply json_digits_spec in Hds. destruct Hds as (Hne & Hall & ->).
    rewrite (read_digits_app ds r Hall Hr 0 0), Z.add_0_l.
    split; [reflexivity|]. destruct ds as [|c more]; [congruence|].
    split; [apply Z.eqb_neq; simpl; lia|].
    exists c, more. split; [reflexivity|]. now inversion Hall. }
  assert (Hletter : forall x, x = 101 \/ x = 69 -> (x =? 101) || (x =? 69) = true).
  { intros x [-> | ->]; reflexivity. }
  destruct Hexp as [|x ds n Hx Hds|x ds n Hx Hds|x ds n Hx Hds].
  - simpl. destruct r as [|c r']; [reflexivity|].
    simpl in Hnext. destruct Hnext as (H101 & H69).
    cbn [read_exponent].
    destruct (Z.eqb_spec c 101); [contradiction|].
    destruct (Z.eqb_spec c 69); [contradiction|]. reflexivity.
  - destruct (Hrun ds n Hds) as (Erun & Ezero & c & more & -> & Hc).
    cbn [app read_exponent]. rewrite (Hletter x Hx).
    apply is_digit_spec in Hc.
    destruct (Z.eqb_spec c 45); [lia|]. destruct (Z.eqb_spec c 43); [lia|].
    change (c :: (more ++ r)%list) with ((c :: more) ++ r)%list.
    rewrite Erun, Ezero. repeat f_equal; lia.
  - destruct (Hrun ds n Hds) as (Erun & Ezero & _).
    cbn [app read_exponent]. rewrite (Hletter x Hx).
    change (43 =? 45) with false. change (43 =? 43) with true. cbv iota.
    rewrite Erun, Ezero. repeat f_equal; lia.
  - destruct (Hrun ds n Hds) as (Erun & Ezero & _).
    cbn [app read_exponent]. rewrite (Hletter x Hx).
    change (45 =? 45) with true. cbv iota.
    rewrite Erun, Ezero. repeat f_equal; lia.
Qed.

Lemma read_exponent_sound (s r : list Z) (e : Z) :
  read_exponent s = Some (e, r) ->
  exists exp, s = (exp ++ r)%list /\ json_exponent exp e /\
              (exp = [] \/ stops_digits r).
Proof.
  unfold read_exponent. destruct s as [|c s'].
  - intros H. inversion H; subst. exists []. repeat split; [constructor|now left].
  - destruct ((c =? 101) || (c =? 69)) eqn:Ec.
    + assert (Hc : c = 101 \/ c = 69).
      { apply orb_true_iff in Ec. rewrite !Z.eqb_eq in Ec. exact Ec. }
      assert (Hrun : forall t sign,
                 (let '(e, n_e, rest) := read_digits t 0 0 in
                  if n_e =? 0 then None else Some (sign * e, rest)) = Some (e, r) ->
                 exists ds n, t = (ds ++ r)%list /\ json_digits ds n /\
                              e = sign * n /\ stops_digits r).
      { intros t sign.
        destruct (read_digits_split t 0 0) as (ds & r' & -> & Hds & Hr & E).
        rewrite E, Z.add_0_l.
        destruct (Z.eqb_spec (Z.of_nat (length ds)) 0) as [|Hn]; [discriminate|].
        intros H. inversion H; subst.
        exists ds, (digits_value ds). split; [reflexivity|]. split; [|auto].
        apply json_digits_spec. split; [|auto].
        destruct ds; [simpl in Hn; lia|discriminate]. }
      destruct s' as [|x r'].
      * intros H. destruct (Hrun [] 1 H) as (ds & n & E & Hds & _).
        destruct ds; [|discriminate].
        apply json_digits_spec in Hds. destruct Hds as (Hne & _). congruence.
      * destruct (Z.eqb_spec x 45) as [->|H45].
        { intros H. destruct (Hrun r' (-1) H) as (ds & n & -> & Hds & -> & Hr).
          exists (c :: 45 :: ds). split; [reflexivity|]. split; [|now right].
          replace (-1 * n) with (- n) by lia. now constructor. }
        destruct (Z.eqb_spec x 43) as [->|H43].
        { intros H. destruct (Hrun r' 1 H) as (ds & n & -> & Hds & -> & Hr).
          exists (c :: 43 :: ds). split; [reflexivity|]. split; [|now right].
          replace (1 * n) with n by lia. now constructor. }
        intros H. destruct (Hrun (x :: r') 1 H) as (ds & n & E & Hds & -> & Hr).
        exists (c :: ds). split; [simpl; now rewrite E|]. split; [|now right].
        replace (1 * n) with n by lia. now constructor.
    + intros H. inversion H; subst. exists []. repeat split; [constructor|now left].
Qed.

(** The parser reads every number of the grammar, when what follows
    cannot be taken for more of it. *)
Lemma read_number_complete (text : list Z) (d : double) :
  json_number text d ->
  forall rest, number_stops rest ->
  read_number (text ++ rest) = Some (d, rest).
Proof.
  intros H rest Hrest.
  destruct H as [minus negative int i frac fd m exp e Hminus Hint Hzero Hfrac Hm Hexp].
  pose proof (stops_digits_of_number_stops rest Hrest) as Hrest'.
  assert (Hc : exists c more, int = c :: more /\ 48 <= c <= 57).
  { apply json_digits_spec in Hint. destruct Hint as (Hne & Hall & _).
    destruct int as [|c more]; [congruence|]. exists c, more. split; [reflexivity|].
    apply is_digit_spec. now inversion Hall. }
  assert (Hexp_head : stops_digits (exp ++ rest)).
  { destruct Hexp as [|x ds n [-> | ->] _|x ds n [-> | ->] _|x ds n [-> | ->] _];
      try exact Hrest'; reflexivity. }
  assert (Hfrac_head : stops_digits (frac ++ exp ++ rest)).
  { destruct Hfrac; [exact Hexp_head|reflexivity]. }
  unfold read_number.
  replace (read_minus ((minus ++ int ++ frac ++ exp) ++ rest))
    with (negative, (int ++ frac ++ exp ++ rest)%list).
  2:{ destruct Hc as (c & more & -> & Hc).
      destruct Hminus as [[-> ->]|[-> ->]]; rewrite <- !app_assoc.
      - cbn [app read_minus]. destruct (Z.eqb_spec c 45); [lia|reflexivity].
      - reflexivity. }
  rewrite (read_int_complete int (frac ++ exp ++ rest) i Hint Hzero Hfrac_head).
  rewrite (read_fraction_complete frac fd (exp ++ rest) i Hfrac).
  - rewrite (read_exponent_complete exp rest e Hexp).
    + do 3 f_equal. apply json_digits_spec in Hint, Hm.
      destruct Hint as (_ & _ & ->). destruct Hm as (_ & _ & ->).
      unfold digits_value. now rewrite fold_left_app.
    + destruct exp; [|exact I]. destruct rest; [exact I|]. simpl in Hrest. tauto.
    + exact Hrest'.
  - destruct frac; [|exact I].
    destruct Hexp as [|x ds n [-> | ->] _|x ds n [-> | ->] _|x ds n [-> | ->] _];
      cbn [app]; try lia.
    destruct rest; [exact I|]. simpl in Hrest. tauto.
  - exact Hexp_head.
Qed.

(** What the parser reads as a number is one of the grammar. *)
Lemma read_number_sound (s r : list Z) (d : double) :
  read_number s = Some (d, r) ->
  exists text, json_number text d /\ s = (text ++ r)%list.
Proof.
  unfold read_number.
  destruct (read_minus s) as [negative s1] eqn:Emin.
  destruct (read_int s1) as [[i s2]|] eqn:Eint; [|discriminate].
  destruct (read_fraction i s2) as [[[m n_frac] s3]|] eqn:Efrac; [|discriminate].
  destruct (read_exponent s3) as [[e s4]|] eqn:Eexp; [|discriminate].
  intros H. inversion H; subst. clear H.
  destruct (read_int_sound _ _ _ Eint) as (int & -> & Hint & Hzero & _).
  destruct (read_fraction_sound _ _ _ _ _ Efrac) as (frac & fd & -> & Hfrac & -> & -> & Hfd).
  destruct (read_exponent_sound _ _ _ Eexp) as (exp & -> & Hexp & _).
  assert (Hm : json_digits (int ++ fd)
                 (fold_left (fun acc c => acc * 10 + (c - 48)) fd i)).
  { apply json_digits_spec in Hint. destruct Hint as (Hne & Hall & ->).
    apply json_digits_spec. split; [now destruct int|]. split.
    - apply Forall_app. now split.
    - unfold digits_value. now rewrite fold_left_app. }
  assert (Hmin : exists minus,
             s = (minus ++ int ++ frac ++ exp ++ r)%list /\
             ((minus = [] /\ negative = false) \/ (minus = [45] /\ negative = true))).
  { unfold read_minus in Emin. destruct s as [|c s'].
    - inversion Emin; subst. exists []. split; [reflexivity|now left].
    - destruct (Z.eqb_spec c 45) as [->|Hc]; inversion Emin; subst.
      + exists [45]. split; [reflexivity|now right].
      + exists []. split; [reflexivity|now left]. }
  destruct Hmin as (minus & -> & Hminus).
  exists (minus ++ int ++ frac ++ exp)%list. split.
  - exact (number_literal Hminus Hint Hzero Hfrac Hm Hexp).
  - now rewrite <- !app_assoc.
Qed.

(** ** Values *)

Scheme json_value_mut := Minimality for json_value Sort Prop
  with json_elements_mut := Minimality for json_elements Sort Prop
  with json_members_mut := Minimality for json_members Sort Prop.

Combined Scheme json_grammar_ind
  from json_value_mut, json_elements_mut, json_members_mut.

Lemma ws_unit_cases (c : Z) :
  ws_unit c ->
  is_digit c = false /\ c <> 46 /\ c <> 101 /\ c <> 69 /\ c <> 44 /\ c <> 93 /\
  c <> 125 /\ c <> 34 /\ c <> 58.
Proof. unfold ws_unit, is_digit. intros H. repeat split; units_cases; lia. Qed.

Lemma number_stops_ws (w rest : list Z) (c : Z) :
  json_ws w -> c = 44 \/ c = 93 \/ c = 125 -> number_stops (w ++ c :: rest).
Proof.
  intros Hw Hc. destruct Hw as [|x w Hx _]; simpl.
  - unfold is_digit. repeat split; units_cases; lia.
  - pose proof (ws_unit_cases x Hx). tauto.
Qed.

Lemma number_stops_end (w : list Z) : json_ws w -> number_stops w.
Proof.
  intros Hw. destruct Hw as [|x w Hx _]; simpl; [exact I|].
  pose proof (ws_unit_cases x Hx). tauto.
Qed.

Lemma skip_ws_to (w rest : list Z) (c : Z) :
  json_ws w -> is_json_ws c = false -> skip_ws (w ++ c :: rest) = c :: rest.
Proof. intros Hw Hc. rewrite (skip_ws_app w _ Hw). now apply skip_ws_stop. Qed.

Lemma starts_with_complete (p rest : list Z) : starts_with p (p ++ rest) = Some rest.
Proof.
  induction p as [|a p IH]; [now destruct rest|].
  cbn [app starts_with]. now rewrite Z.eqb_refl.
Qed.

Lemma starts_with_sound (p s rest : list Z) :
  starts_with p s = Some rest -> s = (p ++ rest)%list.
Proof.
  revert s. induction p as [|a p IH]; intros s.
  - destruct s; intros H; now inversion H.
  - destruct s as [|b s]; [discriminate|]. cbn [starts_with].
    destruct (Z.eqb_spec a b) as [->|]; [|discriminate].
    intros H. cbn [app]. now rewrite (IH s H).
Qed.

(** A number starts with a minus or a digit. *)
Lemma json_number_head (text : list Z) (d : double) :
  json_number text d ->
  exists c r, text = c :: r /\ (c = 45 \/ 48 <= c <= 57).
Proof.
  intros H.
  destruct H as [minus negative int i frac fd m exp e Hminus Hint _ _ _ _].
  apply json_digits_spec in Hint. destruct Hint as (Hne & Hall & _).
  destruct int as [|c more]; [congruence|].
  destruct Hminus as [[-> _]|[-> _]].
  - exists c. eexists. split; [reflexivity|]. right.
    apply is_digit_spec. now inversion Hall.
  - exists 45. eexists. split; [reflexivity|now left].
Qed.

(** How a value starts: with nothing a parser takes for white space, a
    comma or a closing bracket. *)
Lemma json_value_head (text : list Z) (v : json) :
  json_value text v ->
  exists c r, text = c :: r /\ is_json_ws c = false /\ c <> 93 /\ c <> 125.
Proof.
  intros H. destruct H as [| | |text d Hn|? ? _|? _|? ? _|? _|? ? _];
    try (eexists; eexists; split; [reflexivity|];
         split; [reflexivity|split; discriminate]).
  destruct (json_number_head text d Hn) as (c & r & -> & Hc).
  exists c, r. split; [reflexivity|]. unfold is_json_ws.
  repeat split; units_cases; lia.
Qed.

Lemma json_grammar_lengths :
  (forall text v, json_value text v -> (1 <= length text)%nat) /\
  (forall text vs, json_elements text vs -> (length vs <= length text)%nat) /\
  (forall text ms, json_members text ms -> (length ms <= length text)%nat).
Proof.
  apply json_grammar_ind; intros;
    try match goal with
        | Hn : json_number _ _ |- _ =>
            destruct (json_number_head _ _ Hn) as (c & r & -> & _)
        end;
    repeat (rewrite ?length_app; cbn [length]); try lia; simpl; lia.
Qed.

(** The text of the elements or members of a bracket, after white
    space, does not start with the closing bracket. *)
Lemma json_elements_head (text : list Z) (vs : list json) (tail : list Z) :
  json_elements text vs ->
  exists c r, skip_ws (text ++ tail) = c :: r /\ c <> 93.
Proof.
  intros H.
  assert (Hstart : exists w1 t v more,
             json_ws w1 /\ json_value t v /\ text = (w1 ++ t ++ more)%list).
  { destruct H as [w1 t v w2 H1 Hv _|w1 t v w2 rest vs' H1 Hv _ _].
    - exists w1, t, v, w2. auto.
    - exists w1, t, v, (w2 ++ 44 :: rest)%list. auto. }
  destruct Hstart as (w1 & t & v & more & H1 & Hv & ->).
  destruct (json_value_head t v Hv) as (c & r & -> & Hc & H93 & _).
  exists c, (r ++ more ++ tail)%list. split; [|exact H93].
  rewrite <- !app_assoc. cbn [app]. now apply skip_ws_to.
Qed.

Lemma json_members_head (text : list Z) (ms : list (list Z * json)) (tail : list Z) :
  json_members text ms ->
  exists r, skip_ws (text ++ tail) = 34 :: r.
Proof.
  intros H.
  destruct H as [w1 key k w2 w3 t v w4 H1 _ _ _ _ _
                |w1 key k w2 w3 t v w4 rest ms' H1 _ _ _ _ _ _];
    eexists; rewrite <- !app_assoc; cbn [app]; now apply skip_ws_to.
Qed.

(** The parser reads every value of the grammar, with white space
    before it, when its budget is more than the length of the value and
    what follows cannot be taken for more of a number. *)
Lemma parse_complete :
  (forall text v,
     json_value text v ->
     forall budget w rest,
       (length text < budget)%nat -> json_ws w -> number_stops rest ->
       parse_value budget (w ++ text ++ rest) = Some (v, rest)) /\
  (forall text vs,
     json_elements text vs ->
     forall budget n rest,
       (length text < budget)%nat -> (length vs <= n)%nat ->
       parse_elements (parse_value budget) n (text ++ 93 :: rest) = Some (vs, rest)) /\
  (forall text ms,
     json_members text ms ->
     forall budget n rest,
       (length text < budget)%nat -> (length ms <= n)%nat ->
       parse_members (parse_value budget) n (text ++ 125 :: rest) = Some (ms, rest)).
Proof.
  apply json_grammar_ind.
  - (* null *)
    intros budget w rest Hb Hw _. destruct budget as [|b]; [simpl in Hb; lia|].
    change (units "null") with [110; 117; 108; 108].
    cbn [parse_value app]. rewrite (skip_ws_to w _ 110 Hw eq_refl).
    reflexivity.
  - (* true *)
    intros budget w rest Hb Hw _. destruct budget as [|b]; [simpl in Hb; lia|].
    change (units "true") with [116; 114; 117; 101].
    cbn [parse_value app]. rewrite (skip_ws_to w _ 116 Hw eq_refl).
    reflexivity.
  - (* false *)
    intros budget w rest Hb Hw _. destruct budget as [|b]; [simpl in Hb; lia|].
    change (units "false") with [102; 97; 108; 115; 101].
    cbn [parse_value app]. rewrite (skip_ws_to w _ 102 Hw eq_refl).
    reflexivity.
  - (* number *)
    intros text d Hn budget w rest Hb Hw Hrest.
    destruct budget as [|b]; [simpl in Hb; lia|].
    pose proof (read_number_complete text d Hn rest Hrest) as Hread.
    destruct (json_number_head text d Hn) as (c & r & -> & Hc).
    cbn [parse_value app] in *.
    assert (Hws : is_json_ws c = false) by (unfold is_json_ws; units_cases; lia).
    rewrite (skip_ws_to w _ c Hw Hws).
    destruct (Z.eqb_spec c 123); [lia|]. destruct (Z.eqb_spec c 91); [lia|].
    destruct (Z.eqb_spec c 34); [lia|]. destruct (Z.eqb_spec c 116); [lia|].
    destruct (Z.eqb_spec c 102); [lia|]. destruct (Z.eqb_spec c 110); [lia|].
    now rewrite Hread.
  - (* string *)
    intros text s Hs budget w rest Hb Hw _.
    destruct budget as [|b]; [simpl in Hb; lia|].
    cbn [parse_value app]. rewrite (skip_ws_to w _ 34 Hw eq_refl).
    cbn - [read_string]. rewrite <- app_assoc. cbn [app].
    now rewrite (read_string_complete text s Hs rest).
  - (* empty array *)
    intros w' Hw' budget w rest Hb Hw _.
    destruct budget as [|b]; [simpl in Hb; lia|].
    cbn [parse_value app]. rewrite (skip_ws_to w _ 91 Hw eq_refl).
    cbn - [skip_ws]. rewrite <- app_assoc. cbn [app].
    now rewrite (skip_ws_to w' _ 93 Hw' eq_refl).
  - (* array *)
    intros text vs Hels IH budget w rest Hb Hw _.
    destruct budget as [|b]; [simpl in Hb; lia|].
    cbn [parse_value app]. rewrite (skip_ws_to w _ 91 Hw eq_refl).
    cbn - [skip_ws parse_elements]. rewrite <- app_assoc. cbn [app].
    destruct (json_elements_head text vs (93 :: rest) Hels) as (c & r & -> & Hc).
    destruct (Z.eqb_spec c 93); [contradiction|].
    pose proof (proj1 (proj2 json_grammar_lengths) text vs Hels) as Hlen.
    lengths Hb.
    rewrite (IH b b rest) by lia. reflexivity.
  - (* empty object *)
    intros w' Hw' budget w rest Hb Hw _.
    destruct budget as [|b]; [simpl in Hb; lia|].
    cbn [parse_value app]. rewrite (skip_ws_to w _ 123 Hw eq_refl).
    cbn - [skip_ws]. rewrite <- app_assoc. cbn [app].
    now rewrite (skip_ws_to w' _ 125 Hw' eq_refl).
  - (* object *)
    intros text ms Hms IH budget w rest Hb Hw _.
    destruct budget as [|b]; [simpl in Hb; lia|].
    cbn [parse_value app]. rewrite (skip_ws_to w _ 123 Hw eq_refl).
    cbn - [skip_ws parse_members make_object]. rewrite <- app_assoc. cbn [app].
    destruct (json_members_head text ms (125 :: rest) Hms) as (r & ->).
    change (34 =? 125) with false. cbv iota.
    pose proof (proj2 (proj2 json_grammar_lengths) text ms Hms) as Hlen.
    lengths Hb.
    rewrite (IH b b rest) by lia. reflexivity.
  - (* the last element *)
    intros w1 text v w2 H1 _ IH H2 budget n rest Hb Hn.
    destruct n as [|n]; [simpl in Hn; lia|].
    lengths Hb.
    cbn [parse_elements]. rewrite <- !app_assoc.
    rewrite (IH budget w1 (w2 ++ 93 :: rest)%list) by
      (try apply number_stops_ws; auto; lia).
    now rewrite (skip_ws_to w2 _ 93 H2 eq_refl).
  - (* an element and more *)
    intros w1 text v w2 more vs H1 _ IH H2 _ IHmore budget n rest Hb Hn.
    destruct n as [|n]; [simpl in Hn; lia|].
    lengths Hb. cbn [length] in Hn.
    cbn [parse_elements]. rewrite <- !app_assoc. cbn [app].
    rewrite (IH budget w1 (w2 ++ 44 :: more ++ 93 :: rest)%list) by
      (try apply number_stops_ws; auto; lia).
    rewrite (skip_ws_to w2 _ 44 H2 eq_refl).
    change (44 =? 44) with true. cbv iota.
    rewrite (IHmore budget n rest) by lia. reflexivity.
  - (* the last member *)
    intros w1 key k w2 w3 text v w4 H1 Hkey H2 H3 _ IH H4 budget n rest Hb Hn.
    destruct n as [|n]; [simpl in Hn; lia|].
    lengths Hb.
    cbn [parse_members]. rewrite <- !app_assoc. cbn [app].
    rewrite (skip_ws_to w1 _ 34 H1 eq_refl). change (34 =? 34) with true. cbv iota.
    rewrite <- !app_assoc. cbn [app].
    rewrite (read_string_complete key k Hkey).
    rewrite <- !app_assoc. cbn [app].
    rewrite (skip_ws_to w2 _ 58 H2 eq_refl). change (58 =? 58) with true. cbv iota.
    rewrite <- !app_assoc.
    rewrite (IH budget w3 (w4 ++ 125 :: rest)%list) by
      (try apply number_stops_ws; auto; lia).
    now rewrite (skip_ws_to w4 _ 125 H4 eq_refl).
  - (* a member and more *)
    intros w1 key k w2 w3 text v w4 more ms H1 Hkey H2 H3 _ IH H4 _ IHmore
           budget n rest Hb Hn.
    destruct n as [|n]; [simpl in Hn; lia|].
    lengths Hb. cbn [length] in Hn.
    lengths Hb.
    cbn [parse_members]. rewrite <- !app_assoc. cbn [app].
    rewrite (skip_ws_to w1 _ 34 H1 eq_refl). change (34 =? 34) with true. cbv iota.
    rewrite <- !app_assoc. cbn [app].
    rewrite (read_string_complete key k Hkey).
    rewrite <- !app_assoc. cbn [app].
    rewrite (skip_ws_to w2 _ 58 H2 eq_refl). change (58 =? 58) with true. cbv iota.
    rewrite <- !app_assoc. cbn [app].
    rewrite (IH budget w3 (w4 ++ 44 :: more ++ 125 :: rest)%list) by
      (try apply number_stops_ws; auto; lia).
    rewrite (skip_ws_to w4 _ 44 H4 eq_refl).
    change (44 =? 44) with true. cbv iota.
    rewrite (IHmore budget n rest) by lia. reflexivity.
Qed.

(** What the loops read is elements, or members, of the grammar, when
    what the parser of values reads is a value of the grammar. *)
Section LoopsSound.

Variable parse : list Z -> option (json * list Z).

Hypothesis parse_sound :
  forall s v r,
    parse s = Some (v, r) ->
    exists w text, json_ws w /\ json_value text v /\ s = (w ++ text ++ r)%list.

Lemma parse_elements_sound (n : nat) :
  forall s vs r,
    parse_elements parse n s = Some (vs, r) ->
    exists text, json_elements text vs /\ s = (text ++ 93 :: r)%list.
Proof.
  induction n as [|n IH]; intros s vs r H; [discriminate|].
  cbn [parse_elements] in H.
  destruct (parse s) as [[v r1]|] eqn:Ev; [|discriminate].
  destruct (parse_sound _ _ _ Ev) as (w1 & text & H1 & Hv & ->).
  destruct (skip_ws_spec r1) as (w2 & H2 & E2).
  destruct (skip_ws r1) as [|c r']; [discriminate|].
  destruct (Z.eqb_spec c 44) as [->|H44].
  - destruct (parse_elements parse n r') as [[vs' rest]|] eqn:Emore; [|discriminate].
    inversion H; subst vs rest. clear H.
    destruct (IH _ _ _ Emore) as (more & Hmore & ->).
    exists (w1 ++ text ++ w2 ++ 44 :: more)%list. split.
    + now constructor.
    + rewrite E2, <- !app_assoc. reflexivity.
  - destruct (Z.eqb_spec c 93) as [->|]; [|discriminate].
    inversion H; subst vs r'. clear H.
    exists (w1 ++ text ++ w2)%list. split.
    + now constructor.
    + rewrite E2, <- !app_assoc. reflexivity.
Qed.

Lemma parse_members_sound (n : nat) :
  forall s ms r,
    parse_members parse n s = Some (ms, r) ->
    exists text, json_members text ms /\ s = (text ++ 125 :: r)%list.
Proof.
  induction n as [|n IH]; intros s ms r H; [discriminate|].
  cbn [parse_members] in H.
  destruct (skip_ws_spec s) as (w1 & H1 & E1).
  destruct (skip_ws s) as [|q r0]; [discriminate|].
  destruct (Z.eqb_spec q 34) as [->|]; [|discriminate].
  destruct (read_string r0) as [[k r1]|] eqn:Ek; [|discriminate].
  destruct (read_string_sound (length r0) r0 k r1 (le_n _) Ek) as (key & Hkey & ->).
  destruct (skip_ws_spec r1) as (w2 & H2 & E2).
  destruct (skip_ws r1) as [|colon r2]; [discriminate|].
  destruct (Z.eqb_spec colon 58) as [->|]; [|discriminate].
  destruct (parse r2) as [[v r3]|] eqn:Ev; [|discriminate].
  destruct (parse_sound _ _ _ Ev) as (w3 & text & H3 & Hv & ->).
  destruct (skip_ws_spec r3) as (w4 & H4 & E4).
  destruct (skip_ws r3) as [|c r4]; [discriminate|].
  destruct (Z.eqb_spec c 44) as [->|H44].
  - destruct (parse_members parse n r4) as [[ms' rest]|] eqn:Emore; [|discriminate].
    inversion H; subst ms rest. clear H.
    destruct (IH _ _ _ Emore) as (more & Hmore & ->).
    exists (w1 ++ 34 :: key ++ 34 :: w2 ++ 58 :: w3 ++ text ++ w4 ++ 44 :: more)%list.
    split.
    + now constructor.
    + rewrite E1, E2, E4. repeat (rewrite <- ?app_assoc; cbn [app]). reflexivity.
  - destruct (Z.eqb_spec c 125) as [->|]; [|discriminate].
    inversion H; subst ms r4. clear H.
    exists (w1 ++ 34 :: key ++ 34 :: w2 ++ 58 :: w3 ++ text ++ w4)%list.
    split.
    + now constructor.
    + rewrite E1, E2, E4. repeat (rewrite <- ?app_assoc; cbn [app]). reflexivity.
Qed.

End LoopsSound.

(** What the parser reads is white space and a value of the grammar. *)
Lemma parse_sound (budget : nat) :
  forall s v r,
    parse_value budget s = Some (v, r) ->
    exists w text, json_ws w /\ json_value text v /\ s = (w ++ text ++ r)%list.
Proof.
  induction budget as [|b IH]; intros s v r H; [discriminate|].
  cbn [parse_value] in H.
  destruct (skip_ws_spec s) as (w & Hw & E).
  destruct (skip_ws s) as [|c r0]; [discriminate|].
  exists w. rewrite E. clear E.
  destruct (Z.eqb_spec c 123) as [->|H123].
  { destruct (skip_ws_spec r0) as (w' & Hw' & E').
    destruct (skip_ws r0) as [|c' r']; [discriminate|].
    destruct (Z.eqb_spec c' 125) as [->|H125].
    - inversion H; subst v r'. clear H.
      exists (123 :: w' ++ [125])%list. split; [exact Hw|]. split; [now constructor|].
      rewrite E'. cbn [app]. now rewrite <- !app_assoc.
    - destruct (parse_members (parse_value b) b r0) as [[ms rest]|] eqn:Em;
        [|discriminate].
      inversion H; subst v rest. clear H.
      destruct (parse_members_sound (parse_value b) IH b _ _ _ Em) as (text & Ht & ->).
      exists (123 :: text ++ [125])%list. split; [exact Hw|]. split; [now constructor|].
      cbn [app]. now rewrite <- !app_assoc. }
  destruct (Z.eqb_spec c 91) as [->|H91].
  { destruct (skip_ws_spec r0) as (w' & Hw' & E').
    destruct (skip_ws r0) as [|c' r']; [discriminate|].
    destruct (Z.eqb_spec c' 93) as [->|H93].
    - inversion H; subst v r'. clear H.
      exists (91 :: w' ++ [93])%list. split; [exact Hw|]. split; [now constructor|].
      rewrite E'. cbn [app]. now rewrite <- !app_assoc.
    - destruct (parse_elements (parse_value b) b r0) as [[vs rest]|] eqn:Ee;
        [|discriminate].
      inversion H; subst v rest. clear H.
      destruct (parse_elements_sound (parse_value b) IH b _ _ _ Ee) as (text & Ht & ->).
      exists (91 :: text ++ [93])%list. split; [exact Hw|]. split; [now constructor|].
      cbn [app]. now rewrite <- !app_assoc. }
  destruct (Z.eqb_spec c 34) as [->|H34].
  { destruct (read_string r0) as [[str rest]|] eqn:Es; [|discriminate].
    inversion H; subst v rest. clear H.
    destruct (read_string_sound (length r0) r0 str r (le_n _) Es) as (text & Ht & ->).
    exists (34 :: text ++ [34])%list. split; [exact Hw|]. split; [now constructor|].
    cbn [app]. now rewrite <- !app_assoc. }
  destruct (Z.eqb_spec c 116) as [->|H116].
  { destruct (starts_with (units "true") (116 :: r0)) as [rest|] eqn:Es; [|discriminate].
    inversion H; subst v rest. clear H.
    exists (units "true"). split; [exact Hw|]. split; [constructor|].
    now rewrite (starts_with_sound _ _ _ Es). }
  destruct (Z.eqb_spec c 102) as [->|H102].
  { destruct (starts_with (units "false") (102 :: r0)) as [rest|] eqn:Es; [|discriminate].
    inversion H; subst v rest. clear H.
    exists (units "false"). split; [exact Hw|]. split; [constructor|].
    now rewrite (starts_with_sound _ _ _ Es). }
  destruct (Z.eqb_spec c 110) as [->|H110].
  { destruct (starts_with (units "null") (110 :: r0)) as [rest|] eqn:Es; [|discriminate].
    inversion H; subst v rest. clear H.
    exists (units "null"). split; [exact Hw|]. split; [constructor|].
    now rewrite (starts_with_sound _ _ _ Es). }
  destruct (read_number (c :: r0)) as [[d rest]|] eqn:En; [|discriminate].
  inversion H; subst v rest. clear H.
  destruct (read_number_sound _ _ _ En) as (text & Ht & ->).
  exists text. split; [exact Hw|]. split; [now constructor|reflexivity].
Qed.

(** ** [JSON.parse] *)

(** [JSON.parse] returns a value or throws its SyntaxError. *)
Lemma JSON_parse_cases (text : list Z) :
  JSON_parse text = Thrown SyntaxError \/ exists v, JSON_parse text = Done v.
Proof.
  unfold JSON_parse.
  destruct (parse_value _ _) as [[v rest]|]; [|now left].
  destruct (skip_ws rest); [right; now exists v|now left].
Qed.

(** [JSON.parse] returns [v] exactly on the JSON texts that stand for
    [v]. *)
Lemma JSON_parse_Done (text : list Z) (v : json) :
  JSON_parse text = Done v <-> json_text text v.
Proof.
  unfold JSON_parse. split.
  - destruct (parse_value (S (length text)) text) as [[v' rest]|] eqn:E; [|discriminate].
    destruct (skip_ws rest) eqn:Erest; [|discriminate].
    intros H. inversion H; subst v'. clear H.
    destruct (parse_sound _ _ _ _ E) as (w & body & Hw & Hv & ->).
    exists w, body, rest. split; [exact Hw|]. split; [exact Hv|].
    split; [now apply skip_ws_nil_ws|reflexivity].
  - intros (w1 & body & w2 & H1 & Hv & H2 & ->).
    rewrite (proj1 parse_complete body v Hv (S (length (w1 ++ body ++ w2))) w1 w2).
    + now rewrite (skip_ws_all w2 H2).
    + rewrite !length_app. lia.
    + exact H1.
    + now apply number_stops_end.
Qed.

(** It throws exactly on what is not a JSON text. *)
Lemma JSON_parse_Thrown (text : list Z) :
  JSON_parse text = Thrown SyntaxError <-> forall v, ~ json_text text v.
Proof.
  split.
  - intros H v Hv. apply JSON_parse_Done in Hv. congruence.
  - intros H. destruct (JSON_parse_cases text) as [E|(v & E)]; [exact E|].
    apply JSON_parse_Done in E. now destruct (H v).
Qed.

(** ** Number values *)

(** [round_half_even n d] is the integer nearest to [n / d], and the
    even one when two are equally near. *)
Lemma round_half_even_nearest (n d : Z) :
  0 <= n -> 0 < d ->
  let r := round_half_even n d in
  Z.abs (2 * (n - r * d)) <= d /\
  (Z.abs (2 * (n - r * d)) = d -> Z.even r = true).
Proof.
  intros Hn Hd. unfold round_half_even.
  pose proof (Z.div_mod n d ltac:(lia)) as Hdiv.
  pose proof (Z.mod_pos_bound n d Hd) as Hmod.
  set (f := n / d) in *. set (m := n mod d) in *.
  destruct (Z.compare_spec (2 * m) d) as [E|E|E]; cbv zeta.
  - destruct (Z.even f) eqn:Ef.
    + split; [nia|auto].
    + split; [nia|]. intros _. rewrite Z.even_add, Ef. reflexivity.
  - split; [nia|]. intros H. nia.
  - split; [nia|]. intros H. nia.
Qed.

Lemma round_half_even_whole (n : Z) : round_half_even n 1 = n.
Proof.
  unfold round_half_even. rewrite Z.mod_1_r, Z.div_1_r. reflexivity.
Qed.

(** [binary_exponent n d] is the exponent [e] with
    [2 ^ e <= n / d < 2 ^ (e + 1)]. *)
Lemma binary_exponent_spec (n d : Z) :
  0 < n -> 0 < d ->
  pow2_le (binary_exponent n d) n d = true /\
  pow2_le (binary_exponent n d + 1) n d = false.
Proof.
  intros Hn Hd.
  pose proof (Z.log2_spec n Hn) as Ha. pose proof (Z.log2_spec d Hd) as Hb.
  pose proof (Z.log2_nonneg n) as Ha0. pose proof (Z.log2_nonneg d) as Hb0.
  set (a := Z.log2 n) in *. set (b := Z.log2 d) in *.
  replace (Z.succ a) with (a + 1) in Ha by lia.
  replace (Z.succ b) with (b + 1) in Hb by lia.
  rewrite Z.pow_add_r in Ha, Hb by lia. change (2 ^ 1) with 2 in Ha, Hb.
  assert (Hpa : 0 < 2 ^ a) by (apply Z.pow_pos_nonneg; lia).
  assert (Hpb : 0 < 2 ^ b) by (apply Z.pow_pos_nonneg; lia).
  assert (Hup : pow2_le (a - b + 1) n d = false).
  { unfold pow2_le. destruct (Z.leb_spec 0 (a - b + 1)) as [Hs|Hs].
    - apply Z.leb_gt.
      assert (E : 2 ^ (a - b + 1) * 2 ^ b = 2 ^ a * 2).
      { rewrite <- Z.pow_add_r by lia. replace (a - b + 1 + b) with (a + 1) by lia.
        rewrite Z.pow_add_r by lia. reflexivity. }
      assert (0 < 2 ^ (a - b + 1)) by (apply Z.pow_pos_nonneg; lia). nia.
    - apply Z.leb_gt.
      assert (E : 2 ^ a * 2 * 2 ^ (- (a - b + 1)) = 2 ^ b).
      { replace (2 ^ a * 2) with (2 ^ (a + 1)) by (rewrite Z.pow_add_r by lia; reflexivity).
        rewrite <- Z.pow_add_r by lia. f_equal. lia. }
      assert (0 < 2 ^ (- (a - b + 1))) by (apply Z.pow_pos_nonneg; lia). nia. }
  assert (Hdown : pow2_le (a - b - 1) n d = true).
  { unfold pow2_le. destruct (Z.leb_spec 0 (a - b - 1)) as [Hs|Hs].
    - apply Z.leb_le.
      assert (E : 2 ^ (a - b - 1) * (2 ^ b * 2) = 2 ^ a).
      { replace (2 ^ b * 2) with (2 ^ (b + 1)) by (rewrite Z.pow_add_r by lia; reflexivity).
        rewrite <- Z.pow_add_r by lia. f_equal. lia. }
      assert (0 < 2 ^ (a - b - 1)) by (apply Z.pow_pos_nonneg; lia). nia.
    - apply Z.leb_le.
      assert (E : 2 ^ a * 2 ^ (- (a - b - 1)) = 2 ^ b * 2).
      { rewrite <- Z.pow_add_r by lia. replace (a + - (a - b - 1)) with (b + 1) by lia.
        rewrite Z.pow_add_r by lia. reflexivity. }
      assert (0 < 2 ^ (- (a - b - 1))) by (apply Z.pow_pos_nonneg; lia). nia. }
  unfold binary_exponent. fold a b.
  destruct (pow2_le (a - b) n d) eqn:E.
  - split; [exact E|exact Hup].
  - split; [exact Hdown|]. now replace (a - b - 1 + 1) with (a - b) by lia.
Qed.

Lemma Qred_integer (n : Z) : Qred (n # 1) = n # 1.
Proof.
  unfold Qred.
  pose proof (Z.ggcd_gcd n 1) as Hg. pose proof (Z.ggcd_correct_divisors n 1) as Hd.
  destruct (Z.ggcd n 1) as [g [aa bb]]. simpl in Hg. rewrite Z.gcd_1_r in Hg.
  subst g. destruct Hd as [Ha Hb]. cbn [snd].
  replace aa with n by lia. replace bb with 1 by lia. reflexivity.
Qed.

(** An integer below [2 ^ 53] is its own Number value. *)
Lemma decimal_to_double_integer (m : Z) :
  0 <= m < 2 ^ 53 -> decimal_to_double false m 0 = Dbl (inject_Z m).
Proof.
  intros Hm. unfold decimal_to_double. cbn [Z.leb Z.compare].
  change (10 ^ 0) with 1. rewrite Z.mul_1_r.
  unfold round_to_double.
  destruct (Z.eqb_spec m 0) as [->|Hm0]; [reflexivity|].
  assert (Hpos : 0 < m) by lia.
  destruct (binary_exponent_spec m 1 Hpos ltac:(lia)) as [Hlow _].
  pose proof (Z.log2_spec m Hpos) as Hlog. pose proof (Z.log2_nonneg m) as H0.
  assert (Hexp : binary_exponent m 1 = Z.log2 m).
  { unfold binary_exponent. change (Z.log2 1) with 0. rewrite Z.sub_0_r.
    unfold pow2_le. destruct (Z.leb_spec 0 (Z.log2 m)); [|lia].
    destruct (Z.leb_spec (2 ^ Z.log2 m * 1) m); [reflexivity|lia]. }
  rewrite Hexp.
  assert (H52 : Z.log2 m <= 52).
  { assert (Z.log2 m < 53); [|lia]. apply Z.log2_lt_pow2; lia. }
  rewrite Z.max_l by lia.
  set (k := 52 - Z.log2 m).
  assert (Hk : 0 <= k) by (unfold k; lia).
  assert (HK : 0 < 2 ^ k) by (apply Z.pow_pos_nonneg; lia).
  destruct (Z.leb_spec 0 (Z.log2 m - 52)) as [Hs|Hs].
  - assert (E : Z.log2 m - 52 = 0) by lia. rewrite E.
    change (2 ^ 0) with 1. rewrite Z.mul_1_r, round_half_even_whole.
    destruct (Z.eqb_spec m 0); [lia|]. cbn [andb].
    unfold scaled. cbn [Z.leb Z.compare]. change (2 ^ 0) with 1.
    rewrite !Z.mul_1_r.
    destruct (Z.leb_spec (2 ^ 1024) m) as [Hbig|_].
    { assert (2 ^ 53 < 2 ^ 1024) by (apply Z.pow_lt_mono_r; lia). lia. }
    now rewrite Qred_integer.
  - replace (- (Z.log2 m - 52)) with k by (unfold k; lia).
    rewrite round_half_even_whole.
    destruct (Z.eqb_spec (m * 2 ^ k) 0); [nia|]. cbn [andb].
    unfold scaled. destruct (Z.leb_spec 0 (Z.log2 m - 52)); [lia|].
    replace (- (Z.log2 m - 52)) with k by (unfold k; lia).
    f_equal. change (inject_Z m) with (m # 1).
    rewrite <- (Qred_integer m). apply Qred_complete.
    unfold Qeq. cbn [Qnum Qden]. rewrite Z2Pos.id by lia. lia.
Qed.

(** ** Objects *)

Lemma key_eqb_spec (a b : list Z) : key_eqb a b = true <-> a = b.
Proof. unfold key_eqb. destruct (list_eq_dec Z.eq_dec a b); split; congruence. Qed.

Lemma key_eqb_refl (a : list Z) : key_eqb a a = true.
Proof. now apply key_eqb_spec. Qed.

(** After a property is defined, the object has it with that value, and
    every other property as before. *)
Lemma lookup_define_property (key : list Z) (v : json) (members : list (list Z * json)) :
  lookup_member key (define_property key v members) = Some v /\
  forall k, k <> key ->
    lookup_member k (define_property key v members) = lookup_member k members.
Proof.
  induction members as [|[k' x] rest [IHsame IHother]]; cbn [define_property].
  - split.
    + cbn [lookup_member]. now rewrite key_eqb_refl.
    + intros k Hk. cbn [lookup_member].
      destruct (key_eqb key k) eqn:E; [|reflexivity].
      apply key_eqb_spec in E. congruence.
  - destruct (key_eqb k' key) eqn:Ek.
    + apply key_eqb_spec in Ek. subst k'. split.
      * cbn [lookup_member]. now rewrite key_eqb_refl.
      * intros k Hk. cbn [lookup_member].
        destruct (key_eqb key k) eqn:E; [|reflexivity].
        apply key_eqb_spec in E. congruence.
    + destruct (listed_before key k').
      * split.
        -- cbn [lookup_member]. now rewrite key_eqb_refl.
        -- intros k Hk. cbn [lookup_member].
           destruct (key_eqb key k) eqn:E; [|reflexivity].
           apply key_eqb_spec in E. congruence.
      * split.
        -- cbn [lookup_member]. now rewrite Ek.
        -- intros k Hk. cbn [lookup_member].
           destruct (key_eqb k' k); [reflexivity|]. now apply IHother.
Qed.

(** ** [JSON.parse] on sample texts

    White space, strings and their escapes, numbers and their rounding,
    arrays, objects and their keys, and what is not JSON. In the texts a
    single quote stands for a double quote. *)
Lemma JSON_parse_examples :
  (* white space is space, tab, line feed and carriage return *)
  JSON_parse [32; 9; 10; 13; 123; 125; 32; 10] = Done (JObject []) /\
  JSON_parse [12; 49] = Thrown SyntaxError /\
  JSON_parse [11; 49] = Thrown SyntaxError /\
  JSON_parse [160; 49] = Thrown SyntaxError /\
  JSON_parse [65279; 49] = Thrown SyntaxError /\
  (* strings *)
  JSON_parse (units (dquoted "'a\'b\\c\/d\b\f\n\r\t'"))
  = Done (JString [97; 34; 98; 92; 99; 47; 100; 8; 12; 10; 13; 9]) /\
  JSON_parse (units (dquoted "'\u2014\u00e9\u00E9\uD83D\uDE00\u0000'"))
  = Done (JString [8212; 233; 233; 55357; 56832; 0]) /\
  JSON_parse [34; 8212; 127; 34] = Done (JString [8212; 127]) /\
  JSON_parse (units (dquoted "''")) = Done (JString []) /\
  JSON_parse [34; 9; 34] = Thrown SyntaxError /\
  JSON_parse (units (dquoted "'\x41'")) = Thrown SyntaxError /\
  JSON_parse (units (dquoted "'\u12G4'")) = Thrown SyntaxError /\
  JSON_parse (units (dquoted "'\u123'")) = Thrown SyntaxError /\
  JSON_parse (units (dquoted "'abc")) = Thrown SyntaxError /\
  JSON_parse (units "'abc'") = Thrown SyntaxError /\
  (* numbers *)
  JSON_parse (units "0") = Done (JNumber (Dbl 0)) /\
  JSON_parse (units "-0") = Done (JNumber DblNegZero) /\
  JSON_parse (units "-0.0e5") = Done (JNumber DblNegZero) /\
  JSON_parse (units "85.5") = Done (JNumber (Dbl (171 # 2))) /\
  JSON_parse (units "-12.50") = Done (JNumber (Dbl (- 25 # 2))) /\
  JSON_parse (units "1e2") = Done (JNumber (Dbl 100)) /\
  JSON_parse (units "1E+2") = Done (JNumber (Dbl 100)) /\
  JSON_parse (units "25e-1") = Done (JNumber (Dbl (5 # 2))) /\
  JSON_parse (units "0.1")
  = Done (JNumber (Dbl (3602879701896397 # 36028797018963968))) /\
  JSON_parse (units "100.00000000000000001") = Done (JNumber (Dbl 100)) /\
  JSON_parse (units "9007199254740993") = Done (JNumber (Dbl 9007199254740992)) /\
  JSON_parse (units "9007199254740995") = Done (JNumber (Dbl 9007199254740996)) /\
  JSON_parse (units "1.7976931348623157e308")
  = Done (JNumber (Dbl (inject_Z ((2 ^ 53 - 1) * 2 ^ 971)))) /\
  JSON_parse (units "1.7976931348623159e308") = Done (JNumber (DblInfinity false)) /\
  JSON_parse (units "1e400") = Done (JNumber (DblInfinity false)) /\
  JSON_parse (units "-1e400") = Done (JNumber (DblInfinity true)) /\
  JSON_parse (units "5e-324") = Done (JNumber (Dbl (Qmake 1 (Z.to_pos (2 ^ 1074))))) /\
  JSON_parse (units "2.4703282292062328e-324")
  = Done (JNumber (Dbl (Qmake 1 (Z.to_pos (2 ^ 1074))))) /\
  JSON_parse (units "2.4703282292062327e-324") = Done (JNumber (Dbl 0)) /\
  JSON_parse (units "-1e-400") = Done (JNumber DblNegZero) /\
  JSON_parse (units "01") = Thrown SyntaxError /\
  JSON_parse (units "1.") = Thrown SyntaxError /\
  JSON_parse (units ".5") = Thrown SyntaxError /\
  JSON_parse (units "+1") = Thrown SyntaxError /\
  JSON_parse (units "1e") = Thrown SyntaxError /\
  JSON_parse (units "1e+") = Thrown SyntaxError /\
  JSON_parse (units "-") = Thrown SyntaxError /\
  JSON_parse (units "0x10") = Thrown SyntaxError /\
  JSON_parse (units "1 2") = Thrown SyntaxError /\
  JSON_parse (units "Infinity") = Thrown SyntaxError /\
  JSON_parse (units "NaN") = Thrown SyntaxError /\
  (* the three names *)
  JSON_parse (units " true ") = Done (JBool true) /\
  JSON_parse (units "false") = Done (JBool false) /\
  JSON_parse (units "null") = Done JNull /\
  JSON_parse (units "nul") = Thrown SyntaxError /\
  JSON_parse (units "nullx") = Thrown SyntaxError /\
  JSON_parse (units "True") = Thrown SyntaxError /\
  JSON_parse (units "undefined") = Thrown SyntaxError /\
  (* arrays *)
  JSON_parse (units "[ ]") = Done (JArray []) /\
  JSON_parse (units "[1 , [true,[]] ,null]")
  = Done (JArray [JNumber (Dbl 1); JArray [JBool true; JArray []]; JNull]) /\
  JSON_parse (units "[1,]") = Thrown SyntaxError /\
  JSON_parse (units "[,1]") = Thrown SyntaxError /\
  JSON_parse (units "[1 2]") = Thrown SyntaxError /\
  JSON_parse (units "[1") = Thrown SyntaxError /\
  JSON_parse (units "]") = Thrown SyntaxError /\
  (* objects: the later of two members with one key wins, in the place
     of the first; array indices are listed first, in ascending order *)
  JSON_parse (units (dquoted "{ 'a' : 1 , 'b':{'c':[]} }"))
  = Done (JObject [(units "a", JNumber (Dbl 1));
                   (units "b", JObject [(units "c", JArray [])])]) /\
  JSON_parse (units (dquoted "{'b':1,'a':2,'b':3}"))
  = Done (JObject [(units "b", JNumber (Dbl 3)); (units "a", JNumber (Dbl 2))]) /\
  JSON_parse (units (dquoted "{'b':1,'10':2,'a':3,'9':4,'01':5,'4294967295':6,'0':7}"))
  = Done (JObject [(units "0", JNumber (Dbl 7)); (units "9", JNumber (Dbl 4));
                   (units "10", JNumber (Dbl 2)); (units "b", JNumber (Dbl 1));
                   (units "a", JNumber (Dbl 3)); (units "01", JNumber (Dbl 5));
                   (units "4294967295", JNumber (Dbl 6))]) /\
  JSON_parse (units (dquoted "{'__proto__':1,'':2}"))
  = Done (JObject [(units "__proto__", JNumber (Dbl 1)); ([], JNumber (Dbl 2))]) /\
  JSON_parse (units (dquoted "{'a':1,}")) = Thrown SyntaxError /\
  JSON_parse (units "{a:1}") = Thrown SyntaxError /\
  JSON_parse (units (dquoted "{'a' 1}")) = Thrown SyntaxError /\
  JSON_parse (units (dquoted "{'a':}")) = Thrown SyntaxError /\
  JSON_parse (units (dquoted "{'a':1")) = Thrown SyntaxError /\
  (* one value, and nothing after it *)
  JSON_parse [] = Thrown SyntaxError /\
  JSON_parse (units "  ") = Thrown SyntaxError /\
  JSON_parse (units "{} x") = Thrown SyntaxError /\
  JSON_parse (units "{}{}") = Thrown SyntaxError /\
  JSON_parse (units "// note") = Thrown SyntaxError /\
  (* a complete feedback *)
  JSON_parse (units (feedbackText "85.5")) = Done (feedbackValue (Dbl (171 # 2))) /\
  (* a character of a text of the model is one code unit *)
  JSON_parse (units (dq ++ String (ascii_of_nat 233) (String (ascii_of_nat 255) dq)))
  = Done (JString [233; 255]).
Proof.
  repeat split; vm_compute; reflexivity.
Qed.

(** ** Scores *)

(** The scores [0], [-0] and [100] are within the bound of the data
    model; a negative score, one above [100], an infinite one and one
    that is no number are not. *)
Lemma score_in_range_examples :
  score_in_range (JObject [(units "score", JNumber (Dbl 0))]) /\
  score_in_range (JObject [(units "score", JNumber DblNegZero)]) /\
  score_in_range (JObject [(units "score", JNumber (Dbl 100))]) /\
  ~ score_in_range (JObject [(units "score", JNumber (Dbl (- 1 # 2)))]) /\
  ~ score_in_range (JObject [(units "score", JNumber (Dbl (201 # 2)))]) /\
  ~ score_in_range (JObject [(units "score", JNumber (DblInfinity false))]) /\
  ~ score_in_range (JObject [(units "score", JString (units "85"))]) /\
  ~ score_in_range (JObject []) /\
  ~ score_in_range JNull.
Proof.
  assert (Hin : forall d q,
             double_value d = Some q -> (0 <= q)%Q -> (q <= 100)%Q ->
             score_in_range (JObject [(units "score", JNumber d)])).
  { intros d q Hq H0 H100. exists d, q. repeat split; auto. }
  assert (Hout : forall d,
             (forall q, double_value d = Some q -> ~ ((0 <= q)%Q /\ (q <= 100)%Q)) ->
             ~ score_in_range (JObject [(units "score", JNumber d)])).
  { intros d Hd (d' & q & Hs & Hq & H0 & H100).
    cbn in Hs. inversion Hs; subst d'. now apply (Hd q Hq). }
  repeat split.
  - apply (Hin (Dbl 0) 0%Q); [reflexivity| |]; unfold Qle; simpl; lia.
  - apply (Hin DblNegZero 0%Q); [reflexivity| |]; unfold Qle; simpl; lia.
  - apply (Hin (Dbl 100) 100%Q); [reflexivity| |]; unfold Qle; simpl; lia.
  - apply Hout. intros q Hq. inversion Hq; subst q. unfold Qle. simpl. lia.
  - apply Hout. intros q Hq. inversion Hq; subst q. unfold Qle. simpl. lia.
  - apply Hout. intros q Hq. discriminate.
  - intros (d & q & Hs & _). cbn in Hs. discriminate.
  - intros (d & q & Hs & _). cbn in Hs. discriminate.
  - intros (d & q & Hs & _). cbn in Hs. discriminate.
Qed.

(** * The audio decode pipeline: de-interleaving, normalization, odd lengths *)

(** C1 (amended). For a byte array that represents [N] 16-bit
    little-endian samples and a channel count [C >= 1] that the audio
    context supports, with at least one whole frame
    ([1 <= floor(N/C)]): [decodeAudioData] returns a buffer of [C]
    channels, each of length exactly [floor(N/C)], sample [j] lands in
    channel [j mod C] at frame [j / C] with value [sample/32768], and
    the [N mod C] trailing samples are dropped without an error. With
    fewer than [C] samples there is no whole frame and the allocation of
    the buffer throws NotSupportedError. *)
Theorem decodeAudioData_deinterleaves ctx rate C (samples : list Z) (data : Uint8Array) :
  Forall int16 samples ->
  buffer data = pcm16le samples ->
  supports ctx C rate ->
  Zlength' samples / C < 2 ^ 32 ->
  (1 <= Zlength' samples / C ->
   exists buf,
     decodeAudioData data ctx rate C = Done buf /\
     numberOfChannels buf = C /\
     Zlength' (channels buf) = C /\
     (forall c, 0 <= c < C ->
        exists ch, Zget (channels buf) c = Some ch /\
                   Zlength' ch = Zlength' samples / C) /\
     (forall j s, 0 <= j < Zlength' samples / C * C ->
        Zget samples j = Some s ->
        exists q, frame buf (j mod C) (j / C) = Some (Finite q) /\
                  (q == inject_Z s / inject_Z 32768)%Q)) /\
  (Zlength' samples / C = 0 ->
   decodeAudioData data ctx rate C = Thrown NotSupportedError).
Proof.
  intros Hs Hbuf Hsup Hlt.
  assert (Hview : new_Int16Array (buffer data) = Done samples)
    by (rewrite Hbuf; now apply new_Int16Array_pcm16le).
  assert (HC : 1 <= C) by (destruct Hsup; lia).
  split.
  - intros H1.
    destruct (@decodeAudioData_spec ctx rate C data samples Hview Hsup
                ltac:(lia)) as (chans & Hrun & Hlen & Hch).
    eexists. split; [exact Hrun|]. cbn [numberOfChannels channels].
    split; [reflexivity|]. split; [unfold Zlength'; lia|]. split.
    + intros c Hc. destruct (Hch (Z.to_nat c) ltac:(lia)) as (ch & Hn & Hl & _).
      exists ch. rewrite Zget_nth_error by lia. split; [exact Hn|].
      unfold Zlength' in *. lia.
    + intros j s Hj Hget.
      pose proof (Z.mod_pos_bound j C ltac:(lia)) as Hm.
      assert (Hd : 0 <= j / C < Zlength' samples / C).
      { split; [apply Z.div_pos; lia|].
        apply Z.div_lt_upper_bound; lia. }
      destruct (Hch (Z.to_nat (j mod C)) ltac:(lia)) as (ch & Hn & Hl & Hfr).
      specialize (Hfr (Z.to_nat (j / C)) ltac:(lia)).
      rewrite !Z2Nat.id in Hfr by lia.
      replace (j / C * C + j mod C) with j in Hfr
        by (pose proof (Z.div_mod j C ltac:(lia)); lia).
      rewrite (sample_div_Some _ _ Hget) in Hfr.
      eexists. split; [|reflexivity].
      unfold frame. cbn [channels].
      rewrite Zget_nth_error, Hn by lia.
      rewrite Zget_nth_error by lia. exact Hfr.
  - intros H0. unfold decodeAudioData. rewrite Hview. simpl cbind.
    rewrite js_div_pos by lia.
    unfold createBuffer.
    assert (HN : 0 <= Zlength' samples) by (unfold Zlength'; lia).
    rewrite to_unsigned_long_div by lia.
    rewrite H0. simpl. rewrite andb_false_r. reflexivity.
Qed.

Lemma decodeAudioData_deinterleaves_witness :
  exists buf,
    decodeAudioData (Uint8Array_of (pcm16le [1; -2; 32767; -32768; 5]))
                    baselineContext 24000 2 = Done buf /\
    channels buf = [[Finite (1 * 1 # 32768); Finite (32767 * 1 # 32768)];
                    [Finite (-2 * 1 # 32768); Finite (-32768 * 1 # 32768)]].
Proof.
  destruct (@decodeAudioData_deinterleaves baselineContext 24000 2
              [1; -2; 32767; -32768; 5]
              (Uint8Array_of (pcm16le [1; -2; 32767; -32768; 5])))
    as [Hok _].
  - repeat constructor; unfold int16; lia.
  - reflexivity.
  - unfold supports; simpl; lia.
  - vm_compute; reflexivity.
  - destruct Hok as (buf & Hrun & _); [vm_compute; discriminate|].
    exists buf. split; [exact Hrun|].
    vm_compute in Hrun. inversion Hrun. reflexivity.
Defined.

(** C1 as stated fails with fewer samples than channels: one sample and
    two channels give [floor(1/2) = 0] frames, and the buffer allocation
    throws instead of returning two empty channels. It also fails for a
    channel count above what the context supports: 33 channels of one
    frame each, where the context allows 32. *)
Lemma decodeAudioData_one_sample_two_channels_throws :
  Forall int16 [1] /\
  decodeAudioData (Uint8Array_of (pcm16le [1])) baselineContext 24000 2
  = Thrown NotSupportedError /\
  Forall int16 (repeat 1 33) /\
  decodeAudioData (Uint8Array_of (pcm16le (repeat 1 33))) baselineContext 24000 33
  = Thrown NotSupportedError.
Proof.
  split; [repeat constructor; unfold int16; lia|].
  split; [reflexivity|].
  split; [|reflexivity].
  apply Forall_forall. intros x Hx. apply repeat_spec in Hx. subst x.
  unfold int16; lia.
Qed.

(** C2. For every 16-bit sample value [s] in [-32768, 32767] the
    normalization step [dataInt16[idx] / 32768.0] yields exactly
    [s/32768], which lies in [-1, 1); so does the whole pipeline on the
    one-sample stream [s]. *)
Theorem normalization_exact_in_unit_interval (s : Z) :
  int16 s ->
  (forall dataInt16 idx, Zget dataInt16 idx = Some s ->
     exists q, sample_div dataInt16 idx = Finite q /\
               (q == inject_Z s / inject_Z 32768)%Q /\
               (-1 <= q)%Q /\ (q < 1)%Q) /\
  (forall ctx rate, supports ctx 1 rate ->
     exists q, decodeAudioData (Uint8Array_of (pcm16le [s])) ctx rate 1
               = Done {| numberOfChannels := 1; ab_length := 1;
                         ab_sampleRate := rate; channels := [[Finite q]] |} /\
               (q == inject_Z s / inject_Z 32768)%Q /\
               (-1 <= q)%Q /\ (q < 1)%Q).
Proof.
  intros Hs.
  assert (Hrange : (-1 <= inject_Z s / inject_Z 32768)%Q /\
                   (inject_Z s / inject_Z 32768 < 1)%Q).
  { unfold int16 in Hs. unfold Qdiv, Qinv, Qmult, Qle, Qlt. simpl. lia. }
  split.
  - intros l idx Hget. eexists. split; [exact (sample_div_Some _ _ Hget)|].
    split; [reflexivity|exact Hrange].
  - intros ctx rate Hsup.
    destruct (@decodeAudioData_spec ctx rate 1 (Uint8Array_of (pcm16le [s])) [s])
      as (chans & Hrun & Hlen & Hch).
    + apply (@new_Int16Array_pcm16le [s]). constructor; [exact Hs|constructor].
    + exact Hsup.
    + vm_compute. split; congruence.
    + destruct (Hch 0%nat ltac:(simpl; lia)) as (ch & Hn & Hl & Hfr).
      specialize (Hfr 0%nat ltac:(simpl; lia)).
      change (Zlength' [s] / 1) with 1 in *. simpl in Hlen, Hl.
      destruct chans as [|ch0 [|? ?]]; simpl in Hlen; try discriminate.
      simpl in Hn. inversion Hn; subst ch0.
      destruct ch as [|x [|? ?]]; simpl in Hl; try discriminate.
      simpl in Hfr. inversion Hfr; subst x.
      rewrite (@sample_div_Some [s] 0 s eq_refl) in Hrun.
      eexists. split; [exact Hrun|]. split; [reflexivity|exact Hrange].
Qed.

Lemma normalization_exact_in_unit_interval_witness :
  exists q, decodeAudioData (Uint8Array_of (pcm16le [-32768])) baselineContext 24000 1
            = Done {| numberOfChannels := 1; ab_length := 1;
                      ab_sampleRate := 24000; channels := [[Finite q]] |} /\
            (q == -1)%Q.
Proof.
  destruct (@normalization_exact_in_unit_interval (-32768)) as [_ Hpipe].
  - unfold int16; lia.
  - destruct (Hpipe baselineContext 24000) as (q & Hrun & Hq & _).
    + unfold supports; simpl; lia.
    + exists q. split; [exact Hrun|]. rewrite Hq. reflexivity.
Defined.

(** C10. When the buffer under the input [Uint8Array] has an odd byte
    length, [decodeAudioData] fails: the [Int16Array] constructor throws
    a RangeError and nothing is decoded; a decode that succeeds had an
    even byte length. *)
Theorem decodeAudioData_odd_length_throws (data : Uint8Array) ctx rate C :
  Zlength' (buffer data) mod 2 = 1 ->
  decodeAudioData data ctx rate C = Thrown RangeError_Int16Array /\
  forall buf, decodeAudioData data ctx rate C <> Done buf.
Proof.
  intros Hodd.
  assert (H : decodeAudioData data ctx rate C = Thrown RangeError_Int16Array).
  { unfold decodeAudioData, new_Int16Array. rewrite Hodd. reflexivity. }
  split; [exact H|]. intros buf. rewrite H. discriminate.
Qed.

Lemma decodeAudioData_odd_length_throws_witness :
  decodeAudioData (Uint8Array_of [Byte.x01; Byte.x00; Byte.x02]) baselineContext 24000 1
  = Thrown RangeError_Int16Array.
Proof.
  apply (@decodeAudioData_odd_length_throws
           (Uint8Array_of [Byte.x01; Byte.x00; Byte.x02]) baselineContext 24000 1).
  reflexivity.
Defined.

(** * The encode/decode round trip *)

(** C4. Encoding any sequence of samples in [-1, 1) to 16-bit PCM (with
    any quantizer that is off by at most one step), then running the
    base64 text through [decodeBase64] and [decodeAudioData] with one
    channel, gives back every sample within 1/32768: for each original
    sample the pipeline returns a buffer whose frame at that position is
    that close, and the buffer has as many frames as there were samples. *)
Theorem pcm16_round_trip (quantize : Q -> Z) (xs : list Q) ctx rate :
  pcm16_quantizer quantize ->
  Forall (fun x => (-1 <= x)%Q /\ (x < 1)%Q) xs ->
  supports ctx 1 rate ->
  Zlength' xs < 2 ^ 32 ->
  forall i x, nth_error xs i = Some x ->
    exists bytes buf y,
      decodeBase64 (encodePCM16 quantize xs) = Done bytes /\
      decodeAudioData bytes ctx rate 1 = Done buf /\
      ab_length buf = Zlength' xs /\
      frame buf 0 (Z.of_nat i) = Some (Finite y) /\
      (Qabs (y - x) <= 1 # 32768)%Q.
Proof.
  intros Hq Hxs Hsup Hlen i x Hi.
  set (samples := map quantize xs).
  assert (Hs : Forall int16 samples).
  { apply Forall_forall. intros s Hin. apply in_map_iff in Hin.
    destruct Hin as (x' & <- & Hin). rewrite Forall_forall in Hxs.
    destruct (Hxs x' Hin) as [H1 H2]. exact (proj1 (Hq x' H1 H2)). }
  assert (HN : Zlength' samples = Zlength' xs)
    by (unfold Zlength', samples; now rewrite length_map).
  assert (Hi' : (i < length xs)%nat) by (apply nth_error_Some; congruence).
  assert (HN1 : 1 <= Zlength' xs) by (unfold Zlength'; lia).
  destruct (@decodeAudioData_spec ctx rate 1 (Uint8Array_of (pcm16le samples)) samples)
    as (chans & Hrun & Hclen & Hch).
  { now apply new_Int16Array_pcm16le. }
  { exact Hsup. }
  { rewrite HN, Z.div_1_r. lia. }
  rewrite HN, Z.div_1_r in Hrun, Hch.
  destruct (Hch 0%nat ltac:(simpl; lia)) as (ch & Hn & Hl & Hfr).
  specialize (Hfr i ltac:(unfold Zlength'; lia)).
  assert (Hget : Zget samples (Z.of_nat i * 1 + Z.of_nat 0) = Some (quantize x)).
  { replace (Z.of_nat i * 1 + Z.of_nat 0) with (Z.of_nat i) by lia.
    rewrite Zget_of_nat. unfold samples. now rewrite nth_error_map, Hi. }
  rewrite (sample_div_Some _ _ Hget) in Hfr.
  exists (Uint8Array_of (pcm16le samples)).
  eexists. eexists.
  split; [apply decodeBase64_btoa_bytes|].
  split; [exact Hrun|]. cbn [ab_length].
  split; [reflexivity|]. split.
  - unfold frame. cbn [channels].
    change 0 with (Z.of_nat 0). rewrite Zget_of_nat, Hn, Zget_of_nat. exact Hfr.
  - rewrite Forall_forall in Hxs.
    destruct (Hxs x (nth_error_In _ _ Hi)) as [H1 H2].
    exact (proj2 (Hq x H1 H2)).
Qed.

Lemma pcm16_round_trip_witness :
  exists bytes buf y,
    decodeBase64 (encodePCM16 quantize_trunc [1 # 2; -1 # 1; 32767 # 32768; -1 # 3])
    = Done bytes /\
    decodeAudioData bytes baselineContext 24000 1 = Done buf /\
    ab_length buf = 4 /\
    frame buf 0 3 = Some (Finite y) /\
    (Qabs (y - (-1 # 3)) <= 1 # 32768)%Q.
Proof.
  apply (@pcm16_round_trip quantize_trunc
           [1 # 2; -1 # 1; 32767 # 32768; -1 # 3] baselineContext 24000
           quantize_trunc_ok) with (i := 3%nat).
  - repeat constructor; vm_compute; congruence.
  - unfold supports; simpl; lia.
  - vm_compute; reflexivity.
  - reflexivity.
Defined.

(** * The calls to the generative service *)

(** C3. A video job that reads not done on three consecutive checks
    and done on the fourth: the poller makes exactly three status
    requests, each after a delay of 10000 ms, and only then fetches the
    result URI and downloads the artifact. The same holds for any number
    of pending checks (no attempt limit); a rejected status request
    rejects the function at once, with no further request (no retry on
    error); and while every status reads pending the function is in the
    next delay (no timeout). *)
Theorem poller_rechecks_until_done env topic difficulty r1 :
  let ai := getAI env in
  let visualPrompt := or_else (text r1) fallbackPrompt in
  (forall op0 op1 op2 op3 fetched blob objectUrl,
     not_done op0 = true -> not_done op1 = true -> not_done op2 = true ->
     not_done op3 = false ->
     exec (generateLessonPrompt env topic difficulty video)
          [ReplyContent (Done r1); ReplyOperation (Done op0);
           ReplyVoid; ReplyOperation (Done op1);
           ReplyVoid; ReplyOperation (Done op2);
           ReplyVoid; ReplyOperation (Done op3);
           ReplyFetch (Done fetched); ReplyBlob (Done blob); ReplyString objectUrl]
          (Returned
             [CallGenerateContent ai (descriptionRequest topic difficulty);
              CallGenerateVideos ai (videoRequest visualPrompt);
              CallSetTimeout 10000; CallGetVideosOperation ai op0;
              CallSetTimeout 10000; CallGetVideosOperation ai op1;
              CallSetTimeout 10000; CallGetVideosOperation ai op2;
              CallFetch (template (downloadLink op3) ++ "&key="
                         ++ template (API_KEY env));
              CallResponseBlob fetched;
              CallCreateObjectURL blob]
             (Done {| url := objectUrl; promptText := visualPrompt |}) [])) /\
  (forall first rest fetched blob objectUrl,
     pending_then_done first rest ->
     exec (generateLessonPrompt env topic difficulty video)
          (ReplyContent (Done r1) :: ReplyOperation (Done first)
             :: pollScript rest
             ++ [ReplyFetch (Done fetched); ReplyBlob (Done blob); ReplyString objectUrl])
          (Returned
             (CallGenerateContent ai (descriptionRequest topic difficulty)
                :: CallGenerateVideos ai (videoRequest visualPrompt)
                :: pollLog ai first rest
                ++ [CallFetch (template (downloadLink (last rest first)) ++ "&key="
                               ++ template (API_KEY env));
                    CallResponseBlob fetched;
                    CallCreateObjectURL blob])
             (Done {| url := objectUrl; promptText := visualPrompt |}) []) /\
     length (pollScript rest) = (2 * length rest)%nat /\
     length (pollLog ai first rest) = (2 * length rest)%nat) /\
  (forall first rest err unread,
     all_pending first rest ->
     exec (generateLessonPrompt env topic difficulty video)
          (ReplyContent (Done r1) :: ReplyOperation (Done first)
             :: pollScript rest ++ ReplyVoid :: ReplyOperation (Thrown err) :: unread)
          (Returned
             (CallGenerateContent ai (descriptionRequest topic difficulty)
                :: CallGenerateVideos ai (videoRequest visualPrompt)
                :: pollLog ai first rest
                ++ [CallSetTimeout 10000;
                    CallGetVideosOperation ai (last rest first)])
             (Thrown err) unread)) /\
  (forall first rest,
     all_pending first rest ->
     exec (generateLessonPrompt env topic difficulty video)
          (ReplyContent (Done r1) :: ReplyOperation (Done first) :: pollScript rest)
          (Pending
             (CallGenerateContent ai (descriptionRequest topic difficulty)
                :: CallGenerateVideos ai (videoRequest visualPrompt)
                :: pollLog ai first rest)
             (CallSetTimeout 10000))).
Proof.
  cbv zeta. split; [|split; [|split]].
  - intros op0 op1 op2 op3 fetched blob objectUrl H0 H1 H2 H3.
    apply (generateLessonPrompt_video_run env topic difficulty r1 op0 [op1; op2; op3]
             fetched blob objectUrl []).
    simpl. auto.
  - intros first rest fetched blob objectUrl Hp. split; [|split].
    + now apply generateLessonPrompt_video_run.
    + clear. unfold pollScript.
      induction rest as [|x rest IH]; [reflexivity|].
      cbn [flat_map app length]. rewrite IH. lia.
    + clear. revert first. induction rest as [|x rest IH]; intros first;
        [reflexivity|]. cbn [pollLog length]. rewrite IH. lia.
  - intros first rest err unread Hp.
    now apply generateLessonPrompt_video_rejected.
  - intros first rest Hp. now apply generateLessonPrompt_video_stalled.
Qed.

Lemma poller_rechecks_until_done_witness :
  exec (generateLessonPrompt sampleEnv "Nature" Beginner video)
       [ReplyContent (Done (textResponse "A forest at dawn."));
        ReplyOperation (Done (pendingOperation "op"));
        ReplyVoid; ReplyOperation (Done (pendingOperation "op"));
        ReplyVoid; ReplyOperation (Done (pendingOperation "op"));
        ReplyVoid;
        ReplyOperation (Done (finishedOperation "op" "https://host/video?alt=media"));
        ReplyFetch (Done {| fetched_from := "https://host/video"; body := "mp4" |});
        ReplyBlob (Done {| blob_bytes := "mp4" |});
        ReplyString "blob:1"]
       (Returned
          [CallGenerateContent (getAI sampleEnv) (descriptionRequest "Nature" Beginner);
           CallGenerateVideos (getAI sampleEnv) (videoRequest "A forest at dawn.");
           CallSetTimeout 10000;
           CallGetVideosOperation (getAI sampleEnv) (pendingOperation "op");
           CallSetTimeout 10000;
           CallGetVideosOperation (getAI sampleEnv) (pendingOperation "op");
           CallSetTimeout 10000;
           CallGetVideosOperation (getAI sampleEnv) (pendingOperation "op");
           CallFetch "https://host/video?alt=media&key=KEY";
           CallResponseBlob {| fetched_from := "https://host/video"; body := "mp4" |};
           CallCreateObjectURL {| blob_bytes := "mp4" |}]
          (Done {| url := "blob:1"; promptText := "A forest at dawn." |}) []).
Proof.
  apply (proj1 (poller_rechecks_until_done sampleEnv "Nature" Beginner
                  (textResponse "A forest at dawn."))
           (pendingOperation "op") (pendingOperation "op") (pendingOperation "op")
           (finishedOperation "op" "https://host/video?alt=media"));
    reflexivity.
Defined.

(** C5. Whatever the description call returns, the prompt handed to the
    image or video generation is not empty: the image request carries it
    as the text of its one part, the video request as its [prompt]. When
    the description call returns empty text (or none), that prompt is
    the fixed fallback description, verbatim, and the [promptText] of
    the result is the fallback too. *)
Theorem empty_description_uses_fallback env topic difficulty r1 :
  let ai := getAI env in
  let visualPrompt := or_else (text r1) fallbackPrompt in
  let imageGeneration p :=
    CallGenerateContent ai
      {| model := "gemini-2.5-flash-image"; contents := ContentsParts [p];
         config := ImageConfig "16:9" |} in
  let videoGeneration p :=
    CallGenerateVideos ai
      {| v_model := "veo-3.1-fast-generate-preview"; prompt := p;
         numberOfVideos := 1; resolution := "720p"; v_aspectRatio := "16:9" |} in
  let fallback :=
    "A professional office scene showing a business analyst working on project requirements." in
  visualPrompt <> EmptyString /\
  exec (generateLessonPrompt env topic difficulty image)
       [ReplyContent (Done r1)]
       (Pending [CallGenerateContent ai (descriptionRequest topic difficulty)]
                (imageGeneration visualPrompt)) /\
  exec (generateLessonPrompt env topic difficulty video)
       [ReplyContent (Done r1)]
       (Pending [CallGenerateContent ai (descriptionRequest topic difficulty)]
                (videoGeneration visualPrompt)) /\
  (forall t, text r1 = Some t -> t <> EmptyString -> visualPrompt = t) /\
  (text r1 = None \/ text r1 = Some EmptyString ->
   visualPrompt = fallback /\
   (forall r2, exists imageUrl,
      exec (generateLessonPrompt env topic difficulty image)
           [ReplyContent (Done r1); ReplyContent (Done r2)]
           (Returned
              [CallGenerateContent ai (descriptionRequest topic difficulty);
               imageGeneration fallback]
              (Done {| url := imageUrl; promptText := fallback |}) [])) /\
   (forall first rest fetched blob objectUrl,
      pending_then_done first rest ->
      exists log,
        exec (generateLessonPrompt env topic difficulty video)
             (ReplyContent (Done r1) :: ReplyOperation (Done first)
                :: pollScript rest
                ++ [ReplyFetch (Done fetched); ReplyBlob (Done blob);
                    ReplyString objectUrl])
             (Returned
                (CallGenerateContent ai (descriptionRequest topic difficulty)
                   :: videoGeneration fallback :: log)
                (Done {| url := objectUrl; promptText := fallback |}) []))).
Proof.
  cbv zeta. split; [|split; [|split; [|split]]].
  - apply or_else_nonempty. discriminate.
  - apply generateLessonPrompt_image_waits.
  - apply generateLessonPrompt_video_waits.
  - intros t Ht Hne. rewrite Ht. now apply or_else_Some.
  - intros Hempty. pose proof (or_else_empty (text r1) fallbackPrompt Hempty) as E.
    split; [exact E|]. split.
    + intros r2. eexists.
      pose proof (generateLessonPrompt_image_run env topic difficulty r1 r2 []) as H.
      rewrite E in H. exact H.
    + intros first rest fetched blob objectUrl Hp. eexists.
      pose proof (generateLessonPrompt_video_run env topic difficulty r1 first rest
                    fetched blob objectUrl [] Hp) as H.
      rewrite E in H. exact H.
Qed.

Lemma empty_description_uses_fallback_witness :
  exists imageUrl,
    exec (generateLessonPrompt sampleEnv "Nature" Beginner image)
         [ReplyContent (Done (textResponse EmptyString));
          ReplyContent (Done (partsResponse [inlinePart "QUJD" "image/png"]))]
         (Returned
            [CallGenerateContent (getAI sampleEnv) (descriptionRequest "Nature" Beginner);
             CallGenerateContent (getAI sampleEnv)
               {| model := "gemini-2.5-flash-image";
                  contents :=
                    ContentsParts
                      ["A professional office scene showing a business analyst working on project requirements."];
                  config := ImageConfig "16:9" |}]
            (Done {| url := imageUrl;
                     promptText :=
                       "A professional office scene showing a business analyst working on project requirements." |})
            []).
Proof.
  destruct (empty_description_uses_fallback sampleEnv "Nature" Beginner
              (textResponse EmptyString)) as (_ & _ & _ & _ & H).
  destruct H as (_ & Himage & _); [right; reflexivity|].
  exact (Himage (partsResponse [inlinePart "QUJD" "image/png"])).
Defined.

(** C6. In the image branch, when no part of the first candidate of
    the image response carries inline data (or there are no parts at
    all), the [url] of the result is the empty string; when some part
    does, the [url] is the data URI built from the first such part. *)
Theorem image_url_from_first_inline_part env topic difficulty r1 r2 :
  let ai := getAI env in
  let visualPrompt := or_else (text r1) fallbackPrompt in
  let responseParts := match first_candidate_parts r2 with
                       | Some ps => ps
                       | None => []
                       end in
  exists imageUrl,
    exec (generateLessonPrompt env topic difficulty image)
         [ReplyContent (Done r1); ReplyContent (Done r2)]
         (Returned
            [CallGenerateContent ai (descriptionRequest topic difficulty);
             CallGenerateContent ai (imageRequest visualPrompt)]
            (Done {| url := imageUrl; promptText := visualPrompt |}) []) /\
    ((forall part, In part responseParts -> inlineData part = None) ->
     imageUrl = EmptyString) /\
    (forall before part payload rest,
       responseParts = (before ++ part :: rest)%list ->
       (forall p, In p before -> inlineData p = None) ->
       inlineData part = Some payload ->
       imageUrl = "data:image/png;base64," ++ template (data payload)).
Proof.
  cbv zeta. eexists. split; [apply generateLessonPrompt_image_run|]. split.
  - generalize (match first_candidate_parts r2 with Some ps => ps | None => [] end).
    intros ps Hnone. induction ps as [|p ps IH]; simpl; [reflexivity|].
    rewrite (Hnone p (or_introl eq_refl)). apply IH.
    intros q Hq. apply Hnone. now right.
  - intros before part payload rest -> Hbefore Hpart.
    induction before as [|p before IH]; simpl.
    + now rewrite Hpart.
    + rewrite (Hbefore p (or_introl eq_refl)). apply IH.
      intros q Hq. apply Hbefore. now right.
Qed.

Lemma image_url_from_first_inline_part_witness :
  exec (generateLessonPrompt sampleEnv "Nature" Beginner image)
       [ReplyContent (Done (textResponse "A forest at dawn."));
        ReplyContent (Done (partsResponse [textPart "Here it is.";
                                           inlinePart "QUJD" "image/jpeg";
                                           inlinePart "REVG" "image/png"]))]
       (Returned
          [CallGenerateContent (getAI sampleEnv) (descriptionRequest "Nature" Beginner);
           CallGenerateContent (getAI sampleEnv) (imageRequest "A forest at dawn.")]
          (Done {| url := "data:image/png;base64,QUJD";
                   promptText := "A forest at dawn." |}) []).
Proof.
  destruct (image_url_from_first_inline_part sampleEnv "Nature" Beginner
              (textResponse "A forest at dawn.")
              (partsResponse [textPart "Here it is."; inlinePart "QUJD" "image/jpeg";
                              inlinePart "REVG" "image/png"]))
    as (imageUrl & Hrun & _ & Hfirst).
  rewrite (Hfirst [textPart "Here it is."] (inlinePart "QUJD" "image/jpeg")
             {| data := Some "QUJD"; mimeType := Some "image/jpeg" |}
             [inlinePart "REVG" "image/png"] eq_refl) in Hrun.
  - exact Hrun.
  - intros p [<-|[]]. reflexivity.
  - reflexivity.
Defined.

(** C7. [generateSpeech] throws the error "No audio data received"
    exactly when the first part of the first candidate of the response
    carries no inline audio payload (the data is missing, or empty); when
    a payload is there, it returns that payload as it is. *)
Theorem generateSpeech_payload_or_error env txt resp :
  exists result,
    exec (generateSpeech env txt) [ReplyContent (Done resp)]
         (Returned [CallGenerateContent (getAI env) (speechParameters txt)] result []) /\
    (result = Thrown NoAudioData <->
     firstPartInlineData resp = None \/ firstPartInlineData resp = Some EmptyString) /\
    (forall payload,
       firstPartInlineData resp = Some payload -> payload <> EmptyString ->
       result = Done payload).
Proof.
  eexists. split; [apply generateSpeech_run|].
  destruct (firstPartInlineData resp) as [[|c s]|]; split.
  - split; auto.
  - intros payload H Hne. inversion H; subst. congruence.
  - split; [discriminate|]. intros [H|H]; discriminate.
  - intros payload H _. now inversion H.
  - split; auto.
  - intros payload H. discriminate.
Qed.

Lemma generateSpeech_payload_or_error_witness :
  exec (generateSpeech sampleEnv "Hello")
       [ReplyContent (Done (partsResponse [inlinePart "AQD+/w==" "audio/pcm"]))]
       (Returned [CallGenerateContent (getAI sampleEnv) (speechParameters "Hello")]
          (Done "AQD+/w==") []).
Proof.
  destruct (generateSpeech_payload_or_error sampleEnv "Hello"
              (partsResponse [inlinePart "AQD+/w==" "audio/pcm"]))
    as (result & Hrun & _ & Hpayload).
  rewrite (Hpayload "AQD+/w==" eq_refl) in Hrun; [exact Hrun|discriminate].
Defined.

(** C8. For every evaluation response, [evaluateDescription] returns
    what [JSON.parse] makes of the response text, and of the text of an
    empty object when the response text is empty or missing. So when the
    text is not empty, it returns the value the text stands for when the
    text is a JSON text, whatever that value is, and throws the
    SyntaxError of [JSON.parse] when the text is not one. Nothing checks
    that the required fields are there: a response whose text is an
    empty array is returned as such, with none of them. *)
Theorem evaluateDescription_parse_or_default env userDescription originalPrompt
        difficulty resp :
  exists result,
    exec (evaluateDescription env userDescription originalPrompt difficulty)
         [ReplyContent (Done resp)]
         (Returned
            [CallGenerateContent (getAI env)
               (evaluationParameters userDescription originalPrompt difficulty)]
            result []) /\
    (text resp = None \/ text resp = Some EmptyString -> result = Done (JObject [])) /\
    (forall t, text resp = Some t -> t <> EmptyString ->
       (forall v, json_text (units t) v <-> result = Done v) /\
       ((forall v, ~ json_text (units t) v) <-> result = Thrown SyntaxError)) /\
    (result = Thrown SyntaxError \/ exists v, result = Done v) /\
    (text resp = Some "[]" ->
     result = Done (JArray []) /\
     Forall (fun field => property (JArray []) field = None)
            ["score"; "corrections"; "vocabularySuggestions"; "overallComment";
             "modelSampleDescription"]).
Proof.
  eexists. split; [apply evaluateDescription_run|]. split; [|split; [|split]].
  - intros Hempty. now rewrite (or_else_empty (text resp) "{}" Hempty).
  - intros t Ht Hne. rewrite Ht, (or_else_Some t "{}" Hne). split.
    + intros v. symmetry. apply JSON_parse_Done.
    + symmetry. apply JSON_parse_Thrown.
  - apply JSON_parse_cases.
  - intros Ht. rewrite Ht. split; [reflexivity|].
    repeat constructor.
Qed.

Lemma evaluateDescription_parse_or_default_witness :
  exec (evaluateDescription sampleEnv "A tree." "A forest at dawn." Advanced)
       [ReplyContent (Done (textResponse (dquoted "{ 'score' : 7.5,
  'overallComment' : 'Fine.' }")))]
       (Returned
          [CallGenerateContent (getAI sampleEnv)
             (evaluationParameters "A tree." "A forest at dawn." Advanced)]
          (Done (JObject [(units "score", JNumber (Dbl (15 # 2)));
                          (units "overallComment", JString (units "Fine."))])) []) /\
  property (JObject [(units "score", JNumber (Dbl (15 # 2)));
                     (units "overallComment", JString (units "Fine."))])
           "corrections" = None.
Proof.
  destruct (evaluateDescription_parse_or_default sampleEnv "A tree."
              "A forest at dawn." Advanced
              (textResponse (dquoted "{ 'score' : 7.5,
  'overallComment' : 'Fine.' }")))
    as (result & Hrun & _ & Hparse & _).
  destruct (Hparse _ eq_refl) as [Hvalue _]; [discriminate|].
  rewrite (proj1 (Hvalue (JObject [(units "score", JNumber (Dbl (15 # 2)));
                                   (units "overallComment", JString (units "Fine."))])))
    in Hrun.
  - split; [exact Hrun|reflexivity].
  - apply JSON_parse_Done. vm_compute. reflexivity.
Defined.

(** C9 (amended). The feedback stored in a [HistoryItem] is the value
    the evaluation response stands for, stored as it is: a submission
    whose response is a JSON text puts one item in front of the history,
    whose feedback is the value of that text, and every other way
    through the handler (a rejected request, a text that is not JSON)
    leaves the history as it was. So the scores of the history lie in
    [0, 100] exactly when the score of each evaluation response does;
    nothing bounds them locally. *)
Theorem history_keeps_the_score_of_the_response env st currentPrompt :
  st_currentPrompt st = Some currentPrompt ->
  trims_to_empty (st_userText st) = false ->
  (forall resp result id now,
     json_text (units (or_else (text resp) "{}")) result ->
     exists log st',
       exec (handleSubmitDescription env st)
            (recognitionReplies st ++
             [ReplyContent (Done resp); ReplyString id; ReplyNumber now])
            (Returned log st' []) /\
       st_history st'
       = {| item_id := id; item_prompt := currentPrompt;
            item_userDescription := st_userText st; item_feedback := result;
            item_timestamp := now |} :: st_history st /\
       (Forall (fun item => score_in_range (item_feedback item)) (st_history st') <->
        score_in_range result /\
        Forall (fun item => score_in_range (item_feedback item)) (st_history st))) /\
  (forall settled,
     (exists err, settled = Thrown err) \/
     (exists resp, settled = Done resp /\
                   forall v, ~ json_text (units (or_else (text resp) "{}")) v) ->
     exists log st',
       exec (handleSubmitDescription env st)
            (recognitionReplies st ++ [ReplyContent settled; ReplyVoid; ReplyVoid])
            (Returned log st' []) /\
       st_history st' = st_history st).
Proof.
  intros Hprompt Htrim. split.
  - intros resp result id now Htext. apply JSON_parse_Done in Htext.
    eexists. eexists. split; [|split].
    + exact (handleSubmitDescription_stores env st currentPrompt resp result id now
               Hprompt Htrim Htext).
    + reflexivity.
    + cbn [submittedState setIsLoading setHistory st_history item_feedback].
      split.
      * intros H. inversion H; subst. auto.
      * intros [H1 H2]. now constructor.
  - intros settled Hfail.
    assert (Herr : exists err,
               settled = Thrown err \/
               exists resp, settled = Done resp /\
                            JSON_parse (units (or_else (text resp) "{}")) = Thrown err).
    { destruct Hfail as [(err & ->)|(resp & -> & Hno)].
      - exists err. now left.
      - exists SyntaxError. right. exists resp. split; [reflexivity|].
        now apply JSON_parse_Thrown. }
    destruct Herr as (err & Herr).
    eexists. eexists. split.
    + exact (handleSubmitDescription_fails env st currentPrompt settled err
               Hprompt Htrim Herr).
    + reflexivity.
Qed.

Lemma history_keeps_the_score_of_the_response_witness :
  exists log st' item,
    exec (handleSubmitDescription sampleEnv sampleState)
         [ReplyContent (Done (textResponse (feedbackText "100.00000000000000001")));
          ReplyString "a1b2c3d4e"; ReplyNumber 1700000000000]
         (Returned log st' []) /\
    st_history st' = [item] /\
    item_feedback item = feedbackValue (Dbl 100) /\
    score (item_feedback item) = Some (Dbl 100) /\
    Forall (fun item => score_in_range (item_feedback item)) (st_history st').
Proof.
  destruct (history_keeps_the_score_of_the_response sampleEnv sampleState samplePrompt
              eq_refl eq_refl) as [Hstore _].
  assert (Htext : json_text
                    (units (or_else (text (textResponse
                                             (feedbackText "100.00000000000000001")))
                                    "{}"))
                    (feedbackValue (Dbl 100))).
  { apply JSON_parse_Done. vm_compute. reflexivity. }
  destruct (Hstore (textResponse (feedbackText "100.00000000000000001"))
              (feedbackValue (Dbl 100)) "a1b2c3d4e" 1700000000000 Htext)
    as (log & st' & Hrun & Hhist & Hrange).
  exists log, st'. eexists. split; [exact Hrun|]. split; [exact Hhist|].
  split; [reflexivity|]. split; [reflexivity|].
  apply Hrange. split; [|constructor].
  exists (Dbl 100), 100%Q. repeat split; try reflexivity; unfold Qle; simpl; lia.
Defined.

(** C9 as stated fails: a response whose score is 150 is stored with
    that score, outside [0, 100]. *)
Lemma history_item_with_score_150 :
  exists log st' item,
    exec (handleSubmitDescription sampleEnv sampleState)
         [ReplyContent (Done (textResponse (feedbackText "150")));
          ReplyString "a1b2c3d4e"; ReplyNumber 1700000000000]
         (Returned log st' []) /\
    st_history st' = [item] /\
    item_feedback item = feedbackValue (Dbl 150) /\
    score (item_feedback item) = Some (Dbl 150) /\
    ~ score_in_range (item_feedback item).
Proof.
  eexists. eexists. eexists. split; [|split; [|split; [|split]]].
  - apply (handleSubmitDescription_stores sampleEnv sampleState samplePrompt
             (textResponse (feedbackText "150")) (feedbackValue (Dbl 150))
             "a1b2c3d4e" 1700000000000 eq_refl eq_refl).
    vm_compute. reflexivity.
  - reflexivity.
  - reflexivity.
  - reflexivity.
  - intros (d & q & Hd & Hq & _ & Hle).
    cbn in Hd. inversion Hd; subst d. cbn in Hq. inversion Hq; subst q.
    revert Hle. unfold Qle. simpl. lia.
Qed.

(** * Further properties of the audio pipeline *)

(** ** [decodeBase64] on any text *)

Lemma charCode_range (c : ascii) : 0 <= charCode c < 256.
Proof.
  unfold charCode. pose proof (N_ascii_bounded c). lia.
Qed.

Lemma byte_to_Z_ToUint8_charCode (c : ascii) : byte_to_Z (ToUint8 (charCode c)) = charCode c.
Proof.
  rewrite byte_to_Z_ToUint8. apply Z.mod_small. apply charCode_range.
Qed.

(** The loop of [decodeBase64] copies the binary string, one byte per
    character. *)
Lemma decodeBase64_of_atob (base64 binaryString : string) :
  atob base64 = Done binaryString ->
  decodeBase64 base64
  = Done (Uint8Array_of (map (fun c => ToUint8 (charCode c)) (chars binaryString))).
Proof.
  intros Hatob. unfold decodeBase64. rewrite Hatob. simpl cbind.
  set (cs := chars binaryString).
  unfold for_lt, loop_indices. unfold Zlength' at 1. rewrite Qceiling_Z, Nat2Z.id.
  rewrite fold_Uint8Array_set.
  - unfold new_Uint8Array, Uint8Array_of, Zlength'.
    cbn [buffer u8_length]. rewrite length_map, Nat2Z.id. do 2 f_equal.
    destruct (fold_update_spec
                (fun i (_ : option Byte.byte) => ToUint8 (charCodeAt binaryString i))
                (length cs) (repeat Byte.x00 (length cs))) as [Hlen Hnth].
    apply nth_error_ext. intros n.
    etransitivity; [apply Hnth|].
    destruct (Nat.ltb_spec n (length cs)) as [Hlt|Hge].
    + rewrite (nth_error_repeat _ Hlt). simpl.
      unfold charCodeAt. fold cs. rewrite Zget_of_nat, nth_error_map.
      destruct (nth_error cs n) as [c|] eqn:E; [reflexivity|].
      apply nth_error_None in E. lia.
    + transitivity (@None Byte.byte).
      * apply nth_error_None. rewrite repeat_length. lia.
      * symmetry. apply nth_error_None. rewrite length_map. lia.
  - reflexivity.
  - apply Forall_forall. intros i Hin. apply in_map_iff in Hin.
    destruct Hin as (n & <- & Hin). apply in_seq in Hin.
    unfold new_Uint8Array, Zlength'. cbn [u8_length]. lia.
Qed.

(** X1. For every text, [decodeBase64] throws what [atob] throws, and
    otherwise returns an array over a buffer of its own (offset 0, as
    long as the buffer) with one byte per character of the binary string
    [atob] returns, byte [i] being the code of character [i]. *)
Theorem decodeBase64_copies_binary_string (base64 : string) :
  (forall err, atob base64 = Thrown err -> decodeBase64 base64 = Thrown err) /\
  (forall binaryString, atob base64 = Done binaryString ->
     exists bytes,
       decodeBase64 base64 = Done bytes /\
       byteOffset bytes = 0 /\
       u8_length bytes = Zlength' (chars binaryString) /\
       Zlength' (buffer bytes) = Zlength' (chars binaryString) /\
       forall i c, Zget (chars binaryString) i = Some c ->
         option_map byte_to_Z (Zget (buffer bytes) i) = Some (charCode c)).
Proof.
  split.
  - intros err H. unfold decodeBase64. now rewrite H.
  - intros s H. eexists. split; [exact (decodeBase64_of_atob base64 s H)|].
    unfold Uint8Array_of, Zlength'. cbn [byteOffset u8_length buffer].
    rewrite length_map. repeat split.
    intros i c Hget. unfold Zget in *.
    destruct (i <? 0); [discriminate|].
    rewrite nth_error_map, Hget. simpl. now rewrite byte_to_Z_ToUint8_charCode.
Qed.

Lemma decodeBase64_copies_binary_string_witness :
  exists bytes,
    decodeBase64 "AQD+/w==" = Done bytes /\
    buffer bytes = [Byte.x01; Byte.x00; Byte.xfe; Byte.xff] /\
    decodeBase64 "AQD+/w=" = Thrown InvalidCharacterError.
Proof.
  destruct (decodeBase64_copies_binary_string "AQD+/w==") as [_ Hok].
  destruct (Hok _ eq_refl) as (bytes & Hrun & _).
  exists bytes. split; [exact Hrun|].
  split; [vm_compute in Hrun; inversion Hrun; reflexivity|].
  apply (proj1 (decodeBase64_copies_binary_string "AQD+/w=")). reflexivity.
Defined.

(** ** [decodeAudioData] on any input *)

Lemma to_int16_range (u : Z) : int16 (to_int16 u).
Proof.
  unfold int16, to_int16.
  pose proof (Z.mod_pos_bound u 65536 ltac:(lia)).
  destruct (Z.ltb_spec (u mod 65536) 32768); lia.
Qed.

Lemma int16_elements_range (bs : list Byte.byte) : Forall int16 (int16_elements bs).
Proof.
  assert (H : forall n bs, (length bs <= n)%nat -> Forall int16 (int16_elements bs)).
  { clear bs. induction n as [|n IH]; intros bs Hlen.
    - destruct bs; [constructor|simpl in Hlen; lia].
    - destruct bs as [|lo [|hi rest]]; simpl; try constructor.
      + apply to_int16_range.
      + apply IH. simpl in Hlen. lia. }
  apply (H (length bs)). lia.
Qed.

(** What a successful decode looks like, for a channel count that is an
    unsigned long: the buffer has that many channels, at least one frame
    and at most [floor(N/C)], and every frame is the quotient of the
    sample it was read from. *)
Lemma decodeAudioData_success ctx rate C (data : Uint8Array) (buf : AudioBuffer) :
  1 <= C < 2 ^ 32 ->
  decodeAudioData data ctx rate C = Done buf ->
  exists samples,
    new_Int16Array (buffer data) = Done samples /\
    numberOfChannels buf = C /\
    1 <= ab_length buf <= Zlength' samples / C /\
    C <= maxChannels ctx /\
    minSampleRate ctx <= rate <= maxSampleRate ctx /\
    ab_sampleRate buf = rate /\
    length (channels buf) = Z.to_nat C /\
    forall c, (c < Z.to_nat C)%nat ->
      exists ch, nth_error (channels buf) c = Some ch /\
        length ch = Z.to_nat (ab_length buf) /\
        forall i, (i < Z.to_nat (ab_length buf))%nat ->
          nth_error ch i = Some (sample_div samples (Z.of_nat i * C + Z.of_nat c)).
Proof.
  intros HC Hrun. unfold decodeAudioData in Hrun.
  destruct (new_Int16Array (buffer data)) as [samples|e] eqn:Hview; [|discriminate].
  simpl cbind in Hrun.
  set (N := Zlength' samples) in *.
  assert (HN : 0 <= N) by (unfold N, Zlength'; lia).
  rewrite js_div_pos in Hrun by lia.
  unfold createBuffer in Hrun. rewrite (Z.mod_small C) in Hrun by lia.
  set (L := to_unsigned_long (Finite (inject_Z N / inject_Z C))) in *.
  destruct (1 <=? C) eqn:E1; [|discriminate].
  destruct (C <=? maxChannels ctx) eqn:E2; [|discriminate].
  destruct (1 <=? L) eqn:E3; [|discriminate].
  destruct (minSampleRate ctx <=? rate) eqn:E4; [|discriminate].
  destruct (rate <=? maxSampleRate ctx) eqn:E5; [|discriminate].
  apply Z.leb_le in E2, E3, E4, E5.
  simpl cbind in Hrun. cbn [numberOfChannels ab_length ab_sampleRate channels] in Hrun.
  assert (HL : L <= N / C).
  { unfold L, to_unsigned_long.
    rewrite Qtruncate_nonneg by (apply Qnum_div_nonneg; lia).
    rewrite <- Zdiv_Qdiv. apply Z.mod_le; [apply Z.div_pos; lia|lia]. }
  unfold for_lt_throwing, getChannelData in Hrun. cbn [loop_indices] in Hrun.
  rewrite Qceiling_Z in Hrun.
  rewrite (fold_channels_no_throw
             (fun channel cd =>
                for_lt (Finite (inject_Z N / inject_Z C))
                  (fun i cd0 => Zset cd0 i (sample_div samples (i * C + channel))) cd))
    in Hrun.
  2:{ apply Forall_forall. intros i Hin. apply in_map_iff in Hin.
      destruct Hin as (n & <- & Hin). apply in_seq in Hin.
      unfold Zlength'. rewrite repeat_length. lia. }
  simpl cbind in Hrun. inversion Hrun; subst buf; clear Hrun.
  cbn [numberOfChannels ab_length ab_sampleRate channels].
  exists samples. split; [reflexivity|]. split; [reflexivity|].
  split; [fold N; lia|]. split; [exact E2|]. split; [lia|]. split; [reflexivity|].
  set (inner := fun (channel : Z) (cd : list number) =>
                  for_lt (Finite (inject_Z N / inject_Z C))
                    (fun i cd0 => Zset cd0 i (sample_div samples (i * C + channel))) cd).
  set (h := fun (channel : Z) (o : option (list number)) =>
              inner channel (match o with Some c => c | None => [] end)).
  destruct (fold_update_spec h (Z.to_nat C)
              (repeat (repeat (Finite 0) (Z.to_nat L)) (Z.to_nat C)))
    as [Hlen Hnth].
  split.
  - etransitivity; [exact Hlen|]. apply repeat_length.
  - intros c Hc.
    eexists. split.
    + etransitivity; [apply Hnth|].
      replace (c <? Z.to_nat C)%nat with true by (symmetry; apply Nat.ltb_lt; lia).
      rewrite (nth_error_repeat _ Hc). simpl. reflexivity.
    + unfold h, inner, for_lt. cbn [loop_indices].
      destruct (fold_update_spec
                  (fun i (_ : option number) => sample_div samples (i * C + Z.of_nat c))
                  (Z.to_nat (Qceiling (inject_Z N / inject_Z C)))
                  (repeat (Finite 0) (Z.to_nat L))) as [Hlen' Hnth'].
      split.
      * etransitivity; [exact Hlen'|]. apply repeat_length.
      * intros i Hi. etransitivity; [apply Hnth'|].
        pose proof (Qceiling_div_ge N C) as Hceil.
        replace (i <? Z.to_nat (Qceiling (inject_Z N / inject_Z C)))%nat
          with true by (symmetry; apply Nat.ltb_lt; lia).
        rewrite (nth_error_repeat _ Hi). reflexivity.
Qed.

(** X2. [decodeBase64] undoes the base64 encoding of any byte
    sequence: it returns exactly those bytes, in a buffer of its own. *)
Theorem decodeBase64_inverts_base64 (bs : list Byte.byte) :
  exists bytes,
    decodeBase64 (btoa_bytes bs) = Done bytes /\
    buffer bytes = bs /\ byteOffset bytes = 0 /\ u8_length bytes = Zlength' bs.
Proof.
  exists (Uint8Array_of bs). split; [apply decodeBase64_btoa_bytes|].
  repeat split.
Qed.

(** X3. Whenever [decodeAudioData] returns a buffer, for a channel
    count that is an unsigned long, every channel has the length of the
    buffer and every frame is a finite number [s/32768] for a 16-bit
    sample [s], hence in [-1, 1): no NaN and no value out of range is
    ever stored. *)
Theorem decoded_frames_are_normalized ctx rate C (data : Uint8Array) (buf : AudioBuffer) :
  1 <= C < 2 ^ 32 ->
  decodeAudioData data ctx rate C = Done buf ->
  Zlength' (channels buf) = C /\
  (forall c ch, Zget (channels buf) c = Some ch -> Zlength' ch = ab_length buf) /\
  (forall c i v, frame buf c i = Some v ->
     exists s q, int16 s /\ v = Finite q /\
                 (q == inject_Z s / inject_Z 32768)%Q /\ (-1 <= q)%Q /\ (q < 1)%Q).
Proof.
  intros HC Hrun.
  destruct (decodeAudioData_success ctx rate C data buf HC Hrun)
    as (samples & Hview & Hnc & HL & _ & _ & _ & Hlen & Hch).
  assert (Hs : Forall int16 samples).
  { unfold new_Int16Array in Hview.
    destruct (Zlength' (buffer data) mod 2 =? 0); inversion Hview.
    apply int16_elements_range. }
  assert (Hin : forall c ch, Zget (channels buf) c = Some ch ->
                  0 <= c < C /\ nth_error (channels buf) (Z.to_nat c) = Some ch).
  { intros c ch Hget. unfold Zget in Hget.
    destruct (Z.ltb_spec c 0); [discriminate|]. split; [|exact Hget].
    assert ((Z.to_nat c < length (channels buf))%nat)
      by (apply nth_error_Some; congruence).
    lia. }
  split; [unfold Zlength'; lia|]. split.
  - intros c ch Hget. destruct (Hin c ch Hget) as [Hc Hn].
    destruct (Hch (Z.to_nat c) ltac:(lia)) as (ch' & Hn' & Hl & _).
    assert (ch' = ch) by congruence. subst ch'. unfold Zlength'. lia.
  - intros c i v Hframe. unfold frame in Hframe.
    destruct (Zget (channels buf) c) as [ch|] eqn:Hget; [|discriminate].
    destruct (Hin c ch Hget) as [Hc Hn].
    destruct (Hch (Z.to_nat c) ltac:(lia)) as (ch' & Hn' & Hl & Hfr).
    assert (ch' = ch) by congruence. subst ch'.
    unfold Zget in Hframe. destruct (Z.ltb_spec i 0); [discriminate|].
    assert (Hi : (Z.to_nat i < length ch)%nat) by (apply nth_error_Some; congruence).
    rewrite (Hfr (Z.to_nat i) ltac:(lia)) in Hframe.
    rewrite !Z2Nat.id in Hframe by lia.
    assert (Hidx : 0 <= i * C + c < Zlength' samples).
    { assert (i < ab_length buf) by lia.
      assert ((ab_length buf) * C <= Zlength' samples).
      { pose proof (Z.mul_div_le (Zlength' samples) C ltac:(lia)). nia. }
      nia. }
    destruct (Zget samples (i * C + c)) as [s|] eqn:Hs'.
    2:{ unfold Zget in Hs'. destruct (Z.ltb_spec (i * C + c) 0); [lia|].
        apply nth_error_None in Hs'. unfold Zlength' in Hidx. lia. }
    assert (Hint : int16 s).
    { rewrite Forall_forall in Hs. apply Hs.
      unfold Zget in Hs'. destruct (i * C + c <? 0); [discriminate|].
      eapply nth_error_In. exact Hs'. }
    rewrite (sample_div_Some _ _ Hs') in Hframe. inversion Hframe; subst v.
    exists s. eexists. split; [exact Hint|]. split; [reflexivity|].
    split; [reflexivity|].
    unfold int16 in Hint. unfold Qdiv, Qinv, Qmult, Qle, Qlt. simpl. lia.
Qed.

Lemma decoded_frames_are_normalized_witness :
  exists buf,
    decodeAudioData (Uint8Array_of (pcm16le [-32768; 32767; 5])) baselineContext 24000 2
    = Done buf /\
    Zlength' (channels buf) = 2.
Proof.
  eexists. split; [reflexivity|].
  apply (decoded_frames_are_normalized baselineContext 24000 2
           (Uint8Array_of (pcm16le [-32768; 32767; 5])));
    [lia|reflexivity].
Defined.

(** X4. On a buffer of even byte length, [decodeAudioData] throws
    NotSupportedError, and decodes nothing, when the channel count is 0
    or above what the context allows, or when the sample rate is outside
    the range of the context. *)
Theorem decodeAudioData_rejects_unsupported ctx rate C (data : Uint8Array) :
  Zlength' (buffer data) mod 2 = 0 ->
  0 <= C < 2 ^ 32 ->
  C = 0 \/ maxChannels ctx < C \/ rate < minSampleRate ctx \/ maxSampleRate ctx < rate ->
  decodeAudioData data ctx rate C = Thrown NotSupportedError.
Proof.
  intros Heven HC Hbad. unfold decodeAudioData, new_Int16Array.
  rewrite Heven. simpl. unfold createBuffer.
  rewrite (Z.mod_small C) by lia.
  destruct (Z.leb_spec 1 C), (Z.leb_spec C (maxChannels ctx)),
    (Z.leb_spec (minSampleRate ctx) rate), (Z.leb_spec rate (maxSampleRate ctx));
    simpl; rewrite ?andb_false_r; try reflexivity.
  exfalso. lia.
Qed.

Lemma decodeAudioData_rejects_unsupported_witness :
  decodeAudioData (Uint8Array_of (pcm16le [1; 2; 3])) baselineContext 24000 0
  = Thrown NotSupportedError /\
  decodeAudioData (Uint8Array_of (pcm16le [1; 2; 3])) baselineContext 4000 1
  = Thrown NotSupportedError.
Proof.
  split.
  - apply (decodeAudioData_rejects_unsupported baselineContext 24000 0
             (Uint8Array_of (pcm16le [1; 2; 3]))); [reflexivity|lia|left; reflexivity].
  - apply (decodeAudioData_rejects_unsupported baselineContext 4000 1
             (Uint8Array_of (pcm16le [1; 2; 3]))); [reflexivity|lia|].
    right; right; left. simpl. lia.
Defined.

(** * Further properties of the service functions *)

(** X5. [generateLessonPrompt] lets every rejection through: when the
    description request, the image request, the video submission, the
    download or the reading of its body is rejected, the function
    rejects with the same error right after that call, and makes no
    further call. *)
Theorem generateLessonPrompt_propagates_rejections env topic difficulty :
  let ai := getAI env in
  (forall type err unread,
     exec (generateLessonPrompt env topic difficulty type)
          (ReplyContent (Thrown err) :: unread)
          (Returned [CallGenerateContent ai (descriptionRequest topic difficulty)]
                    (Thrown err) unread)) /\
  (forall r1 err unread,
     exec (generateLessonPrompt env topic difficulty image)
          (ReplyContent (Done r1) :: ReplyContent (Thrown err) :: unread)
          (Returned
             [CallGenerateContent ai (descriptionRequest topic difficulty);
              CallGenerateContent ai (imageRequest (or_else (text r1) fallbackPrompt))]
             (Thrown err) unread)) /\
  (forall r1 err unread,
     exec (generateLessonPrompt env topic difficulty video)
          (ReplyContent (Done r1) :: ReplyOperation (Thrown err) :: unread)
          (Returned
             [CallGenerateContent ai (descriptionRequest topic difficulty);
              CallGenerateVideos ai (videoRequest (or_else (text r1) fallbackPrompt))]
             (Thrown err) unread)) /\
  (forall r1 first rest err unread,
     pending_then_done first rest ->
     exec (generateLessonPrompt env topic difficulty video)
          (ReplyContent (Done r1) :: ReplyOperation (Done first)
             :: pollScript rest ++ ReplyFetch (Thrown err) :: unread)
          (Returned
             (CallGenerateContent ai (descriptionRequest topic difficulty)
                :: CallGenerateVideos ai (videoRequest (or_else (text r1) fallbackPrompt))
                :: pollLog ai first rest
                ++ [CallFetch (template (downloadLink (last rest first)) ++ "&key="
                               ++ template (API_KEY env))])
             (Thrown err) unread)) /\
  (forall r1 first rest fetched err unread,
     pending_then_done first rest ->
     exec (generateLessonPrompt env topic difficulty video)
          (ReplyContent (Done r1) :: ReplyOperation (Done first)
             :: pollScript rest
             ++ ReplyFetch (Done fetched) :: ReplyBlob (Thrown err) :: unread)
          (Returned
             (CallGenerateContent ai (descriptionRequest topic difficulty)
                :: CallGenerateVideos ai (videoRequest (or_else (text r1) fallbackPrompt))
                :: pollLog ai first rest
                ++ [CallFetch (template (downloadLink (last rest first)) ++ "&key="
                               ++ template (API_KEY env));
                    CallResponseBlob fetched])
             (Thrown err) unread)).
Proof.
  cbv zeta. split; [|split; [|split; [|split]]].
  - intros type err unread. unfold generateLessonPrompt.
    eapply exec_await_thrown. reflexivity.
  - intros r1 err unread. unfold generateLessonPrompt.
    await_returned. eapply exec_await_thrown. reflexivity.
  - intros r1 err unread. unfold generateLessonPrompt.
    await_returned. eapply exec_await_thrown. reflexivity.
  - intros r1 first rest err unread Hp. unfold generateLessonPrompt.
    await_returned. await_returned.
    pose proof (pollUntilDone_chain (getAI env) rest first
                  (ReplyFetch (Thrown err) :: unread) Hp) as Hpoll.
    match goal with
    | |- exec (await_call _ ?k) _ _ =>
        pose proof (exec_await_call _ k _ _ _ _
                      (Returned
                         [CallFetch (template (downloadLink (last rest first)) ++ "&key="
                                     ++ template (API_KEY env))]
                         (Thrown err) unread)
                      Hpoll) as H
    end.
    rewrite after_Returned in H. apply H. clear H Hpoll.
    eapply exec_await_thrown. reflexivity.
  - intros r1 first rest fetched err unread Hp. unfold generateLessonPrompt.
    await_returned. await_returned.
    pose proof (pollUntilDone_chain (getAI env) rest first
                  (ReplyFetch (Done fetched) :: ReplyBlob (Thrown err) :: unread) Hp)
      as Hpoll.
    match goal with
    | |- exec (await_call _ ?k) _ _ =>
        pose proof (exec_await_call _ k _ _ _ _
                      (Returned
                         [CallFetch (template (downloadLink (last rest first)) ++ "&key="
                                     ++ template (API_KEY env));
                          CallResponseBlob fetched]
                         (Thrown err) unread)
                      Hpoll) as H
    end.
    rewrite after_Returned in H. apply H. clear H Hpoll.
    await_returned. eapply exec_await_thrown. reflexivity.
Qed.

Lemma generateLessonPrompt_propagates_rejections_witness :
  exec (generateLessonPrompt sampleEnv "Nature" Beginner video)
       [ReplyContent (Done (textResponse "A forest at dawn."));
        ReplyOperation (Done (pendingOperation "op"));
        ReplyVoid;
        ReplyOperation (Done (finishedOperation "op" "https://host/video?alt=media"));
        ReplyFetch (Thrown (mkError "TypeError" "Failed to fetch"))]
       (Returned
          [CallGenerateContent (getAI sampleEnv) (descriptionRequest "Nature" Beginner);
           CallGenerateVideos (getAI sampleEnv) (videoRequest "A forest at dawn.");
           CallSetTimeout 10000;
           CallGetVideosOperation (getAI sampleEnv) (pendingOperation "op");
           CallFetch "https://host/video?alt=media&key=KEY"]
          (Thrown (mkError "TypeError" "Failed to fetch")) []).
Proof.
  destruct (generateLessonPrompt_propagates_rejections sampleEnv "Nature" Beginner)
    as (_ & _ & _ & Hfetch & _).
  apply (Hfetch (textResponse "A forest at dawn.") (pendingOperation "op")
           [finishedOperation "op" "https://host/video?alt=media"]
           (mkError "TypeError" "Failed to fetch") []).
  simpl. auto.
Defined.

(** X6. [evaluateDescription] and [generateSpeech] make one request
    each; when it is rejected they reject with the same error:
    [evaluateDescription] does not fall back to the empty object, and
    [generateSpeech] does not report missing audio. *)
Theorem single_request_functions_propagate_rejections env err unread :
  (forall userDescription originalPrompt difficulty,
     exec (evaluateDescription env userDescription originalPrompt difficulty)
          (ReplyContent (Thrown err) :: unread)
          (Returned
             [CallGenerateContent (getAI env)
                (evaluationParameters userDescription originalPrompt difficulty)]
             (Thrown err) unread)) /\
  (forall txt,
     exec (generateSpeech env txt) (ReplyContent (Thrown err) :: unread)
          (Returned [CallGenerateContent (getAI env) (speechParameters txt)]
                    (Thrown err) unread)).
Proof.
  split.
  - intros. apply evaluateDescription_rejected.
  - intros. unfold generateSpeech. eapply exec_await_thrown. reflexivity.
Qed.

(** X7. The download URL is put together without a check: when the
    finished operation carries no video URI, or the environment has no
    API key, the function still fetches, from a URL in which the missing
    piece reads [undefined], and resolves with whatever comes back. *)
Theorem download_url_is_not_checked env topic difficulty r1 first rest
        fetched blob objectUrl :
  pending_then_done first rest ->
  downloadLink (last rest first) = None \/ API_KEY env = None ->
  exists fetchedUrl,
    exec (generateLessonPrompt env topic difficulty video)
         (ReplyContent (Done r1) :: ReplyOperation (Done first)
            :: pollScript rest
            ++ [ReplyFetch (Done fetched); ReplyBlob (Done blob); ReplyString objectUrl])
         (Returned
            (CallGenerateContent (getAI env) (descriptionRequest topic difficulty)
               :: CallGenerateVideos (getAI env)
                    (videoRequest (or_else (text r1) fallbackPrompt))
               :: pollLog (getAI env) first rest
               ++ [CallFetch fetchedUrl; CallResponseBlob fetched;
                   CallCreateObjectURL blob])
            (Done {| url := objectUrl;
                     promptText := or_else (text r1) fallbackPrompt |}) []) /\
    (downloadLink (last rest first) = None ->
     fetchedUrl = "undefined&key=" ++ template (API_KEY env)) /\
    (API_KEY env = None ->
     fetchedUrl = template (downloadLink (last rest first)) ++ "&key=undefined" /\
     apiKey (getAI env) = EmptyString).
Proof.
  intros Hp _. eexists. split; [|split].
  - exact (generateLessonPrompt_video_run env topic difficulty r1 first rest
             fetched blob objectUrl [] Hp).
  - intros ->. reflexivity.
  - intros Hkey. unfold getAI. rewrite Hkey. split; reflexivity.
Qed.

Lemma download_url_is_not_checked_witness :
  exists fetchedUrl log,
    exec (generateLessonPrompt {| API_KEY := None |} "Nature" Beginner video)
         [ReplyContent (Done noText);
          ReplyOperation
            (Done {| op_name := "op"; done := Some true; response := None |});
          ReplyFetch (Done {| fetched_from := "undefined"; body := "<html>" |});
          ReplyBlob (Done {| blob_bytes := "<html>" |});
          ReplyString "blob:2"]
         (Returned log (Done {| url := "blob:2"; promptText := fallbackPrompt |}) []) /\
    In (CallFetch fetchedUrl) log /\
    fetchedUrl = "undefined&key=undefined".
Proof.
  destruct (download_url_is_not_checked {| API_KEY := None |} "Nature" Beginner noText
              {| op_name := "op"; done := Some true; response := None |} []
              {| fetched_from := "undefined"; body := "<html>" |}
              {| blob_bytes := "<html>" |} "blob:2" eq_refl (or_introl eq_refl))
    as (fetchedUrl & Hrun & Hlink & _).
  exists fetchedUrl. eexists. split; [exact Hrun|]. split.
  - simpl. right. right. left. reflexivity.
  - rewrite (Hlink eq_refl). reflexivity.
Defined.

(** * Further properties of the application *)

(** ** Trimming, splitting and counting words *)

Lemma drop_whitespace_spec (l : list ascii) :
  exists lead,
    l = (lead ++ drop_whitespace l)%list /\
    forallb is_js_whitespace lead = true /\
    match drop_whitespace l with
    | [] => True
    | c :: _ => is_js_whitespace c = false
    end.
Proof.
  induction l as [|c l IH]; simpl.
  - exists []. auto.
  - destruct (is_js_whitespace c) eqn:E.
    + destruct IH as (lead & Hl & Hws & Hhd).
      exists (c :: lead). simpl. rewrite E, Hws. split; [|auto]. now rewrite <- Hl.
    + exists []. simpl. auto.
Qed.

(** A text is white space, the trimmed text, and white space; the
    trimmed text is empty or has a character that is not white space at
    both ends. *)
Lemma trim_spec (s : string) :
  exists lead trail,
    chars s = (lead ++ chars (trim s) ++ trail)%list /\
    forallb is_js_whitespace lead = true /\
    forallb is_js_whitespace trail = true /\
    (chars (trim s) = [] \/
     exists c r, chars (trim s) = c :: r /\ is_js_whitespace c = false /\
                 ends_in_word true r = true).
Proof.
  assert (Htrim : chars (trim s)
                  = rev (drop_whitespace (rev (drop_whitespace (chars s))))).
  { unfold trim. apply list_ascii_of_string_of_list_ascii. }
  rewrite Htrim. clear Htrim.
  destruct (drop_whitespace_spec (chars s)) as (lead & Hl & Hlead & Hhd).
  set (l' := drop_whitespace (chars s)) in *.
  destruct (drop_whitespace_spec (rev l')) as (tr & Ht & Htr & Hhd').
  set (m := drop_whitespace (rev l')) in *.
  assert (Hl' : l' = (rev m ++ rev tr)%list).
  { rewrite <- rev_app_distr, <- Ht. symmetry. apply rev_involutive. }
  exists lead, (rev tr). split; [|split; [|split]].
  - rewrite Hl at 1. now rewrite Hl'.
  - exact Hlead.
  - rewrite forallb_forall in *. intros x Hx. apply Htr. now apply in_rev.
  - destruct m as [|z m'] eqn:Em; [now left|]. right.
    assert (Hend : forall l b, ends_in_word b (l ++ [z]) = true).
    { induction l as [|x l IH]; intros b; simpl; [now rewrite Hhd'|apply IH]. }
    simpl rev. destruct (rev m') as [|c r] eqn:Er.
    + exists z, []. simpl. auto.
    + exists c, (r ++ [z])%list. split; [reflexivity|]. split; [|apply Hend].
      rewrite Hl' in Hhd. simpl in Hhd. rewrite Er in Hhd. exact Hhd.
Qed.

Lemma count_words_nonneg (b : bool) (l : list ascii) : 0 <= count_words b l.
Proof.
  revert b. induction l as [|c l IH]; intros b; simpl; [lia|].
  destruct (is_js_whitespace c); [apply IH|].
  pose proof (IH false). destruct b; lia.
Qed.

Lemma count_words_lead (lead l : list ascii) :
  forallb is_js_whitespace lead = true ->
  count_words true (lead ++ l) = count_words true l.
Proof.
  induction lead as [|c lead IH]; simpl; auto.
  intros H. apply andb_true_iff in H. destruct H as [Hc H]. rewrite Hc. auto.
Qed.

Lemma count_words_trail (trail l : list ascii) (b : bool) :
  forallb is_js_whitespace trail = true ->
  count_words b (l ++ trail) = count_words b l.
Proof.
  intros Ht. revert b. induction l as [|c l IH]; intros b; simpl.
  - clear -Ht. revert b. induction trail as [|c trail IH]; intros b; simpl; auto.
    simpl in Ht. apply andb_true_iff in Ht. destruct Ht as [Hc Ht]. rewrite Hc. auto.
  - destruct (is_js_whitespace c); now rewrite IH.
Qed.

Lemma count_words_zero_iff (l : list ascii) :
  count_words true l = 0 <-> forallb is_js_whitespace l = true.
Proof.
  induction l as [|c l IH]; cbn [count_words forallb]; [tauto|].
  destruct (is_js_whitespace c); cbn [andb]; [exact IH|].
  pose proof (count_words_nonneg false l). split; [lia|discriminate].
Qed.

(** The pieces of a split that ends inside a word: one per word. *)
Lemma split_whitespace_count (s : list ascii) :
  forall cur in_run,
    ends_in_word (negb in_run) s = true ->
    Zlength' (split_whitespace s cur in_run)
    = (if in_run then 0 else 1) + count_words in_run s.
Proof.
  unfold Zlength'.
  induction s as [|c s IH]; intros cur in_run Hend; simpl in *.
  - destruct in_run; [discriminate|reflexivity].
  - destruct (is_js_whitespace c) eqn:E; simpl in Hend.
    + destruct in_run.
      * rewrite (IH cur true Hend). reflexivity.
      * cbn [length]. rewrite Nat2Z.inj_succ, (IH [] true Hend). lia.
    + rewrite (IH (c :: cur) false Hend). destruct in_run; lia.
Qed.

Lemma trim_empty_iff (s : string) :
  String.eqb (trim s) EmptyString = true <-> trims_to_empty s = true.
Proof.
  destruct (trim_spec s) as (lead & trail & Hs & Hlead & Htrail & Hcore).
  unfold trims_to_empty. rewrite Hs, !forallb_app, Hlead, Htrail.
  rewrite andb_true_r. simpl.
  destruct Hcore as [Hc | (c & r & Hc & Hws & _)].
  - rewrite Hc. simpl. split; auto. intros _.
    destruct (trim s); [reflexivity|discriminate].
  - rewrite Hc. simpl. rewrite Hws. simpl. split; [|discriminate].
    intros H. apply String.eqb_eq in H. rewrite H in Hc. discriminate.
Qed.

Lemma wordCount_count_words (s : string) :
  wordCount s = count_words true (chars s).
Proof.
  destruct (trim_spec s) as (lead & trail & Hs & Hlead & Htrail & Hcore).
  rewrite Hs, (count_words_lead _ _ Hlead), (count_words_trail _ _ true Htrail).
  unfold wordCount.
  destruct Hcore as [Hc | (c & r & Hc & Hws & Hend)].
  - rewrite Hc. destruct (trim s) eqn:E; [reflexivity|discriminate].
  - destruct (String.eqb (trim s) EmptyString) eqn:E.
    + apply String.eqb_eq in E. rewrite E in Hc. discriminate.
    + rewrite Hc.
      rewrite (split_whitespace_count (c :: r) [] false)
        by (simpl; rewrite Hws; exact Hend).
      simpl. rewrite Hws. lia.
Qed.

(** X8. [wordCount] is the number of words of the text: of the maximal
    runs of characters that are not white space. It is 0 exactly for a
    text of nothing but white space, and the count of two texts put
    together with a space between them is the sum of their counts. *)
Theorem wordCount_counts_words (userText : string) :
  wordCount userText = count_words true (chars userText) /\
  (wordCount userText = 0 <-> trims_to_empty userText = true) /\
  (forall other, wordCount (userText ++ " " ++ other)
                 = wordCount userText + wordCount other).
Proof.
  split; [apply wordCount_count_words|]. split.
  - rewrite wordCount_count_words. apply count_words_zero_iff.
  - intros other. rewrite !wordCount_count_words.
    assert (Happ : forall a b, chars (a ++ b) = (chars a ++ chars b)%list).
    { induction a as [|x a IH]; intros b; simpl; [reflexivity|]. now rewrite IH. }
    rewrite !Happ. change (chars " ") with [" "%char].
    generalize (chars other). generalize (chars userText). clear.
    intros l l'.
    enough (H : forall b, count_words b (l ++ [" "%char] ++ l')
                          = count_words b l + count_words true l') by apply H.
    induction l as [|c l IH]; intros b; cbn [count_words app].
    + change (is_js_whitespace " "%char) with true. cbv iota. lia.
    + destruct (is_js_whitespace c); rewrite IH; lia.
Qed.

(** ** The submit handler and the word count *)

Lemma wordCount_nonneg (s : string) : 0 <= wordCount s.
Proof. rewrite wordCount_count_words. apply count_words_nonneg. Qed.

Lemma wordCount_pos_trims (s : string) :
  0 < wordCount s -> trims_to_empty s = false.
Proof.
  intros Hpos. destruct (trims_to_empty s) eqn:E; [|reflexivity].
  unfold trims_to_empty in E. apply count_words_zero_iff in E.
  rewrite <- wordCount_count_words in E. lia.
Qed.

(** With a prompt and a text that is not blank, the handler stops the
    recognition if it is recording and asks for the evaluation. *)
Lemma handleSubmitDescription_asks (env : ProcessEnv) (st : AppState)
      (currentPrompt : LessonPrompt) :
  st_currentPrompt st = Some currentPrompt ->
  trims_to_empty (st_userText st) = false ->
  exec (handleSubmitDescription env st) (recognitionReplies st)
       (Pending (recognitionCalls st)
          (CallGenerateContent (getAI env)
             (evaluationParameters (st_userText st) (lp_description currentPrompt)
                (st_difficulty st)))).
Proof.
  intros Hprompt Htrim.
  unfold handleSubmitDescription. rewrite Hprompt, Htrim.
  pose proof (recognition_run st []) as Hrec. rewrite app_nil_r in Hrec.
  rewrite <- (app_nil_r (recognitionCalls st)), <- after_Pending.
  eapply exec_bind; [exact Hrec|].
  apply exec_bind_pending. unfold evaluateDescription. apply exec_await_pending.
Qed.

(** X9. The submit handler does something exactly when a prompt is shown
    and the word count of the text is not 0: otherwise it returns at
    once, with no call and the state as it was; with a prompt and a
    word, it stops the recognition when that is recording and then asks
    for the evaluation of the text against the description of the
    prompt. *)
Theorem submit_needs_a_prompt_and_a_word (env : ProcessEnv) (st : AppState) :
  (st_currentPrompt st = None \/ wordCount (st_userText st) = 0 ->
   forall script,
     exec (handleSubmitDescription env st) script (Returned [] st script)) /\
  (forall currentPrompt,
     st_currentPrompt st = Some currentPrompt ->
     0 < wordCount (st_userText st) ->
     exec (handleSubmitDescription env st) (recognitionReplies st)
          (Pending (recognitionCalls st)
             (CallGenerateContent (getAI env)
                (evaluationParameters (st_userText st) (lp_description currentPrompt)
                   (st_difficulty st))))).
Proof.
  split.
  - intros H script. apply handleSubmitDescription_guard.
    destruct H as [H|H]; [now left|right].
    unfold trims_to_empty. apply count_words_zero_iff.
    now rewrite <- wordCount_count_words.
  - intros currentPrompt Hprompt Hpos.
    apply (handleSubmitDescription_asks env st currentPrompt Hprompt).
    exact (wordCount_pos_trims _ Hpos).
Qed.

Lemma submit_needs_a_prompt_and_a_word_witness :
  exec (handleSubmitDescription sampleEnv sampleState) []
       (Pending []
          (CallGenerateContent (getAI sampleEnv)
             (evaluationParameters "An analyst presents a backlog." "A quiet office."
                Intermediate))).
Proof.
  destruct (submit_needs_a_prompt_and_a_word sampleEnv sampleState) as [_ H].
  apply (H samplePrompt eq_refl). vm_compute. reflexivity.
Defined.

(** What the handler does with the outcome of the evaluation: with a
    value, the identifier and the time are taken and the item is stored;
    with an error, it is logged and an alert shown. *)
Lemma handleSubmitDescription_run (env : ProcessEnv) (st : AppState)
      (currentPrompt : LessonPrompt) (settled : Completion GenerateContentResponse)
      (log : list call) (outcome : Completion Feedback) :
  st_currentPrompt st = Some currentPrompt ->
  trims_to_empty (st_userText st) = false ->
  exec (evaluateDescription env (st_userText st) (lp_description currentPrompt)
          (st_difficulty st))
       [ReplyContent settled] (Returned log outcome []) ->
  forall id now,
    exec (handleSubmitDescription env st)
         (recognitionReplies st ++
          ReplyContent settled ::
          match outcome with
          | Done _ => [ReplyString id; ReplyNumber now]
          | Thrown _ => [ReplyVoid; ReplyVoid]
          end)
         (Returned
            (recognitionCalls st ++ log ++
             match outcome with
             | Done _ => [CallRandomId; CallDateNow]
             | Thrown error =>
                 [CallConsoleError error; CallAlert "Evaluation failed. Please try again."]
             end)
            (match outcome with
             | Done result =>
                 submittedState st
                   {| item_id := id; item_prompt := currentPrompt;
                      item_userDescription := st_userText st; item_feedback := result;
                      item_timestamp := now |}
             | Thrown _ => failedState st
             end) []).
Proof.
  intros Hprompt Htrim Hrun id now.
  pose proof (evaluateDescription_settles env (st_userText st)
                (lp_description currentPrompt) (st_difficulty st) settled []) as Hsettles.
  pose proof (exec_functional _ _ _ _ Hrun Hsettles) as E.
  assert (Hlog : log = [CallGenerateContent (getAI env)
                          (evaluationParameters (st_userText st)
                             (lp_description currentPrompt) (st_difficulty st))])
    by congruence.
  assert (Hout : (let! resp := settled in
                  JSON_parse (units (or_else (text resp) "{}"))) = outcome)
    by congruence.
  clear E Hsettles. subst log.
  destruct outcome as [result|error].
  - destruct settled as [resp|err]; [|discriminate].
    simpl cbind in Hout.
    pose proof (handleSubmitDescription_stores env st currentPrompt resp result id now
                  Hprompt Htrim Hout) as H.
    rewrite app_nil_r in H. exact H.
  - assert (Hfail : settled = Thrown error \/
                    exists resp, settled = Done resp /\
                                 JSON_parse (units (or_else (text resp) "{}"))
                                 = Thrown error).
    { destruct settled as [resp|err].
      - right. exists resp. split; [reflexivity|]. exact Hout.
      - left. simpl cbind in Hout. congruence. }
    pose proof (handleSubmitDescription_fails env st currentPrompt settled error
                  Hprompt Htrim Hfail) as H.
    rewrite app_nil_r in H. exact H.
Qed.

(** X10. Selecting, in the history panel, the item a submission has just
    stored changes nothing: the prompt, the text and the feedback of the
    item are those on screen. This holds for every value the evaluation
    returns; a returned [null] is the null of the feedback state in both
    places. Selected in any later state, the item brings back that
    prompt, that text and that feedback, and leaves all the rest, the
    history included, as it is. *)
Theorem select_restores_a_submission
        (env : ProcessEnv) (st : AppState) (currentPrompt : LessonPrompt)
        (settled : Completion GenerateContentResponse) (log : list call)
        (result : Feedback) (id : string) (now : Z) :
  st_currentPrompt st = Some currentPrompt ->
  trims_to_empty (st_userText st) = false ->
  exec (evaluateDescription env (st_userText st) (lp_description currentPrompt)
          (st_difficulty st))
       [ReplyContent settled] (Returned log (Done result) []) ->
  exists st' item,
    exec (handleSubmitDescription env st)
         (recognitionReplies st ++
          [ReplyContent settled; ReplyString id; ReplyNumber now])
         (Returned (recognitionCalls st ++ log ++ [CallRandomId; CallDateNow]) st' []) /\
    st_history st' = item :: st_history st /\
    item_feedback item = result /\
    st_feedback st' = match result with JNull => None | _ => Some result end /\
    handleSelectHistoryItem item st' = st' /\
    forall later,
      handleSelectHistoryItem item later
      = {| st_difficulty := st_difficulty later; st_isLoading := st_isLoading later;
           st_statusMessage := st_statusMessage later;
           st_currentPrompt := Some currentPrompt;
           st_userText := st_userText st;
           st_feedback := match result with JNull => None | _ => Some result end;
           st_history := st_history later; st_isRecording := st_isRecording later;
           st_hasRecognition := st_hasRecognition later |}.
Proof.
  intros Hprompt Htrim Hrun.
  pose proof (handleSubmitDescription_run env st currentPrompt settled log (Done result)
                Hprompt Htrim Hrun id now) as H.
  eexists. eexists. split; [exact H|].
  split; [reflexivity|]. split; [reflexivity|]. split; [reflexivity|]. split.
  - destruct st. simpl in *. subst. reflexivity.
  - intros later. reflexivity.
Qed.

Lemma select_restores_a_submission_witness :
  exists st' item,
    exec (handleSubmitDescription sampleEnv sampleState)
         [ReplyContent (Done (textResponse "null"));
          ReplyString "a1b2c3d4e"; ReplyNumber 1700000000000]
         (Returned
            [CallGenerateContent (getAI sampleEnv)
               (evaluationParameters "An analyst presents a backlog." "A quiet office."
                  Intermediate);
             CallRandomId; CallDateNow] st' []) /\
    st_history st' = [item] /\
    item_feedback item = JNull /\
    st_feedback st' = None /\
    handleSelectHistoryItem item st' = st'.
Proof.
  destruct (select_restores_a_submission sampleEnv sampleState samplePrompt
              (Done (textResponse "null")) _ JNull "a1b2c3d4e" 1700000000000
              eq_refl eq_refl
              (evaluateDescription_run sampleEnv "An analyst presents a backlog."
                 "A quiet office." Intermediate (textResponse "null") []))
    as (st' & item & Hrun & Hhist & Hitem & Hfb & Hsel & _).
  exists st', item. repeat split; assumption.
Defined.

(** X11. However the evaluation settles, the handler runs to its end,
    for every identifier and time it is given, and the loading flag is
    off when it returns; the prompt, the text, the level and the
    recording flag are as they were, and the status message is left at
    the text shown during the evaluation. With a value returned, the
    feedback is that value and one item is put in front of the history;
    after a rejection or a parse error the error is logged, an alert is
    shown, and the feedback and the history of before stay. *)
Theorem submit_always_ends_loading
        (env : ProcessEnv) (st : AppState) (currentPrompt : LessonPrompt)
        (settled : Completion GenerateContentResponse) :
  st_currentPrompt st = Some currentPrompt ->
  trims_to_empty (st_userText st) = false ->
  exists log outcome,
    exec (evaluateDescription env (st_userText st) (lp_description currentPrompt)
            (st_difficulty st))
         [ReplyContent settled] (Returned log outcome []) /\
    forall id now,
    exists st',
      exec (handleSubmitDescription env st)
           (recognitionReplies st ++
            ReplyContent settled ::
            match outcome with
            | Done _ => [ReplyString id; ReplyNumber now]
            | Thrown _ => [ReplyVoid; ReplyVoid]
            end)
           (Returned
              (recognitionCalls st ++ log ++
               match outcome with
               | Done _ => [CallRandomId; CallDateNow]
               | Thrown error =>
                   [CallConsoleError error;
                    CallAlert "Evaluation failed. Please try again."]
               end)
              st' []) /\
      st_isLoading st' = false /\
      st_statusMessage st'
      = "Analyzing your " ++ Difficulty_to_string (st_difficulty st) ++ " English..." /\
      st_currentPrompt st' = st_currentPrompt st /\
      st_userText st' = st_userText st /\
      st_difficulty st' = st_difficulty st /\
      st_isRecording st' = st_isRecording st /\
      st_feedback st'
      = match outcome with
        | Done JNull => None
        | Done result => Some result
        | Thrown _ => st_feedback st
        end /\
      st_history st'
      = match outcome with
        | Done result =>
            {| item_id := id; item_prompt := currentPrompt;
               item_userDescription := st_userText st; item_feedback := result;
               item_timestamp := now |} :: st_history st
        | Thrown _ => st_history st
        end.
Proof.
  intros Hprompt Htrim.
  pose proof (evaluateDescription_settles env (st_userText st)
                (lp_description currentPrompt) (st_difficulty st) settled []) as Hrun.
  eexists. eexists. split; [exact Hrun|].
  intros id now.
  pose proof (handleSubmitDescription_run env st currentPrompt settled _ _
                Hprompt Htrim Hrun id now) as H.
  eexists. split; [exact H|].
  destruct (let! resp := settled in JSON_parse (units (or_else (text resp) "{}")))
    as [result|error].
  - destruct result; repeat split; reflexivity.
  - repeat split; reflexivity.
Qed.

Lemma submit_always_ends_loading_witness :
  exists st',
    exec (handleSubmitDescription sampleEnv sampleState)
         [ReplyContent (Done (textResponse "{score: 85}")); ReplyVoid; ReplyVoid]
         (Returned
            [CallGenerateContent (getAI sampleEnv)
               (evaluationParameters "An analyst presents a backlog." "A quiet office."
                  Intermediate);
             CallConsoleError SyntaxError;
             CallAlert "Evaluation failed. Please try again."]
            st' []) /\
    st_isLoading st' = false /\
    st_feedback st' = None /\
    st_history st' = [].
Proof.
  destruct (submit_always_ends_loading sampleEnv sampleState samplePrompt
              (Done (textResponse "{score: 85}")) eq_refl eq_refl)
    as (log & outcome & Heval & Hall).
  pose proof (evaluateDescription_run sampleEnv "An analyst presents a backlog."
                "A quiet office." Intermediate (textResponse "{score: 85}") []) as Hrun.
  pose proof (exec_functional _ _ _ _ Heval Hrun) as E.
  inversion E as [[Hlog Hout]]. clear E. subst log.
  assert (Hthrown : outcome = Thrown SyntaxError).
  { rewrite Hout. vm_compute. reflexivity. }
  subst outcome.
  destruct (Hall EmptyString 0)
    as (st' & H & Hload & _ & _ & _ & _ & _ & Hfb & Hhist).
  exists st'. split; [exact H|]. split; [exact Hload|]. split; [exact Hfb|exact Hhist].
Defined.

(** ** Dictation *)

Lemma string_app_assoc (a b c : string) : (a ++ b) ++ c = a ++ (b ++ c).
Proof. induction a as [|x a IH]; simpl; [reflexivity|]. now rewrite IH. Qed.

Lemma string_app_nil_r (a : string) : a ++ EmptyString = a.
Proof. induction a as [|x a IH]; simpl; [reflexivity|]. now rewrite IH. Qed.

Lemma string_length_app (a b : string) :
  String.length (a ++ b) = (String.length a + String.length b)%nat.
Proof. induction a as [|x a IH]; simpl; [reflexivity|]. now rewrite IH. Qed.

Lemma chars_app (a b : string) : chars (a ++ b) = (chars a ++ chars b)%list.
Proof. induction a as [|x a IH]; simpl; [reflexivity|]. now rewrite IH. Qed.

(** The loop of [onresult]: the final transcripts in order, and apart
    from them the interim ones. *)
Lemma collectTranscripts_spec (rs : list SpeechResult) :
  forall interimTranscript finalTranscript,
    collectTranscripts rs interimTranscript finalTranscript
    = (interimTranscript ++
       fold_right append EmptyString
         (map transcript (filter (fun r => negb (isFinal r)) rs)),
       finalTranscript ++
       fold_right append EmptyString (map transcript (filter isFinal rs))).
Proof.
  induction rs as [|r rs IH]; intros i f; simpl.
  - now rewrite !string_app_nil_r.
  - destruct (isFinal r); simpl; rewrite IH, string_app_assoc; reflexivity.
Qed.

(** A text that ends outside a word takes the words of what is put
    after it as they are. *)
Lemma count_words_app (l l' : list ascii) :
  forall b,
    ends_in_word (negb b) l = false ->
    count_words b (l ++ l') = count_words b l + count_words true l'.
Proof.
  induction l as [|c l IH]; intros b Hend; cbn [count_words app ends_in_word] in *.
  - destruct b; [lia|discriminate].
  - destruct (is_js_whitespace c).
    + apply (IH true Hend).
    + rewrite (IH false Hend). lia.
Qed.

Lemma ends_in_word_last (l : list ascii) (c : ascii) (b : bool) :
  ends_in_word b (l ++ [c]) = negb (is_js_whitespace c).
Proof.
  revert b. induction l as [|x l IH]; intros b; simpl; [reflexivity|apply IH].
Qed.

(** The separator of [onresult] keeps the words apart. *)
Lemma separator_ends_word (prev : string) :
  ends_in_word false
    (chars (prev ++ (if (0 <? Z.of_nat (String.length prev)) && negb (endsWithSpace prev)
                     then " " else EmptyString)))
  = false.
Proof.
  rewrite chars_app.
  destruct prev as [|x prev]; [reflexivity|].
  replace (0 <? Z.of_nat (String.length (String x prev))) with true
    by (symmetry; apply Z.ltb_lt; simpl String.length; lia).
  cbn [andb]. unfold endsWithSpace.
  destruct (rev (chars (String x prev))) as [|c r] eqn:Er.
  - apply (f_equal (@rev ascii)) in Er. rewrite rev_involutive in Er. discriminate.
  - apply (f_equal (@rev ascii)) in Er. rewrite rev_involutive in Er.
    destruct (Ascii.eqb c " "%char) eqn:Ec; cbn [negb].
    + apply Ascii.eqb_eq in Ec. subst c.
      change (chars EmptyString) with (@nil ascii). rewrite app_nil_r, Er.
      simpl rev. now rewrite ends_in_word_last.
    + change (chars " ") with [" "%char]. now rewrite ends_in_word_last.
Qed.

(** X12. A recognition event adds to the text the final transcripts from
    [resultIndex] on, in order, and nothing of the interim ones: with no
    final text the state is as it was; otherwise only the text changes,
    the old text is the start of the new one, and the transcripts come
    after one space unless the text was empty or ended with a space. In
    both cases the word count of the new text is that of the old text
    plus that of the final transcripts: no dictated word runs into the
    last word of the text. *)
Theorem onresult_appends_final_transcripts (event : SpeechEvent) (st : AppState) :
  let finals :=
    fold_right append EmptyString
      (map transcript (filter isFinal (skipn (resultIndex event) (results event)))) in
  let prev := st_userText st in
  exists separator,
    onresult event st = setUserText (fun _ => prev ++ separator ++ finals) st /\
    separator
    = (if String.eqb finals EmptyString || String.eqb prev EmptyString
          || endsWithSpace prev
       then EmptyString else " ") /\
    (finals = EmptyString <-> onresult event st = st) /\
    wordCount (st_userText (onresult event st)) = wordCount prev + wordCount finals.
Proof.
  intros finals prev.
  assert (Hon : onresult event st
                = match finals with
                  | EmptyString => st
                  | String _ _ =>
                      setUserText
                        (fun prev =>
                           prev ++ (if (0 <? Z.of_nat (String.length prev))
                                       && negb (endsWithSpace prev)
                                    then " " else EmptyString) ++ finals) st
                  end).
  { unfold onresult. rewrite collectTranscripts_spec. reflexivity. }
  assert (Hsame : setUserText (fun _ => prev) st = st) by (now destruct st).
  eexists. split; [|split; [reflexivity|split]].
  - rewrite Hon. destruct finals as [|c f] eqn:Ef.
    + simpl. rewrite !string_app_nil_r. now rewrite Hsame.
    + cbn [String.eqb orb]. unfold setUserText. fold prev.
      destruct prev as [|x p] eqn:Ep; [reflexivity|].
      replace (0 <? Z.of_nat (String.length (String x p))) with true
        by (symmetry; apply Z.ltb_lt; simpl String.length; lia).
      cbn [andb String.eqb orb].
      destruct (endsWithSpace (String x p)); reflexivity.
  - rewrite Hon. destruct finals as [|c f] eqn:Ef; [tauto|].
    split; [discriminate|]. intros H. exfalso.
    apply (f_equal st_userText) in H. cbn [setUserText st_userText] in H.
    apply (f_equal String.length) in H. fold prev in H.
    rewrite !string_length_app in H. simpl String.length in H. lia.
  - rewrite Hon. destruct finals as [|c f] eqn:Ef.
    + fold prev. change (wordCount EmptyString) with 0. lia.
    + cbn [setUserText st_userText]. fold prev.
      rewrite <- string_app_assoc, !wordCount_count_words, chars_app.
      rewrite (count_words_app _ _ true (separator_ends_word prev)).
      f_equal. rewrite chars_app. apply count_words_trail.
      destruct ((0 <? Z.of_nat (String.length prev)) && negb (endsWithSpace prev));
        reflexivity.
Qed.

(** * The handlers of the component *)

(** ** Running a handler *)

Lemma noted_NoFuel {R} (c : appCall) (o : HandlerOutcome R) :
  noted c o = NoFuel -> o = NoFuel.
Proof. destruct o; simpl; congruence. Qed.

Lemma runHandler_observe {R} (t u : itree appE R) fuel script :
  observe t = observe u -> runHandler fuel t script = runHandler fuel u script.
Proof.
  intros H. destruct fuel; simpl; [reflexivity|]. now rewrite H.
Qed.

Lemma runHandler_mono {R} fuel :
  forall (t : itree appE R) script o,
    runHandler fuel t script = o -> o <> NoFuel ->
    forall fuel', (fuel <= fuel')%nat -> runHandler fuel' t script = o.
Proof.
  induction fuel as [|fuel IH]; intros t script o Hrun Ho fuel' Hle.
  - simpl in Hrun. congruence.
  - destruct fuel' as [|fuel']; [lia|]. simpl in *.
    destruct (observe t) as [r|t'|X e k]; auto.
    + apply (IH _ _ _ Hrun Ho). lia.
    + destruct script as [|rp script']; auto.
      destruct (appAnswer e rp) as [x|]; auto.
      subst o. f_equal. apply (IH _ _ _ eq_refl); [|lia].
      intros Hf. apply Ho. now rewrite Hf.
Qed.

Lemma execHandler_functional {R} (t : itree appE R) script o1 o2 :
  execHandler t script o1 -> execHandler t script o2 -> o1 = o2.
Proof.
  intros (f1 & H1 & Hn1) (f2 & H2 & Hn2).
  rewrite <- (runHandler_mono _ _ _ _ H1 Hn1 (Nat.max f1 f2)) by lia.
  apply (runHandler_mono _ _ _ _ H2 Hn2). lia.
Qed.

Lemma execHandler_Ret {R} (r : R) script :
  execHandler (Ret r : itree appE R) script (Finished [] r script).
Proof. exists 1%nat. split; [reflexivity|discriminate]. Qed.

Lemma runHandler_bind {R S} (k : R -> itree appE S) f1 :
  forall (t : itree appE R) script log x rest f2 log' r rest',
    runHandler f1 t script = Finished log x rest ->
    runHandler f2 (k x) rest = Finished log' r rest' ->
    runHandler (f1 + f2) (ITree.bind t k) script = Finished (log ++ log') r rest'.
Proof.
  induction f1 as [|f1 IH]; intros t script log x rest f2 log' r rest' Ht Hk.
  - simpl in Ht. discriminate.
  - simpl in Ht.
    destruct (observe t) as [r0|t'|X e h] eqn:Eo.
    + inversion Ht; subst. simpl app.
      rewrite (runHandler_observe (ITree.bind t k) (k x)).
      * apply (runHandler_mono _ _ _ _ Hk); [discriminate|lia].
      * change (observe (ITree.bind t k))
          with (observe (match observe t with
                         | RetF r => k r
                         | TauF t' => Tau (ITree.bind t' k)
                         | VisF e h => Vis e (fun x => ITree.bind (h x) k)
                         end)).
        rewrite Eo. reflexivity.
    + rewrite (runHandler_observe (ITree.bind t k) (Tau (ITree.bind t' k))).
      * simpl. apply (IH _ _ _ _ _ _ _ _ _ Ht Hk).
      * change (observe (ITree.bind t k))
          with (observe (match observe t with
                         | RetF r => k r
                         | TauF t' => Tau (ITree.bind t' k)
                         | VisF e h => Vis e (fun x => ITree.bind (h x) k)
                         end)).
        rewrite Eo. reflexivity.
    + rewrite (runHandler_observe (ITree.bind t k)
                 (Vis e (fun y => ITree.bind (h y) k))).
      * simpl. destruct script as [|rp script']; [discriminate|].
        destruct (appAnswer e rp) as [y|]; [|discriminate].
        destruct (runHandler f1 (h y) script') as [l0 r0 u0| | |] eqn:Eh;
          simpl in Ht; try discriminate.
        inversion Ht; subst.
        rewrite (IH _ _ _ _ _ _ _ _ _ Eh Hk). reflexivity.
      * change (observe (ITree.bind t k))
          with (observe (match observe t with
                         | RetF r => k r
                         | TauF t' => Tau (ITree.bind t' k)
                         | VisF e h => Vis e (fun x => ITree.bind (h x) k)
                         end)).
        rewrite Eo. reflexivity.
Qed.

(** Sequencing: the continuation runs on what the first part left of
    the script. *)
Lemma execHandler_bind {R S} (t : itree appE R) (k : R -> itree appE S)
      script log x rest log' r rest' :
  execHandler t script (Finished log x rest) ->
  execHandler (k x) rest (Finished log' r rest') ->
  execHandler (ITree.bind t k) script (Finished (log ++ log') r rest').
Proof.
  intros (f1 & H1 & _) (f2 & H2 & _). exists (f1 + f2)%nat. split; [|discriminate].
  apply (runHandler_bind k f1 t script log x rest f2 log' r rest' H1 H2).
Qed.

Lemma execHandler_trigger {X} (e : appE X) rp x script :
  appAnswer e rp = Some x ->
  execHandler (ITree.trigger e) (rp :: script) (Finished [appCall_of e] x script).
Proof.
  intros Ha. exists 2%nat. split; [|discriminate]. simpl. now rewrite Ha.
Qed.

Lemma execHandler_browser {X} (e : browserE X) rp x script :
  answer e rp = Some x ->
  execHandler (browser e) (inl rp :: script) (Finished [inl (call_of e)] x script).
Proof. intros Ha. unfold browser. now apply execHandler_trigger. Qed.

Lemma execHandler_handler {X} (e : handlerE X) rp x script :
  handlerAnswer e rp = Some x ->
  execHandler (handler e) (inr rp :: script) (Finished [inr (handlerCall_of e)] x script).
Proof. intros Ha. unfold handler. now apply execHandler_trigger. Qed.

(** A call with no reply left: the handler is waiting on it. *)
Lemma execHandler_bind_waiting {X S} (e : appE X) (k : X -> itree appE S) :
  execHandler (ITree.bind (ITree.trigger e) k) [] (Waiting [] (appCall_of e)).
Proof. exists 1%nat. split; [reflexivity|discriminate]. Qed.

(** A function of the service runs inside a handler as it runs alone:
    on the same replies it makes the same calls and returns the same. *)
Lemma runHandler_service {R} fuel :
  forall (t : itree browserE R) script log r rest,
    run fuel t script = Returned log r [] ->
    runHandler fuel (service t) (map inl script ++ rest)
    = Finished (map inl log) r rest.
Proof.
  induction fuel as [|fuel IH]; intros t script log r rest Hrun.
  - discriminate.
  - simpl in Hrun. cbn [runHandler].
    change (observe (service t))
      with (observe (match observe t with
                     | RetF r => Ret r
                     | TauF t' => Tau (service t')
                     | VisF e k => Vis (inl1 e : appE _) (fun x => service (k x))
                     end)).
    destruct (observe t) as [r0|t'|X e k].
    + inversion Hrun; subst. reflexivity.
    + simpl. apply (IH _ _ _ _ _ Hrun).
    + simpl. destruct script as [|rp script']; [discriminate|]. simpl.
      destruct (answer e rp) as [y|]; [|discriminate].
      destruct (run fuel (k y) script') as [l0 r0 u0| | |] eqn:Ek;
        simpl in Hrun; try discriminate.
      inversion Hrun; subst.
      rewrite (IH _ _ _ _ rest Ek). reflexivity.
Qed.

Lemma execHandler_service {R} (t : itree browserE R) script log r rest :
  exec t script (Returned log r []) ->
  execHandler (service t) (map inl script ++ rest) (Finished (map inl log) r rest).
Proof.
  intros (f & Hrun & _). exists f. split; [|discriminate].
  now apply runHandler_service.
Qed.

(** ** Starting a lesson *)

(** After the guard, the handler runs [generateLessonPrompt] and then
    stores the prompt, or reports the error. *)
Lemma handleStartLesson_run (env : ProcessEnv) (ss : Session)
      (script : list reply) (log : list call) (settled : Completion LessonMedia) :
  is_video (ss_mediaType ss) && negb (ss_hasApiKey ss) = false ->
  exec (generateLessonPrompt env (ss_topic ss) (st_difficulty (ss_app ss))
          (ss_mediaType ss))
       script (Returned log settled []) ->
  let prepared :=
    onApp (setStatusMessage (startMessage (ss_mediaType ss)))
      (onApp (setUserText (fun _ => EmptyString))
         (onApp (setFeedback None) (onApp (setIsLoading true) ss))) in
  match settled with
  | Done media =>
      forall id,
        execHandler (handleStartLesson env ss)
          (map inl script ++ [inl (ReplyString id)])
          (Finished (map inl log ++ [inl CallRandomId])
             (onApp (setIsLoading false)
                (onApp
                   (setCurrentPrompt
                      (Some {| lp_id := id; lp_type := ss_mediaType ss;
                               lp_url := url media; lp_description := promptText media;
                               lp_topic := ss_topic ss;
                               lp_difficulty := st_difficulty (ss_app ss) |}))
                   prepared))
             [])
  | Thrown error =>
      execHandler (handleStartLesson env ss)
        (map inl script ++ [inl ReplyVoid; inl ReplyVoid])
        (Finished
           (map inl log ++
            [inl (CallConsoleError error); inl (CallAlert (startFailureAlert error))])
           (onApp (setIsLoading false)
              (if includes (err_message error) "Requested entity was not found"
               then setHasApiKey false prepared else prepared))
           [])
  end.
Proof.
  intros Hguard Hrun prepared.
  pose proof (fun rest => execHandler_service _ script log settled rest Hrun) as Hsvc.
  destruct settled as [media|error].
  - intros id. unfold handleStartLesson. rewrite Hguard.
    eapply execHandler_bind; [apply Hsvc|].
    rewrite <- (app_nil_r [inl CallRandomId]).
    eapply execHandler_bind; [|apply execHandler_Ret].
    rewrite <- (app_nil_r [inl CallRandomId]).
    eapply execHandler_bind; [now apply execHandler_browser|].
    apply execHandler_Ret.
  - unfold handleStartLesson. rewrite Hguard.
    eapply execHandler_bind; [apply Hsvc|].
    rewrite <- (app_nil_r [inl (CallConsoleError error); _]).
    eapply execHandler_bind; [|apply execHandler_Ret].
    change [inl (CallConsoleError error); inl (CallAlert (startFailureAlert error))]
      with ([@inl call handlerCall (CallConsoleError error)]
              ++ [inl (CallAlert (startFailureAlert error))])%list.
    eapply execHandler_bind; [now apply execHandler_browser|].
    unfold startFailureAlert.
    destruct (includes (err_message error) "Requested entity was not found").
    + rewrite <- (app_nil_r [inl (CallAlert _)]).
      eapply execHandler_bind; [now apply execHandler_browser|apply execHandler_Ret].
    + rewrite <- (app_nil_r [inl (CallAlert _)]).
      eapply execHandler_bind; [now apply execHandler_browser|apply execHandler_Ret].
Qed.

(** X13. When [generateLessonPrompt] returns a medium, the start handler
    takes an identifier and shows a new prompt made of that medium, the
    topic, the level and the media type chosen; the text and the
    feedback are cleared, the loading flag is off, the history and the
    key flag are as they were. A text submitted after that is evaluated
    against the description [generateLessonPrompt] returned. *)
Theorem start_lesson_shows_generated_prompt
        (env : ProcessEnv) (ss : Session) (script : list reply) (log : list call)
        (media : LessonMedia) (id : string) :
  is_video (ss_mediaType ss) && negb (ss_hasApiKey ss) = false ->
  exec (generateLessonPrompt env (ss_topic ss) (st_difficulty (ss_app ss))
          (ss_mediaType ss))
       script (Returned log (Done media) []) ->
  exists ss',
    execHandler (handleStartLesson env ss)
      (map inl script ++ [inl (ReplyString id)])
      (Finished (map inl log ++ [inl CallRandomId]) ss' []) /\
    st_currentPrompt (ss_app ss')
    = Some {| lp_id := id; lp_type := ss_mediaType ss; lp_url := url media;
              lp_description := promptText media; lp_topic := ss_topic ss;
              lp_difficulty := st_difficulty (ss_app ss) |} /\
    st_userText (ss_app ss') = EmptyString /\
    st_feedback (ss_app ss') = None /\
    st_isLoading (ss_app ss') = false /\
    st_statusMessage (ss_app ss') = startMessage (ss_mediaType ss) /\
    st_history (ss_app ss') = st_history (ss_app ss) /\
    ss_hasApiKey ss' = ss_hasApiKey ss /\
    forall typed,
      0 < wordCount typed ->
      let st := setUserText (fun _ => typed) (ss_app ss') in
      exec (handleSubmitDescription env st) (recognitionReplies st)
           (Pending (recognitionCalls st)
              (CallGenerateContent (getAI env)
                 (evaluationParameters typed (promptText media)
                    (st_difficulty (ss_app ss))))).
Proof.
  intros Hguard Hrun.
  pose proof (handleStartLesson_run env ss script log (Done media) Hguard Hrun id)
    as H.
  eexists. split; [exact H|].
  repeat (split; [reflexivity|]).
  intros typed Hpos st.
  apply (handleSubmitDescription_asks env st _ eq_refl).
  exact (wordCount_pos_trims typed Hpos).
Qed.

Lemma start_lesson_shows_generated_prompt_witness :
  exists ss',
    execHandler (handleStartLesson sampleEnv sampleSession)
      [inl (ReplyContent (Done (textResponse "A desk with charts.")));
       inl (ReplyContent (Done (partsResponse [inlinePart "QUJD" "image/png"])));
       inl (ReplyString "k3j9x0q2a")]
      (Finished
         [inl (CallGenerateContent (getAI sampleEnv)
                 (descriptionRequest "Business Analysis" Intermediate));
          inl (CallGenerateContent (getAI sampleEnv) (imageRequest "A desk with charts."));
          inl CallRandomId]
         ss' []) /\
    st_currentPrompt (ss_app ss')
    = Some {| lp_id := "k3j9x0q2a"; lp_type := image;
              lp_url := "data:image/png;base64,QUJD";
              lp_description := "A desk with charts.";
              lp_topic := "Business Analysis"; lp_difficulty := Intermediate |} /\
    st_userText (ss_app ss') = EmptyString.
Proof.
  destruct (start_lesson_shows_generated_prompt sampleEnv sampleSession
              [ReplyContent (Done (textResponse "A desk with charts."));
               ReplyContent (Done (partsResponse [inlinePart "QUJD" "image/png"]))]
              _ _ "k3j9x0q2a" eq_refl
              (generateLessonPrompt_image_run sampleEnv "Business Analysis" Intermediate
                 (textResponse "A desk with charts.")
                 (partsResponse [inlinePart "QUJD" "image/png"]) []))
    as (ss' & Hrun & Hprompt & Htext & _).
  exists ss'. split; [exact Hrun|]. split; [exact Hprompt|exact Htext].
Defined.

(** X14. When [generateLessonPrompt] rejects, the start handler logs the
    error and shows one alert; the text and the feedback are cleared all
    the same, the prompt of before stays, the loading flag is off and
    the history is as it was. The key flag is cleared exactly when the
    message of the error includes [Requested entity was not found], and
    the alert then asks to select the key again. *)
Theorem start_lesson_failure_clears_the_text
        (env : ProcessEnv) (ss : Session) (script : list reply) (log : list call)
        (error : JsError) :
  is_video (ss_mediaType ss) && negb (ss_hasApiKey ss) = false ->
  exec (generateLessonPrompt env (ss_topic ss) (st_difficulty (ss_app ss))
          (ss_mediaType ss))
       script (Returned log (Thrown error) []) ->
  let notFound := includes (err_message error) "Requested entity was not found" in
  exists ss',
    execHandler (handleStartLesson env ss)
      (map inl script ++ [inl ReplyVoid; inl ReplyVoid])
      (Finished
         (map inl log ++
          [inl (CallConsoleError error);
           inl (CallAlert
                  (if notFound then "Please re-select your API key to continue."
                   else "Failed to generate lesson. Please check your API key permissions."))])
         ss' []) /\
    st_currentPrompt (ss_app ss') = st_currentPrompt (ss_app ss) /\
    st_userText (ss_app ss') = EmptyString /\
    st_feedback (ss_app ss') = None /\
    st_isLoading (ss_app ss') = false /\
    st_history (ss_app ss') = st_history (ss_app ss) /\
    ss_hasApiKey ss' = (if notFound then false else ss_hasApiKey ss).
Proof.
  intros Hguard Hrun notFound.
  pose proof (handleStartLesson_run env ss script log (Thrown error) Hguard Hrun) as H.
  cbv zeta in H. unfold startFailureAlert in H. fold notFound in H.
  eexists. split; [exact H|].
  destruct notFound; repeat (split; [reflexivity|]); reflexivity.
Qed.

Lemma start_lesson_failure_clears_the_text_witness :
  exists ss',
    execHandler (handleStartLesson sampleEnv sampleSession)
      [inl (ReplyContent
              (Thrown (mkError "ApiError" "404: Requested entity was not found.")));
       inl ReplyVoid; inl ReplyVoid]
      (Finished
         [inl (CallGenerateContent (getAI sampleEnv)
                 (descriptionRequest "Business Analysis" Intermediate));
          inl (CallConsoleError (mkError "ApiError" "404: Requested entity was not found."));
          inl (CallAlert "Please re-select your API key to continue.")]
         ss' []) /\
    st_userText (ss_app ss') = EmptyString /\
    st_currentPrompt (ss_app ss') = Some samplePrompt /\
    ss_hasApiKey ss' = false.
Proof.
  assert (Hrun : exec (generateLessonPrompt sampleEnv "Business Analysis" Intermediate
                         image)
                      [ReplyContent
                         (Thrown (mkError "ApiError"
                                    "404: Requested entity was not found."))]
                      (Returned
                         [CallGenerateContent (getAI sampleEnv)
                            (descriptionRequest "Business Analysis" Intermediate)]
                         (Thrown (mkError "ApiError"
                                    "404: Requested entity was not found.")) [])).
  { exists 3%nat. split; [reflexivity|discriminate]. }
  destruct (start_lesson_failure_clears_the_text sampleEnv sampleSession _ _ _
              eq_refl Hrun)
    as (ss' & H & Hprompt & Htext & _ & _ & _ & Hkey).
  exists ss'. split; [exact H|]. split; [exact Htext|]. split; [exact Hprompt|exact Hkey].
Defined.

(** Past the guard, the first call of the start handler is the request
    for the description. *)
Lemma handleStartLesson_first_call (env : ProcessEnv) (ss : Session) :
  is_video (ss_mediaType ss) && negb (ss_hasApiKey ss) = false ->
  execHandler (handleStartLesson env ss) []
    (Waiting []
       (inl (CallGenerateContent (getAI env)
               (descriptionRequest (ss_topic ss) (st_difficulty (ss_app ss)))))).
Proof.
  intros Hguard. unfold handleStartLesson. rewrite Hguard.
  exists 1%nat. split; [reflexivity|discriminate].
Qed.

(** X15. The key flag guards the video lessons only. With video chosen
    and the flag off, the start handler makes no request to the service
    and leaves the text, the feedback and the prompt alone: it opens the
    key dialog when [window.aistudio] is there, and sets the flag when
    the dialog resolves, whatever was chosen in it; without
    [window.aistudio] it does nothing at all. With the flag on, or with
    an image chosen, its first call is the request for the
    description. *)
Theorem start_video_without_key_asks_for_the_key (env : ProcessEnv) (ss : Session) :
  ss_mediaType ss = video ->
  ss_hasApiKey ss = false ->
  (ss_aistudio ss = false ->
   forall script, execHandler (handleStartLesson env ss) script (Finished [] ss script)) /\
  (ss_aistudio ss = true ->
   forall settled script,
     execHandler (handleStartLesson env ss) (inr (ReplySettled settled) :: script)
       (Finished [inr CallOpenSelectKey]
          (match settled with
           | Done _ => setHasApiKey true ss
           | Thrown _ => ss
           end) script)) /\
  (forall ss',
     ss_hasApiKey ss' = true \/ ss_mediaType ss' = image ->
     execHandler (handleStartLesson env ss') []
       (Waiting []
          (inl (CallGenerateContent (getAI env)
                  (descriptionRequest (ss_topic ss') (st_difficulty (ss_app ss'))))))).
Proof.
  intros Hvideo Hkey. split; [|split].
  - intros Hno script. unfold handleStartLesson, handleSelectKey.
    rewrite Hvideo, Hkey, Hno. apply execHandler_Ret.
  - intros Hyes settled script. unfold handleStartLesson, handleSelectKey.
    rewrite Hvideo, Hkey, Hyes. cbn [is_video negb andb].
    rewrite <- (app_nil_r [inr CallOpenSelectKey]).
    eapply execHandler_bind; [now apply execHandler_handler|].
    destruct settled; apply execHandler_Ret.
  - intros ss' H. apply handleStartLesson_first_call.
    destruct H as [H|H]; rewrite H; [apply andb_false_r|reflexivity].
Qed.

Lemma start_video_without_key_asks_for_the_key_witness :
  execHandler
    (handleStartLesson sampleEnv
       {| ss_app := sampleState; ss_topic := "Nature"; ss_mediaType := video;
          ss_hasApiKey := false; ss_isPlayingAudio := false; ss_audioContext := None;
          ss_aistudio := true |})
    [inr (ReplySettled (Done tt))]
    (Finished [inr CallOpenSelectKey]
       {| ss_app := sampleState; ss_topic := "Nature"; ss_mediaType := video;
          ss_hasApiKey := true; ss_isPlayingAudio := false; ss_audioContext := None;
          ss_aistudio := true |} []).
Proof.
  destruct (start_video_without_key_asks_for_the_key sampleEnv
              {| ss_app := sampleState; ss_topic := "Nature"; ss_mediaType := video;
                 ss_hasApiKey := false; ss_isPlayingAudio := false;
                 ss_audioContext := None; ss_aistudio := true |} eq_refl eq_refl)
    as (_ & H & _).
  exact (H eq_refl (Done tt) []).
Defined.

(** ** Playing the model description *)

Lemma generateSpeech_settles (env : ProcessEnv) (text : string)
      (settled : Completion GenerateContentResponse) :
  exec (generateSpeech env text) [ReplyContent settled]
       (Returned [CallGenerateContent (getAI env) (speechParameters text)]
          (speechOf settled) []).
Proof.
  destruct settled as [resp|error].
  - apply generateSpeech_run.
  - unfold generateSpeech. eapply exec_await_thrown. reflexivity.
Qed.

(** The run of [handlePlayAudio] when nothing is playing and a context
    is there or can be made: one request, then the source is started on
    the decoded buffer, or the error is logged and the flag cleared. *)
Lemma handlePlayAudio_run (env : ProcessEnv) (text : string) (ss : Session)
      (made : AudioContext) (settled : Completion GenerateContentResponse) :
  ss_isPlayingAudio ss = false ->
  let ctx := contextOf ss made in
  let ss1 := setAudioContext ctx (setIsPlayingAudio true ss) in
  execHandler (handlePlayAudio env text ss)
    (contextReplies ss made ++ [inl (ReplyContent settled); inr ReplyNothing])
    (Finished
       (contextCalls ss ++
        [inl (CallGenerateContent (getAI env) (speechParameters text));
         inr (match decodedSpeech ctx settled with
              | Done audioBuffer => CallStartSource ctx audioBuffer
              | Thrown error => CallConsoleErrorLabelled "Audio playback failed" error
              end)])
       (match decodedSpeech ctx settled with
        | Done _ => ss1
        | Thrown _ => setIsPlayingAudio false ss1
        end)
       []).
Proof.
  intros Hidle ctx ss1.
  pose proof (execHandler_service _ _ _ _ [inr ReplyNothing]
                (generateSpeech_settles env text settled)) as Hsvc.
  simpl map in Hsvc. simpl app in Hsvc.
  assert (Hrest : forall ss2,
             ss2 = ss1 ->
             execHandler
               (ITree.bind (service (generateSpeech env text))
                  (fun settled =>
                     match (let! base64Audio := settled in
                            let! bytes := decodeBase64 base64Audio in
                            decodeAudioData bytes ctx 24000 1) with
                     | Done audioBuffer =>
                         ITree.bind (handler (StartSource ctx audioBuffer))
                           (fun _ => Ret ss2)
                     | Thrown error => playbackFailed error ss2
                     end))
               [inl (ReplyContent settled); inr ReplyNothing]
               (Finished
                  [inl (CallGenerateContent (getAI env) (speechParameters text));
                   inr (match decodedSpeech ctx settled with
                        | Done audioBuffer => CallStartSource ctx audioBuffer
                        | Thrown error =>
                            CallConsoleErrorLabelled "Audio playback failed" error
                        end)]
                  (match decodedSpeech ctx settled with
                   | Done _ => ss1
                   | Thrown _ => setIsPlayingAudio false ss1
                   end) [])).
  { intros ss2 ->.
    change [inl (CallGenerateContent (getAI env) (speechParameters text));
            inr (match decodedSpeech ctx settled with
                 | Done audioBuffer => CallStartSource ctx audioBuffer
                 | Thrown error =>
                     CallConsoleErrorLabelled "Audio playback failed" error
                 end)]
      with ([@inl call handlerCall
               (CallGenerateContent (getAI env) (speechParameters text))]
              ++ [inr (match decodedSpeech ctx settled with
                       | Done audioBuffer => CallStartSource ctx audioBuffer
                       | Thrown error =>
                           CallConsoleErrorLabelled "Audio playback failed" error
                       end)])%list.
    eapply execHandler_bind; [exact Hsvc|].
    fold (decodedSpeech ctx settled).
    destruct (decodedSpeech ctx settled) as [audioBuffer|error].
    - rewrite <- (app_nil_r [inr (CallStartSource ctx audioBuffer)]).
      eapply execHandler_bind; [now apply execHandler_handler|apply execHandler_Ret].
    - unfold playbackFailed.
      rewrite <- (app_nil_r [inr (CallConsoleErrorLabelled _ error)]).
      eapply execHandler_bind; [now apply execHandler_handler|apply execHandler_Ret]. }
  unfold handlePlayAudio. rewrite Hidle.
  unfold contextReplies, contextCalls.
  cbn [ss_audioContext setIsPlayingAudio].
  unfold ctx, ss1, contextOf in *. 
  destruct (ss_audioContext ss) as [c|] eqn:Ectx.
  - change ([] ++ [inl (ReplyContent settled); inr ReplyNothing])%list
      with ([inl (ReplyContent settled); @inr reply handlerReply ReplyNothing]).
    eapply execHandler_bind; [apply execHandler_Ret|].
    cbv beta iota. apply Hrest.
    destruct ss; simpl in *; subst; reflexivity.
  - eapply execHandler_bind.
    + rewrite <- (app_nil_r [inr (CallNewAudioContext 24000)]).
      eapply execHandler_bind; [now apply execHandler_handler|].
      apply execHandler_Ret.
    + cbv beta iota. apply Hrest. reflexivity.
Qed.

Lemma btoa_bytes_nonempty (bs : list Byte.byte) :
  bs <> [] -> exists c s, btoa_bytes bs = String c s.
Proof.
  intros Hne. unfold btoa_bytes.
  destruct bs as [|a [|b [|c r]]]; [congruence| | |];
    cbn [map sextets_of_bytes app string_of_list_ascii]; eauto.
Qed.

(** The speech of a response whose payload is the base64 text of PCM16
    samples decodes to one channel of those samples, each over 32768. *)
Lemma decodedSpeech_pcm16 (ctx : AudioContext) (resp : GenerateContentResponse)
      (samples : list Z) :
  supports ctx 1 24000 ->
  samples <> [] ->
  Forall int16 samples ->
  Zlength' samples < 2 ^ 32 ->
  firstPartInlineData resp = Some (btoa_bytes (pcm16le samples)) ->
  exists chans,
    decodedSpeech ctx (Done resp)
    = Done {| numberOfChannels := 1; ab_length := Zlength' samples;
              ab_sampleRate := 24000; channels := chans |} /\
    forall i s,
      Zget samples i = Some s ->
      frame {| numberOfChannels := 1; ab_length := Zlength' samples;
               ab_sampleRate := 24000; channels := chans |} 0 i
      = Some (Finite (inject_Z s / inject_Z 32768)).
Proof.
  intros Hsup Hne Hs Hlen Hdata.
  assert (HN1 : 1 <= Zlength' samples).
  { unfold Zlength'. destruct samples; [congruence|simpl length; lia]. }
  destruct (@decodeAudioData_spec ctx 24000 1 (Uint8Array_of (pcm16le samples)) samples)
    as (chans & Hrun & Hclen & Hch).
  { now apply new_Int16Array_pcm16le. }
  { exact Hsup. }
  { rewrite Z.div_1_r. lia. }
  rewrite Z.div_1_r in Hrun, Hch.
  exists chans. split.
  - unfold decodedSpeech, speechOf. simpl cbind. rewrite Hdata.
    destruct (btoa_bytes_nonempty (pcm16le samples)) as (c & s & Hb).
    { destruct samples as [|x l]; [congruence|discriminate]. }
    rewrite Hb. simpl cbind. rewrite <- Hb.
    rewrite decodeBase64_btoa_bytes. simpl cbind. exact Hrun.
  - intros i s Hget.
    assert (Hi : 0 <= i) by (unfold Zget in Hget; destruct (Z.ltb_spec i 0);
                             [discriminate|lia]).
    assert (Hlt : (Z.to_nat i < length samples)%nat).
    { rewrite (@Zget_nth_error _ samples i Hi) in Hget. apply nth_error_Some. congruence. }
    destruct (Hch 0%nat ltac:(simpl; lia)) as (ch & Hn & Hl & Hfr).
    specialize (Hfr (Z.to_nat i) ltac:(unfold Zlength'; lia)).
    replace (Z.of_nat (Z.to_nat i) * 1 + Z.of_nat 0) with i in Hfr by lia.
    rewrite (@sample_div_Some samples i s Hget) in Hfr.
    unfold frame. cbn [channels].
    change 0 with (Z.of_nat 0). rewrite Zget_of_nat, Hn.
    rewrite (@Zget_nth_error _ ch i Hi). exact Hfr.
Qed.

(** X16. With nothing playing, a context that takes one channel at
    24000 Hz, and a response whose audio is the base64 text of N >= 1
    PCM16 samples, [handlePlayAudio] makes the context if there is none
    yet, sends one speech request for the text, and starts a source on a
    buffer of one channel, N frames and 24000 Hz whose frame [i] is
    sample [i] over 32768. The playing flag is on when it returns and
    only [onended] clears it: until then another click does nothing.
    The context is kept, so the next playback makes none. *)
Theorem play_audio_starts_the_decoded_speech
        (env : ProcessEnv) (text : string) (ss : Session) (made : AudioContext)
        (resp : GenerateContentResponse) (samples : list Z) :
  ss_isPlayingAudio ss = false ->
  supports (contextOf ss made) 1 24000 ->
  samples <> [] ->
  Forall int16 samples ->
  Zlength' samples < 2 ^ 32 ->
  firstPartInlineData resp = Some (btoa_bytes (pcm16le samples)) ->
  exists audioBuffer ss',
    execHandler (handlePlayAudio env text ss)
      (contextReplies ss made ++ [inl (ReplyContent (Done resp)); inr ReplyNothing])
      (Finished
         (contextCalls ss ++
          [inl (CallGenerateContent (getAI env) (speechParameters text));
           inr (CallStartSource (contextOf ss made) audioBuffer)])
         ss' []) /\
    numberOfChannels audioBuffer = 1 /\
    ab_length audioBuffer = Zlength' samples /\
    ab_sampleRate audioBuffer = 24000 /\
    (forall i s,
       Zget samples i = Some s ->
       frame audioBuffer 0 i = Some (Finite (inject_Z s / inject_Z 32768))) /\
    ss_isPlayingAudio ss' = true /\
    ss_audioContext ss' = Some (contextOf ss made) /\
    ss_app ss' = ss_app ss /\
    (forall text' script,
       execHandler (handlePlayAudio env text' ss') script (Finished [] ss' script)) /\
    ss_isPlayingAudio (onended ss') = false /\
    contextCalls (onended ss') = [].
Proof.
  intros Hidle Hsup Hne Hs Hlen Hdata.
  destruct (decodedSpeech_pcm16 (contextOf ss made) resp samples Hsup Hne Hs Hlen Hdata)
    as (chans & Hdec & Hframes).
  pose proof (handlePlayAudio_run env text ss made (Done resp) Hidle) as Hrun.
  cbv zeta in Hrun. rewrite Hdec in Hrun.
  eexists. eexists. split; [exact Hrun|].
  repeat (split; [reflexivity|]).
  split; [exact Hframes|].
  repeat (split; [reflexivity|]).
  split; [|split; reflexivity].
  intros text' script. unfold handlePlayAudio. cbn [ss_isPlayingAudio setAudioContext setIsPlayingAudio].
  apply execHandler_Ret.
Qed.

Lemma play_audio_starts_the_decoded_speech_witness :
  exists audioBuffer ss',
    execHandler (handlePlayAudio sampleEnv "Hello." sampleSession)
      [inr (ReplyContext (Done baselineContext));
       inl (ReplyContent (Done (speechResponse (btoa_bytes (pcm16le [16384; -32768])))));
       inr ReplyNothing]
      (Finished
         [inr (CallNewAudioContext 24000);
          inl (CallGenerateContent (getAI sampleEnv) (speechParameters "Hello."));
          inr (CallStartSource baselineContext audioBuffer)]
         ss' []) /\
    frame audioBuffer 0 0 = Some (Finite (inject_Z 16384 / inject_Z 32768)) /\
    frame audioBuffer 0 1 = Some (Finite (inject_Z (-32768) / inject_Z 32768)) /\
    ss_isPlayingAudio ss' = true.
Proof.
  destruct (play_audio_starts_the_decoded_speech sampleEnv "Hello." sampleSession
              baselineContext
              (speechResponse (btoa_bytes (pcm16le [16384; -32768]))) [16384; -32768])
    as (audioBuffer & ss' & Hrun & _ & _ & _ & Hframes & Hplaying & _).
  - reflexivity.
  - unfold supports; simpl; lia.
  - discriminate.
  - repeat constructor; unfold int16; lia.
  - vm_compute; reflexivity.
  - reflexivity.
  - exists audioBuffer, ss'. split; [exact Hrun|].
    split; [apply Hframes; reflexivity|].
    split; [apply Hframes; reflexivity|exact Hplaying].
Defined.

(** X17. Whatever goes wrong in [handlePlayAudio] ends in the same way:
    the error is logged under [Audio playback failed], no source is
    started and the playing flag is off again, so the next click tries
    again. This holds when the context cannot be made (then no request
    is sent either), when the request is rejected, when the response has
    no audio, when the audio is not base64 text, and when it decodes to
    an odd number of bytes. A context that was made is kept. *)
Theorem play_audio_failure_clears_the_flag
        (env : ProcessEnv) (text : string) (ss : Session) :
  ss_isPlayingAudio ss = false ->
  (forall error,
     ss_audioContext ss = None ->
     execHandler (handlePlayAudio env text ss) [inr (ReplyContext (Thrown error)); inr ReplyNothing]
       (Finished
          [inr (CallNewAudioContext 24000);
           inr (CallConsoleErrorLabelled "Audio playback failed" error)]
          ss [])) /\
  (forall made settled error,
     decodedSpeech (contextOf ss made) settled = Thrown error ->
     exists ss',
       execHandler (handlePlayAudio env text ss)
         (contextReplies ss made ++ [inl (ReplyContent settled); inr ReplyNothing])
         (Finished
            (contextCalls ss ++
             [inl (CallGenerateContent (getAI env) (speechParameters text));
              inr (CallConsoleErrorLabelled "Audio playback failed" error)])
            ss' []) /\
       ss_isPlayingAudio ss' = false /\
       ss_audioContext ss' = Some (contextOf ss made) /\
       ss_app ss' = ss_app ss) /\
  (forall ctx,
     (forall error, decodedSpeech ctx (Thrown error) = Thrown error) /\
     (forall resp,
        firstPartInlineData resp = None \/ firstPartInlineData resp = Some EmptyString ->
        decodedSpeech ctx (Done resp) = Thrown NoAudioData) /\
     (forall resp payload error,
        firstPartInlineData resp = Some payload ->
        atob payload = Thrown error ->
        decodedSpeech ctx (Done resp) = Thrown error) /\
     (forall resp bs,
        firstPartInlineData resp = Some (btoa_bytes bs) ->
        Zlength' bs mod 2 = 1 ->
        decodedSpeech ctx (Done resp) = Thrown RangeError_Int16Array)).
Proof.
  intros Hidle. split; [|split].
  - intros error Hnone. unfold handlePlayAudio. rewrite Hidle.
    cbn [ss_audioContext setIsPlayingAudio]. rewrite Hnone.
    change [inr (CallNewAudioContext 24000);
            inr (CallConsoleErrorLabelled "Audio playback failed" error)]
      with ([@inr call handlerCall (CallNewAudioContext 24000)]
              ++ [inr (CallConsoleErrorLabelled "Audio playback failed" error)])%list.
    eapply execHandler_bind.
    + rewrite <- (app_nil_r [inr (CallNewAudioContext 24000)]).
      eapply execHandler_bind; [now apply execHandler_handler|].
      apply execHandler_Ret.
    + cbv beta iota. unfold playbackFailed.
      rewrite <- (app_nil_r [inr (CallConsoleErrorLabelled _ error)]).
      eapply execHandler_bind; [now apply execHandler_handler|].
      replace (setIsPlayingAudio false (setIsPlayingAudio true ss)) with ss
        by (destruct ss; simpl in *; subst; reflexivity).
      apply execHandler_Ret.
  - intros made settled error Hdec.
    pose proof (handlePlayAudio_run env text ss made settled Hidle) as Hrun.
    cbv zeta in Hrun. rewrite Hdec in Hrun.
    eexists. split; [exact Hrun|]. repeat split.
  - intros ctx. split; [|split; [|split]].
    + intros error. reflexivity.
    + intros resp [H|H]; unfold decodedSpeech, speechOf; simpl cbind; rewrite H;
        reflexivity.
    + intros resp payload error Hdata Hatob.
      unfold decodedSpeech, speechOf. simpl cbind. rewrite Hdata.
      destruct payload as [|c s].
      * revert Hatob. vm_compute. discriminate.
      * simpl cbind. unfold decodeBase64. rewrite Hatob. reflexivity.
    + intros resp bs Hdata Hodd.
      unfold decodedSpeech, speechOf. simpl cbind. rewrite Hdata.
      destruct (btoa_bytes_nonempty bs) as (c & s & Hb).
      { intros ->. discriminate. }
      rewrite Hb. simpl cbind. rewrite <- Hb.
      rewrite decodeBase64_btoa_bytes. simpl cbind.
      unfold decodeAudioData, new_Int16Array. cbn [buffer Uint8Array_of].
      rewrite Hodd. reflexivity.
Qed.

Lemma play_audio_failure_clears_the_flag_witness :
  exists ss',
    execHandler (handlePlayAudio sampleEnv "Hello." sampleSession)
      [inr (ReplyContext (Done baselineContext));
       inl (ReplyContent
              (Done (speechResponse (btoa_bytes [Byte.x01; Byte.x00; Byte.x02]))));
       inr ReplyNothing]
      (Finished
         [inr (CallNewAudioContext 24000);
          inl (CallGenerateContent (getAI sampleEnv) (speechParameters "Hello."));
          inr (CallConsoleErrorLabelled "Audio playback failed" RangeError_Int16Array)]
         ss' []) /\
    ss_isPlayingAudio ss' = false.
Proof.
  destruct (play_audio_failure_clears_the_flag sampleEnv "Hello." sampleSession eq_refl)
    as (_ & Hfail & Hcauses).
  destruct (Hcauses baselineContext) as (_ & _ & _ & Hodd).
  destruct (Hfail baselineContext
              (Done (speechResponse (btoa_bytes [Byte.x01; Byte.x00; Byte.x02])))
              RangeError_Int16Array
              (Hodd (speechResponse (btoa_bytes [Byte.x01; Byte.x00; Byte.x02]))
                 [Byte.x01; Byte.x00; Byte.x02] eq_refl eq_refl))
    as (ss' & Hrun & Hflag & _).
  exists ss'. split; [exact Hrun|exact Hflag].
Defined.

(** ** Recording and the key flag *)

(** X18. [toggleRecording] never clears the recording flag. Without
    speech recognition it only shows an alert. Otherwise, when not
    recording it sets the flag and starts the recognition, and the flag
    is on even if [start()] throws; when recording it stops the
    recognition and leaves the flag on. The flag goes off when the
    recognition ends or fails: start, stop and [onend] (or [onerror])
    bring the state back to what it was. *)
Theorem recording_flag_follows_the_recognition (ss : Session) :
  (st_hasRecognition (ss_app ss) = false ->
   execHandler (toggleRecording ss) [inl ReplyVoid]
     (Finished [inl (CallAlert "Speech recognition is not supported in your browser.")]
        ss [])) /\
  (st_hasRecognition (ss_app ss) = true ->
   st_isRecording (ss_app ss) = false ->
   forall started,
   exists ss1,
     execHandler (toggleRecording ss) [inr (ReplySettled started)]
       (Finished [inr CallRecognitionStart] ss1 []) /\
     st_isRecording (ss_app ss1) = true /\
     execHandler (toggleRecording ss1) [inl ReplyVoid]
       (Finished [inl CallRecognitionStop] ss1 []) /\
     onend ss1 = ss /\
     forall code,
       execHandler (onerror code ss1) [inr ReplyNothing]
         (Finished [inr (CallConsoleErrorCode "Speech recognition error" code)] ss [])).
Proof.
  split.
  - intros Hno. unfold toggleRecording. rewrite Hno. cbn [negb].
    rewrite <- (app_nil_r [inl (CallAlert _)]).
    eapply execHandler_bind; [now apply execHandler_browser|apply execHandler_Ret].
  - intros Hrec Hidle started.
    assert (Hback : onApp (setIsRecording false) (onApp (setIsRecording true) ss) = ss).
    { destruct ss as [st ? ? ? ? ? ?]. destruct st. simpl in *. subst. reflexivity. }
    exists (onApp (setIsRecording true) ss). split; [|split; [|split; [|split]]].
    + unfold toggleRecording. rewrite Hrec, Hidle. cbn [negb].
      rewrite <- (app_nil_r [inr CallRecognitionStart]).
      eapply execHandler_bind; [now apply execHandler_handler|apply execHandler_Ret].
    + reflexivity.
    + unfold toggleRecording.
      cbn [onApp ss_app setIsRecording st_hasRecognition st_isRecording].
      rewrite Hrec. cbn [negb].
      rewrite <- (app_nil_r [inl CallRecognitionStop]).
      eapply execHandler_bind; [now apply execHandler_browser|apply execHandler_Ret].
    + exact Hback.
    + intros code. unfold onerror.
      rewrite <- (app_nil_r [inr (CallConsoleErrorCode _ code)]).
      eapply execHandler_bind; [now apply execHandler_handler|].
      rewrite Hback. apply execHandler_Ret.
Qed.

Lemma recording_flag_follows_the_recognition_witness :
  exists ss1,
    execHandler (toggleRecording sampleSession)
      [inr (ReplySettled (Thrown (mkError "InvalidStateError" "already started")))]
      (Finished [inr CallRecognitionStart] ss1 []) /\
    st_isRecording (ss_app ss1) = true /\
    onend ss1 = sampleSession.
Proof.
  destruct (recording_flag_follows_the_recognition sampleSession) as [_ H].
  destruct (H eq_refl eq_refl (Thrown (mkError "InvalidStateError" "already started")))
    as (ss1 & Hrun & Hflag & _ & Hend & _).
  exists ss1. split; [exact Hrun|]. split; [exact Hflag|exact Hend].
Defined.

(** X19. The key flag is set from what the host says and is never
    verified. Without [window.aistudio], [checkKey] and
    [handleSelectKey] do nothing, so the flag keeps its value. With it,
    [checkKey] sets the flag to the answer of [hasSelectedApiKey], and
    [handleSelectKey] sets it as soon as the dialog resolves, with that
    one call and without asking whether a key was selected; a rejected
    promise leaves the flag as it is. Neither touches the rest of the
    state. *)
Theorem key_flag_is_not_verified (ss : Session) :
  (ss_aistudio ss = false ->
   forall script,
     execHandler (checkKey ss) script (Finished [] ss script) /\
     execHandler (handleSelectKey ss) script (Finished [] ss script)) /\
  (ss_aistudio ss = true ->
   (forall selected,
      execHandler (checkKey ss) [inr (ReplySelected selected)]
        (Finished [inr CallHasSelectedApiKey]
           (match selected with
            | Done b => setHasApiKey b ss
            | Thrown _ => ss
            end) [])) /\
   (forall selected settled,
      execHandler
        (ITree.bind (checkKey ss) handleSelectKey)
        [inr (ReplySelected (Done selected)); inr (ReplySettled settled)]
        (Finished [inr CallHasSelectedApiKey; inr CallOpenSelectKey]
           (match settled with
            | Done _ => setHasApiKey true ss
            | Thrown _ => setHasApiKey selected ss
            end) []))).
Proof.
  split.
  - intros Hno script. unfold checkKey, handleSelectKey. rewrite Hno.
    split; apply execHandler_Ret.
  - intros Hyes.
    assert (Hcheck : forall selected script,
               execHandler (checkKey ss) (inr (ReplySelected selected) :: script)
                 (Finished [inr CallHasSelectedApiKey]
                    (match selected with
                     | Done b => setHasApiKey b ss
                     | Thrown _ => ss
                     end) script)).
    { intros selected script. unfold checkKey. rewrite Hyes.
      rewrite <- (app_nil_r [inr CallHasSelectedApiKey]).
      eapply execHandler_bind; [now apply execHandler_handler|].
      destruct selected; apply execHandler_Ret. }
    split; [intros selected; apply Hcheck|].
    intros selected settled.
    change [inr CallHasSelectedApiKey; inr CallOpenSelectKey]
      with ([@inr call handlerCall CallHasSelectedApiKey]
              ++ [inr CallOpenSelectKey])%list.
    eapply execHandler_bind; [apply (Hcheck (Done selected))|].
    unfold handleSelectKey. cbn [ss_aistudio setHasApiKey]. rewrite Hyes.
    rewrite <- (app_nil_r [inr CallOpenSelectKey]).
    eapply execHandler_bind; [now apply execHandler_handler|].
    destruct settled; apply execHandler_Ret.
Qed.

Lemma key_flag_is_not_verified_witness :
  execHandler (ITree.bind (checkKey sampleSession) handleSelectKey)
    [inr (ReplySelected (Done false)); inr (ReplySettled (Done tt))]
    (Finished [inr CallHasSelectedApiKey; inr CallOpenSelectKey] sampleSession []).
Proof.
  destruct (key_flag_is_not_verified sampleSession) as [_ H].
  destruct (H eq_refl) as [_ Hboth].
  exact (Hboth false (Done tt)).
Defined.
